(** * SAStocks: a shallow embedding of [sa_stocks.py]

    The development follows the source file top-down: Python values and
    exceptions, the score aggregator, the two sentiment strategies, the
    retry decorator, the provider wrappers and finally [main].

    Conventions.
    - Python numbers (ints and floats) are exact rationals [Q]; an absent
      value ([None]) is [None : option Q].
    - A Python exception is a constructor of [exn]; a computation that may
      raise returns a [result].
    - Everything outside the process (HTTP providers, the chat model, the
      lexicon analyzer, the ticker file) is an oracle collected in [Env];
      every call to one of them is recorded in a log of [effect]s. *)

From Stdlib Require Import List String Ascii Bool Arith ZArith QArith Lia Lqa.
From Stdlib Require Import Sorted Permutation.
Import ListNotations.

Local Open Scope string_scope.
Local Open Scope Q_scope.
Local Open Scope list_scope.

(** ** Exceptions and results *)

Inductive exn : Type :=
| TypeError
| ZeroDivisionError
| KeyError
| UnboundLocalError
| FileNotFoundError
| UnpicklingError
| RequestException
| HTTPError
| IndexError
| AttributeError
| OtherError.

Inductive result (A : Type) : Type :=
| Ok (a : A)
| Raise (e : exn).

Arguments Ok {A} a.
Arguments Raise {A} e.

Definition rbind {A B : Type} (r : result A) (k : A -> result B) : result B :=
  match r with
  | Ok a => k a
  | Raise e => Raise e
  end.

Declare Scope result_scope.
Delimit Scope result_scope with res.
Notation "x <- r ;; k" := (rbind r (fun x => k))
  (at level 61, r at next level, right associativity) : result_scope.

(** ** Python arithmetic on numbers that may be [None] *)

Definition Qlt_b (x y : Q) : bool :=
  match x ?= y with
  | Lt => true
  | _ => false
  end.

(** [a < b]: comparing with [None] raises [TypeError]. *)
Definition py_lt (a b : option Q) : result bool :=
  match a, b with
  | Some x, Some y => Ok (Qlt_b x y)
  | _, _ => Raise TypeError
  end.

(** [a > b] *)
Definition py_gt (a b : option Q) : result bool := py_lt b a.

(** [a / n] with an integer divisor. *)
Definition py_div (a : Q) (n : Z) : result Q :=
  if (n =? 0)%Z then Raise ZeroDivisionError else Ok (a / inject_Z n).

(** ** ScoreAggregator: [calculate_aggregated_score] (lines 278-310) *)

(** The [if c1: s = a  elif c2: s = b] pattern after [s = 0]; the second
    comparison is evaluated only when the first one is false. *)
Definition if_elif (c1 : result bool) (a : Q) (c2 : result bool) (b : Q)
  : result Q :=
  (t1 <- c1 ;;
   if (t1 : bool) then Ok a
   else t2 <- c2 ;; if (t2 : bool) then Ok b else Ok 0)%res.

Definition calculate_aggregated_score
    (vader_total gpt_total : Q)
    (historical_price_low historical_price_high recent_price : option Q)
    (news_volume : Z) (rsi macd : option Q) (num_articles : Z) : result Q :=
  (vader_score <- py_div vader_total num_articles ;;
   gpt_score <- py_div gpt_total num_articles ;;
   price_score <- if_elif (py_lt recent_price historical_price_low) (-1)
                          (py_gt recent_price historical_price_high) 1 ;;
   news_volume_score <- if_elif (Ok (10 <? news_volume)%Z) 1
                                (Ok (news_volume <? 5)%Z) (-1) ;;
   rsi_score <- if_elif (py_lt rsi (Some 30)) (-1) (py_gt rsi (Some 70)) 1 ;;
   macd_score <- if_elif (py_lt macd (Some 0)) (-1) (py_gt macd (Some 0)) 1 ;;
   Ok ((vader_score + gpt_score + price_score +
        news_volume_score + rsi_score + macd_score) / 6))%res.

(** The label weights of [main] (lines 344-346). *)
Definition sentiment_scores (label : string) : result Q :=
  if String.eqb label "Very good" then Ok 1
  else if String.eqb label "Good" then Ok (1 # 2)
  else if String.eqb label "Neutral" then Ok 0
  else if String.eqb label "UNKNOWN" then Ok 0
  else if String.eqb label "ERROR" then Ok 0
  else if String.eqb label "Error" then Ok 0
  else if String.eqb label "Bad" then Ok (- (1 # 2))
  else if String.eqb label "Very bad" then Ok (-1)
  else Raise KeyError.

(** [sum([sentiment_scores[s] for s in labels])] *)
Fixpoint sentiment_total (labels : list string) : result Q :=
  match labels with
  | [] => Ok 0
  | s :: rest =>
      (w <- sentiment_scores s ;;
       t <- sentiment_total rest ;;
       Ok (w + t))%res
  end.

(** The seven labels of the specification's data model, as the source
    spells them. *)
Definition label_set : list string :=
  ["Very good"; "Good"; "Neutral"; "Bad"; "Very bad"; "UNKNOWN"; "Error"].

(** *** The formula as the specification words it *)

Definition spec_priceScore (recentPrice historicalHigh historicalLow : Q) : Q :=
  if Qlt_b recentPrice historicalLow then -1
  else if Qlt_b historicalHigh recentPrice then 1 else 0.

Definition spec_volumeScore (newsVolume : Z) : Q :=
  if (10 <? newsVolume)%Z then 1
  else if (newsVolume <? 5)%Z then -1 else 0.

Definition spec_rsiScore (rsi : Q) : Q :=
  if Qlt_b rsi 30 then -1 else if Qlt_b 70 rsi then 1 else 0.

Definition spec_macdScore (macd : Q) : Q :=
  if Qlt_b macd 0 then -1 else if Qlt_b 0 macd then 1 else 0.

Definition spec_aggregatedScore
    (vaderSum gptSum : Q) (numArticles : Z)
    (recentPrice historicalHigh historicalLow : Q) (newsVolume : Z)
    (rsi macd : Q) : Q :=
  (vaderSum / inject_Z numArticles + gptSum / inject_Z numArticles
   + spec_priceScore recentPrice historicalHigh historicalLow
   + spec_volumeScore newsVolume + spec_rsiScore rsi + spec_macdScore macd) / 6.

(** ** Strings: the fragment of [str] used by the source

    A [string] is read as a sequence of code points below 256. *)

(** [str.isspace] on one character. *)
Definition is_space (c : ascii) : bool :=
  let n := nat_of_ascii c in
  ((9 <=? n) && (n <=? 13) || (28 <=? n) && (n <=? 32)
   || (n =? 133) || (n =? 160))%nat.

Fixpoint lstrip (s : string) : string :=
  match s with
  | EmptyString => EmptyString
  | String c rest => if is_space c then lstrip rest else s
  end.

Fixpoint rstrip (s : string) : string :=
  match s with
  | EmptyString => EmptyString
  | String c rest =>
      match rstrip rest with
      | EmptyString => if is_space c then EmptyString else String c EmptyString
      | r => String c r
      end
  end.

(** [s.strip()] *)
Definition strip (s : string) : string := rstrip (lstrip s).

(** [s.split('\n')[0]] *)
Fixpoint first_line (s : string) : string :=
  match s with
  | EmptyString => EmptyString
  | String c rest =>
      if Ascii.eqb c "010"%char then EmptyString else String c (first_line rest)
  end.

(** Truth value of a [str]: non-empty. *)
Definition truthy (s : string) : bool :=
  match s with
  | EmptyString => false
  | String _ _ => true
  end.

(** [x in xs] for a list of strings. *)
Definition str_in (x : string) (xs : list string) : bool :=
  existsb (String.eqb x) xs.

(** ** NewsStore: table [news_articles] *)

Record news_row : Type := mk_news_row {
  row_date : string;
  row_ticker : string;
  row_title : string;
  row_description : string
}.

(** [get_news_from_db] (lines 157-162): the rows of one ticker, in table
    order. *)
Definition get_news_from_db (db : list news_row) (ticker : string)
  : list news_row :=
  filter (fun r => String.eqb (row_ticker r) ticker) db.

(** The rows that pass [if title and description]. *)
Definition usable (r : news_row) : bool :=
  truthy (row_title r) && truthy (row_description r).

Definition article_text (r : news_row) : string :=
  (row_title r ++ " " ++ row_description r)%string.

(** ** Lexicon strategy: [vader_sentiment_analysis] (lines 165-175) *)

Definition vader_labels : list string :=
  ["Very bad"; "Bad"; "Neutral"; "Good"; "Very good"].

Definition vader_breaks : list Q :=
  [-1; - (8 # 10); - (35 # 100); 35 # 100; 8 # 10; 1].

(** [pd.IntervalIndex.from_breaks(breaks, closed='left').get_loc(key)]:
    interval number [i] is [breaks[i] <= key < breaks[i+1]]; a key in no
    interval raises [KeyError]. *)
Fixpoint get_loc (breaks : list Q) (i : nat) (key : Q) : result nat :=
  match breaks with
  | lo :: ((hi :: _) as rest) =>
      if Qle_bool lo key && Qlt_b key hi then Ok i
      else get_loc rest (S i) key
  | _ => Raise KeyError
  end.

(** [labels[idx.get_loc(compound)]] *)
Definition vader_label (compound : Q) : result string :=
  (i <- get_loc vader_breaks 0 compound ;;
   match nth_error vader_labels i with
   | Some l => Ok l
   | None => Raise IndexError
   end)%res.

Fixpoint vader_loop (polarity_compound : string -> Q)
    (rows : list news_row) (sentiment_scores : list string)
  : result (list string) :=
  match rows with
  | [] => Ok sentiment_scores
  | r :: rest =>
      if usable r then
        (l <- vader_label (polarity_compound (article_text r)) ;;
         vader_loop polarity_compound rest (sentiment_scores ++ [l]))%res
      else vader_loop polarity_compound rest sentiment_scores
  end.

Definition vader_sentiment_analysis (polarity_compound : string -> Q)
    (db : list news_row) (ticker : string) : result (list string) :=
  vader_loop polarity_compound (get_news_from_db db ticker) [].

(** ** Effects

    Console output is kept as structured messages; [logging] output to
    [app.log] is not modelled. Delays are in milliseconds. *)

Inductive endpoint : Type :=
| NewsEndpoint       (* /v2/reference/news?ticker=... *)
| RsiEndpoint        (* /v1/indicators/rsi/... *)
| MacdEndpoint       (* /v1/indicators/macd/... *)
| AggsEndpoint       (* /v2/aggs/ticker/.../range/1/day/... *)
| OpenCloseEndpoint. (* /v1/open-close/... *)

Inductive message : Type :=
| MsgStarting
| MsgLoadedTickers (n : nat)
| MsgNoTickers
| MsgImportingAll
| MsgImporting (i : nat) (ticker : string)
| MsgLoadedNews (n : nat) (ticker : string)
| MsgConducting
| MsgProcessing (i : nat) (ticker : string)
| MsgNoArticles (ticker : string)
| MsgAggregatedScore (ticker : string) (score : Q)
| MsgFinished (i : nat) (ticker : string)
| MsgReportHeader
| MsgReportLine (ticker : string) (score : Q)
| MsgReportWritten
| MsgNewsError (ticker : string)
| MsgGptError
| MsgIndicatorError (e : endpoint) (ticker : string) (status : Z)
| MsgTickerError (ticker : string) (e : exn)
| MsgTraceback.

Inductive effect : Type :=
| Print (m : message)                           (* print(...) *)
| HttpGet (e : endpoint) (ticker : string)      (* requests.get(url, timeout=10) *)
| ChatCompletion (ticker : string) (text : string)
                                                (* client.chat.completions.create *)
| Sleep (ms : Z).                               (* time.sleep *)

(** ** State and exceptions

    A computation over a state [S] returns the new state together with a
    value or a raised exception; the state reached when the exception was
    raised is kept (database commits and file writes are not undone). *)

Definition M (S A : Type) : Type := S -> S * result A.

Definition ret {S A : Type} (a : A) : M S A := fun s => (s, Ok a).

Definition raise {S A : Type} (e : exn) : M S A := fun s => (s, Raise e).

Definition bind {S A B : Type} (m : M S A) (k : A -> M S B) : M S B :=
  fun s =>
    match m s with
    | (s', Ok a) => k a s'
    | (s', Raise e) => (s', Raise e)
    end.

Definition of_result {S A : Type} (r : result A) : M S A := fun s => (s, r).

Definition gets {S A : Type} (f : S -> A) : M S A := fun s => (s, Ok (f s)).

Definition modify {S : Type} (f : S -> S) : M S unit := fun s => (f s, Ok tt).

(** Run a computation on a component [T] of the state [S]. *)
Definition zoom {S T A : Type} (get : S -> T) (set : T -> S -> S)
    (m : M T A) : M S A :=
  fun s => let (t', r) := m (get s) in (set t' s, r).

Declare Scope monad_scope.
Delimit Scope monad_scope with M.
Notation "x <- m ;; k" := (bind m (fun x => k))
  (at level 61, m at next level, right associativity) : monad_scope.
Notation "' pat <- m ;; k" := (bind m (fun x => match x with pat => k end))
  (at level 61, pat pattern, m at next level, right associativity) : monad_scope.
Notation "m ;; k" := (bind m (fun _ => k))
  (at level 61, right associativity) : monad_scope.

Definition Log : Type := list effect.

Definition emit (e : effect) : M Log unit := fun log => ((log ++ [e])%list, Ok tt).

(** ** Generative strategy: [gpt_sentiment_analysis] (lines 178-221) *)

Inductive chat_reply : Type :=
| ChatRaise                      (* any exception inside the [try] block *)
| ChatContent (content : string). (* [response.choices[0].message.content] *)

Definition canonical_labels : list string :=
  ["Very good"; "Good"; "Neutral"; "Bad"; "Very bad"].

(** Lines 204-210: first line of the stripped answer, stripped again, kept
    if it is one of the five labels. *)
Definition gpt_label (content : string) : string :=
  let full_response := strip content in
  let sentiment := strip (first_line full_response) in
  if str_in sentiment canonical_labels then sentiment else "UNKNOWN".

(** The [while max_retries > 0] loop of one article (lines 184-220).
    [max_retries] is the function's parameter: it is decremented here and
    its value is handed on to the next article. [calls] counts the model
    calls made so far in this invocation and indexes the oracle. *)
Fixpoint gpt_attempts (chat : string -> string -> nat -> chat_reply)
    (ticker text : string) (retry_delay : Z)
    (max_retries calls : nat) (sentiment_scores : list string)
    {struct max_retries} : M Log (nat * nat * list string) :=
  match max_retries with
  | O => ret (O, calls, sentiment_scores)
  | S max_retries' =>
      (emit (ChatCompletion ticker text) ;;
       match chat ticker text calls with
       | ChatContent content =>
           (* append, break *)
           ret (max_retries', S calls,
                (sentiment_scores ++ [gpt_label content])%list)
       | ChatRaise =>
           emit (Print MsgGptError) ;;
           if (0 <? max_retries')%nat then
             emit (Sleep retry_delay) ;;
             gpt_attempts chat ticker text retry_delay max_retries' (S calls)
               sentiment_scores
           else
             gpt_attempts chat ticker text retry_delay max_retries' (S calls)
               (sentiment_scores ++ ["Error"])%list
       end)%M
  end.

Fixpoint gpt_loop (chat : string -> string -> nat -> chat_reply)
    (ticker : string) (retry_delay : Z) (rows : list news_row)
    (max_retries calls : nat) (sentiment_scores : list string)
  : M Log (list string) :=
  match rows with
  | [] => ret sentiment_scores
  | r :: rest =>
      if usable r then
        ('(m, c, s) <- gpt_attempts chat ticker (article_text r) retry_delay
                         max_retries calls sentiment_scores ;;
         gpt_loop chat ticker retry_delay rest m c s)%M
      else
        gpt_loop chat ticker retry_delay rest max_retries calls sentiment_scores
  end.

Definition gpt_sentiment_analysis (chat : string -> string -> nat -> chat_reply)
    (db : list news_row) (ticker : string)
    (max_retries : nat) (retry_delay : Z) : M Log (list string) :=
  gpt_loop chat ticker retry_delay (get_news_from_db db ticker)
    max_retries 0 [].

(** Defaults of the signature: [max_retries=4, retry_delay=2.0] seconds. *)
Definition default_max_retries : nat := 4.
Definition default_retry_delay : Z := 2000.

(** ** RetryExecutor: the [@retry] decorator (line 110)

    [retry] is imported from the [retrying] package, which is outside the
    repository. This is its [Retrying.call] loop with the strategies the
    three keyword arguments of line 110 select: [stop_after_attempt]
    ([previous_attempt_number >= stop_max_attempt_number]) and
    [exponential_sleep] ([multiplier * 2 ** previous_attempt_number],
    capped at [wait_exponential_max]); every exception is retried and, on
    stop, the exception of the last attempt is re-raised. *)

Record Retrying : Type := mk_retrying {
  stop_max_attempt_number : nat;
  wait_exponential_multiplier : Z;
  wait_exponential_max : Z
}.

Definition stop_after_attempt (p : Retrying) (previous_attempt_number : nat)
  : bool :=
  (stop_max_attempt_number p <=? previous_attempt_number)%nat.

Definition exponential_sleep (p : Retrying) (previous_attempt_number : nat)
  : Z :=
  let exp := (2 ^ Z.of_nat previous_attempt_number)%Z in
  let result := (wait_exponential_multiplier p * exp)%Z in
  let result :=
    if (wait_exponential_max p <? result)%Z then wait_exponential_max p
    else result in
  if (result <? 0)%Z then 0%Z else result.

(** [fn k] is the wrapped call at its [k]-th attempt. [None] means the
    fuel ran out before the loop ended. *)
Fixpoint retrying_call {A : Type} (p : Retrying) (fn : nat -> M Log A)
    (fuel attempt_number : nat) (log : Log) : Log * option (result A) :=
  match fuel with
  | O => (log, None)
  | S fuel' =>
      match fn attempt_number log with
      | (log1, Ok a) => (log1, Some (Ok a))
      | (log1, Raise e) =>
          if stop_after_attempt p attempt_number then (log1, Some (Raise e))
          else
            retrying_call p fn fuel' (S attempt_number)
              (log1 ++ [Sleep (exponential_sleep p attempt_number)])%list
      end
  end.

(** The decorator arguments of line 110. *)
Definition retry_policy : Retrying :=
  {| stop_max_attempt_number := 7;
     wait_exponential_multiplier := 1000;
     wait_exponential_max := 10000 |}.

(** ** HTTP providers *)

(** One news item of the provider, with the keys the source reads by
    [.get(key, default)]. *)
Record article : Type := mk_article {
  a_timestamp : option string;
  a_title : option string;
  a_description : option string
}.

(** One element of the provider's ['results'] list. The loop calls
    [result.get] on it, which only a JSON object has. Field values that
    are not strings are not modelled. *)
Inductive news_item : Type :=
| JObject (a : article)   (* a JSON object *)
| JOther.                 (* any other JSON value: [result.get] raises *)

(** The decoded JSON bodies the source looks into. *)
Inductive body : Type :=
| JNews (status : option string) (results : option (list news_item))
| JValues (values : list Q)      (* {"results": {"values": [{"value": v}, ...]}} *)
| JClose (close : option Q)      (* {"close": c, ...} or a body without "close" *)
| JResults (closes : list Q).    (* {"results": [{"c": c}, ...]} *)

Record response : Type := mk_response {
  status_code : Z;
  json : body
}.

Inductive http_reply : Type :=
| HttpFail                       (* requests.get raises: timeout, transport error *)
| HttpResponse (r : response).

(** [Response.raise_for_status]: raises for 4xx and 5xx. *)
Definition raise_for_status (r : response) : result unit :=
  if ((400 <=? status_code r) && (status_code r <? 600))%Z
  then Raise HTTPError else Ok tt.

(** The world outside the process. *)
Record Env : Type := mk_env {
  tickers_csv : result (list string);
      (* what [load_tickers] returns or raises *)
  polygon : endpoint -> string -> nat -> http_reply;
      (* reply to the [k]-th attempt of one call for one ticker *)
  polarity_compound : string -> Q;
      (* [analyzer.polarity_scores(text)['compound']] *)
  chat : string -> string -> nat -> chat_reply;
      (* reply to a model call for (ticker, text) after [k] earlier calls *)
  now_time : string;   (* [datetime.now().strftime(TIME_FMT)] *)
  utc_date : string    (* [datetime.now(timezone.utc).strftime(DATE_FMT)] *)
}.

(** The body of [requests_get_with_retry] (lines 112-114), at attempt [k]. *)
Definition requests_get_once (env : Env) (e : endpoint) (ticker : string)
    (k : nat) : M Log response :=
  (emit (HttpGet e ticker) ;;
   match polygon env e ticker k with
   | HttpFail => raise RequestException
   | HttpResponse r => of_result (raise_for_status r) ;; ret r
   end)%M.

(** [requests_get_with_retry] (lines 110-114). Seven units of fuel are
    enough for the loop to end (lemma [retrying_call_returns]); the
    [None] branch is never taken. *)
Definition requests_get_with_retry (env : Env) (e : endpoint)
    (ticker : string) : M Log response :=
  fun log =>
    match retrying_call retry_policy (requests_get_once env e ticker) 7 1 log
    with
    | (log', Some r) => (log', r)
    | (log', None) => (log', Raise OtherError)
    end.

(** [get_rsi] and [get_macd] (lines 224-245) differ in the URL only. *)
Definition get_indicator (env : Env) (e : endpoint) (ticker : string)
  : M Log (option Q) :=
  (resp <- requests_get_with_retry env e ticker ;;
   if (status_code resp =? 200)%Z then
     match json resp with
     | JValues values => ret (hd_error values)
     | _ => raise KeyError
     end
   else
     emit (Print (MsgIndicatorError e ticker (status_code resp))) ;;
     ret None)%M.

Definition get_rsi (env : Env) (ticker : string) : M Log (option Q) :=
  get_indicator env RsiEndpoint ticker.

Definition get_macd (env : Env) (ticker : string) : M Log (option Q) :=
  get_indicator env MacdEndpoint ticker.

(** [max(prices)] and [min(prices)] of a non-empty list. *)
Definition py_max (x : Q) (xs : list Q) : Q :=
  fold_left (fun m y => if Qlt_b m y then y else m) xs x.

Definition py_min (x : Q) (xs : list Q) : Q :=
  fold_left (fun m y => if Qlt_b y m then y else m) xs x.

(** [get_historical_price] (lines 248-260): (high, low). *)
Definition get_historical_price (env : Env) (ticker : string)
  : M Log (option Q * option Q) :=
  (resp <- requests_get_with_retry env AggsEndpoint ticker ;;
   match json resp with
   | JResults prices =>
       match prices with
       | c :: cs => ret (Some (py_max c cs), Some (py_min c cs))
       | [] => ret (None, None)
       end
   | _ => raise KeyError
   end)%M.

(** [get_recent_price] (lines 263-275). *)
Definition get_recent_price (env : Env) (ticker : string) : M Log (option Q) :=
  (resp <- requests_get_with_retry env OpenCloseEndpoint ticker ;;
   match json resp with
   | JClose (Some c) => ret (Some c)
   | _ => ret None
   end)%M.

(** [get_stock_news] (lines 117-133): one plain [requests.get]; the state
    is the news table and the log. A reply whose body does not decode
    as JSON is not modelled. *)
Definition news_row_of (env : Env) (ticker : string) (a : article) : news_row :=
  {| row_date := match a_timestamp a with Some t => t | None => now_time env end;
     row_ticker := ticker;
     row_title := match a_title a with Some t => t | None => "" end;
     row_description :=
       match a_description a with Some d => d | None => "" end |}.

(** The loop of lines 124-127 on the news table: [save_news_to_db]
    (lines 76-83) inserts and commits one row per item, so the rows of
    the items before one that raises stay stored. The value is the list
    that line 128 returns when the loop gets to its end. *)
Fixpoint save_news_items (env : Env) (ticker : string)
    (results : list news_item) : M (list news_row) (list article) :=
  match results with
  | [] => ret []
  | JObject a :: rest =>
      (modify (fun db => db ++ [news_row_of env ticker a]) ;;
       saved <- save_news_items env ticker rest ;;
       ret (a :: saved))%M
  | JOther :: _ => raise AttributeError
  end.

Definition get_stock_news (env : Env) (ticker : string)
  : M (list news_row * Log) (list article) :=
  fun '(db, log) =>
    let log1 := (log ++ [HttpGet NewsEndpoint ticker])%list in
    match polygon env NewsEndpoint ticker 1 with
    | HttpFail =>
        (* except requests.exceptions.RequestException *)
        ((db, (log1 ++ [Print (MsgNewsError ticker)])%list), Ok [])
    | HttpResponse r =>
        match json r with
        | JNews (Some status) results =>
            if String.eqb status "OK" then
              match results with
              | Some rs =>
                  let '(db', saved) := save_news_items env ticker rs db in
                  ((db', log1), saved)
              | None => ((db, log1), Raise KeyError)
              end
            else ((db, log1), Ok [])
        | _ => ((db, log1), Ok [])
        end
    end.

(** ** Durable state *)

(** Contents of [state.pkl]: a pickled checkpoint, or bytes that
    [pickle.load] rejects. *)
Inductive pickle_file : Type :=
| Unreadable
| Pickled (processed_tickers : list string) (report_data : list (string * Q)).

(** One row of table [sentiment_scores]. *)
Record score_row : Type := mk_score_row {
  s_date : string;
  s_ticker : string;
  s_vader_sentiment : Q;
  s_gpt_sentiment : Q;
  s_historical_price_high : option Q;
  s_historical_price_low : option Q;
  s_aggregated_score : Q;
  s_recent_price : option Q;
  s_rsi : option Q;
  s_macd : option Q
}.

Record World : Type := mk_world {
  w_state_pkl : option pickle_file;            (* [None]: no such file *)
  w_news_articles : list news_row;             (* news_articles.db *)
  w_sentiment_scores : list score_row;         (* sentiment_scores.db *)
  w_report_txt : option (list (string * Q));   (* report.txt *)
  w_log : Log                                  (* console and calls, in order *)
}.

(** ** CheckpointStore: [save_state] and [load_state] (lines 26-38) *)

Definition save_state (processed_tickers : list string)
    (report_data : list (string * Q)) : M World unit :=
  modify (fun w =>
    {| w_state_pkl := Some (Pickled processed_tickers report_data);
       w_news_articles := w_news_articles w;
       w_sentiment_scores := w_sentiment_scores w;
       w_report_txt := w_report_txt w;
       w_log := w_log w |}).

(** [open("state.pkl", "rb")] followed by [pickle.load] and the two key
    lookups. *)
Definition read_state_pkl : M World (list string * list (string * Q)) :=
  fun w =>
    match w_state_pkl w with
    | None => (w, Raise FileNotFoundError)
    | Some Unreadable => (w, Raise UnpicklingError)
    | Some (Pickled processed_tickers report_data) =>
        (w, Ok (processed_tickers, report_data))
    end.

Definition load_state : M World (list string * list (string * Q)) :=
  fun w =>
    match w_state_pkl w with
    | None => (w, Ok ([], []))            (* os.path.exists is false *)
    | Some _ => read_state_pkl w
    end.

(** ** PipelineOrchestrator: [main] (lines 343-455) *)

Definition dict (V : Type) : Type := list (string * V).

(** [d[k]] *)
Fixpoint dict_get {V : Type} (d : dict V) (k : string) : result V :=
  match d with
  | [] => Raise KeyError
  | (k', v) :: rest => if String.eqb k' k then Ok v else dict_get rest k
  end.

(** [d[k] = v]: the newest binding of a key shadows the older ones. *)
Definition dict_set {V : Type} (d : dict V) (k : string) (v : V) : dict V :=
  (k, v) :: d.

(** [k in d] *)
Definition dict_mem {V : Type} (d : dict V) (k : string) : bool :=
  match dict_get d k with
  | Ok _ => true
  | Raise _ => false
  end.

(** ** [add_article_to_tickers] (lines 136-154) *)

(** An article as the function reads it: three keys taken with
    [.get(key, default)] and ['tickers'], taken with [article['tickers']]. *)
Record tagged_article : Type := mk_tagged_article {
  t_title : option string;
  t_description : option string;
  t_keywords : option (list string);
  t_tickers : option (list string)
}.

(** The dictionary built at lines 138-143. *)
Record article_dict : Type := mk_article_dict {
  d_title : string;
  d_description : string;
  d_keywords : list string
}.

Definition make_article_dict (article : tagged_article) : article_dict :=
  {| d_title := match t_title article with Some t => t | None => "" end;
     d_description :=
       match t_description article with Some d => d | None => "" end;
     d_keywords := match t_keywords article with Some k => k | None => [] end |}.

(** The caller's dictionary holds list objects, and nothing keeps two
    keys from holding the same one. So the dictionary maps a key to the
    address of its list, and the heap gives what the list at an address
    holds; the addresses from [next] on are not in use. *)
Definition address : Type := nat.

Record heap (V : Type) : Type := mk_heap {
  contents : address -> list V;
  next : address
}.

Arguments mk_heap {V} contents next.
Arguments contents {V} h l.
Arguments next {V} h.

(** [[]]: a new, empty list object. *)
Definition new_list {V : Type} : M (heap V) address :=
  fun h =>
    ({| contents := fun l => if (l =? next h)%nat then [] else contents h l;
        next := S (next h) |},
     Ok (next h)).

(** [l.append(v)], in place. *)
Definition list_append {V : Type} (l : address) (v : V) : M (heap V) unit :=
  modify (fun h =>
    {| contents :=
         fun l' => if (l' =? l)%nat then contents h l' ++ [v] else contents h l';
       next := next h |}).

Definition in_heap {V A : Type} (m : M (heap V) A)
  : M (heap V * dict address) A :=
  zoom fst (fun h st => (h, snd st)) m.

Definition in_dict {V A : Type} (m : M (dict address) A)
  : M (heap V * dict address) A :=
  zoom snd (fun d st => (fst st, d)) m.

(** The loop of lines 146-152, on the caller's dictionary and the list
    objects it holds. *)
Fixpoint add_article_loop (a : article_dict) (tickers : list string)
  : M (heap article_dict * dict address) unit :=
  match tickers with
  | [] => ret tt
  | ticker :: rest =>
      (present <- in_dict (gets (fun ticker_articles =>
                                   dict_mem ticker_articles ticker)) ;;
       (if present then ret tt
        else
          l <- in_heap new_list ;;
          in_dict (modify (fun ticker_articles =>
                             dict_set ticker_articles ticker l))) ;;
       l <- in_dict (fun ticker_articles =>
                       (ticker_articles, dict_get ticker_articles ticker)) ;;
       in_heap (list_append l a) ;;
       add_article_loop a rest)%M
  end.

(** The state is the dictionary passed in, which the function updates in
    place and also returns, with the list objects it holds. *)
Definition add_article_to_tickers (article : tagged_article)
  : M (heap article_dict * dict address) unit :=
  let a := make_article_dict article in
  match t_tickers article with
  | None => raise KeyError
  | Some tickers => add_article_loop a tickers
  end.

(** The local variables of [main] that outlive one statement. [l_ticker]
    is [None] until a [for] loop binds [ticker]. *)
Record Locals : Type := mk_locals {
  l_processed_tickers : list string;
  l_report_data : list (string * Q);
  l_news_data : dict (list article);
  l_rsi_data : dict (option Q);
  l_macd_data : dict (option Q);
  l_ticker : option string
}.

Record St : Type := mk_st {
  world : World;
  locals : Locals
}.

Definition set_log (log : Log) (w : World) : World :=
  {| w_state_pkl := w_state_pkl w;
     w_news_articles := w_news_articles w;
     w_sentiment_scores := w_sentiment_scores w;
     w_report_txt := w_report_txt w;
     w_log := log |}.

Definition set_news_and_log (nl : list news_row * Log) (w : World) : World :=
  {| w_state_pkl := w_state_pkl w;
     w_news_articles := fst nl;
     w_sentiment_scores := w_sentiment_scores w;
     w_report_txt := w_report_txt w;
     w_log := snd nl |}.

Definition in_world {A : Type} (m : M World A) : M St A :=
  zoom world (fun w s => {| world := w; locals := locals s |}) m.

Definition in_locals {A : Type} (m : M Locals A) : M St A :=
  zoom locals (fun l s => {| world := world s; locals := l |}) m.

(** Calls that touch nothing but the console and the providers. *)
Definition in_log {A : Type} (m : M Log A) : M St A :=
  in_world (zoom w_log set_log m).

Definition say (m : message) : M St unit := in_log (emit (Print m)).

(** Calls that also append to the news table. *)
Definition in_news {A : Type} (m : M (list news_row * Log) A) : M St A :=
  in_world (zoom (fun w => (w_news_articles w, w_log w)) set_news_and_log m).

(** [save_to_db] (lines 313-328) *)
Definition save_to_db (env : Env) (ticker : string)
    (vader_sentiment gpt_sentiment : Q)
    (historical_price_high historical_price_low : option Q)
    (aggregated_score : Q) (recent_price rsi macd : option Q) : M World unit :=
  modify (fun w =>
    {| w_state_pkl := w_state_pkl w;
       w_news_articles := w_news_articles w;
       w_sentiment_scores :=
         w_sentiment_scores w ++
         [ {| s_date := utc_date env;
              s_ticker := ticker;
              s_vader_sentiment := vader_sentiment;
              s_gpt_sentiment := gpt_sentiment;
              s_historical_price_high := historical_price_high;
              s_historical_price_low := historical_price_low;
              s_aggregated_score := aggregated_score;
              s_recent_price := recent_price;
              s_rsi := rsi;
              s_macd := macd |} ];
       w_report_txt := w_report_txt w;
       w_log := w_log w |}).

(** [print_report] (lines 331-340) *)
Definition print_report (report_data : list (string * Q)) : M World unit :=
  modify (fun w =>
    {| w_state_pkl := w_state_pkl w;
       w_news_articles := w_news_articles w;
       w_sentiment_scores := w_sentiment_scores w;
       w_report_txt := Some report_data;
       w_log :=
         w_log w ++ [Print MsgReportHeader]
         ++ map (fun r => Print (MsgReportLine (fst r) (snd r))) report_data
         ++ [Print MsgReportWritten] |}).

(** [report_data.sort(key=lambda x: x[1], reverse=True)]: stable, so rows
    with equal scores keep their order. *)
Fixpoint insert_desc (x : string * Q) (sorted : list (string * Q))
  : list (string * Q) :=
  match sorted with
  | [] => [x]
  | y :: rest =>
      if Qlt_b (snd x) (snd y) then y :: insert_desc x rest
      else x :: y :: rest
  end.

Definition sort_desc (rows : list (string * Q)) : list (string * Q) :=
  fold_right insert_desc [] rows.

(** [for x in xs: body(x)] *)
Fixpoint for_each {S A : Type} (body : A -> M S unit) (xs : list A)
  : M S unit :=
  match xs with
  | [] => ret tt
  | x :: rest => (body x ;; for_each body rest)%M
  end.

(** [enumerate(xs, start)] *)
Definition enumerate_from {A : Type} (start : nat) (xs : list A)
  : list (nat * A) :=
  combine (seq start (List.length xs)) xs.

Definition enumerate1 {A : Type} (xs : list A) : list (nat * A) :=
  enumerate_from 1 xs.

Definition bind_ticker (t : string) (l : Locals) : Locals :=
  {| l_processed_tickers := l_processed_tickers l;
     l_report_data := l_report_data l;
     l_news_data := l_news_data l;
     l_rsi_data := l_rsi_data l;
     l_macd_data := l_macd_data l;
     l_ticker := Some t |}.

Definition set_processed_tickers (p : list string) (l : Locals) : Locals :=
  {| l_processed_tickers := p;
     l_report_data := l_report_data l;
     l_news_data := l_news_data l;
     l_rsi_data := l_rsi_data l;
     l_macd_data := l_macd_data l;
     l_ticker := l_ticker l |}.

Definition set_report_data (r : list (string * Q)) (l : Locals) : Locals :=
  {| l_processed_tickers := l_processed_tickers l;
     l_report_data := r;
     l_news_data := l_news_data l;
     l_rsi_data := l_rsi_data l;
     l_macd_data := l_macd_data l;
     l_ticker := l_ticker l |}.

Definition set_news_data (d : dict (list article)) (l : Locals) : Locals :=
  {| l_processed_tickers := l_processed_tickers l;
     l_report_data := l_report_data l;
     l_news_data := d;
     l_rsi_data := l_rsi_data l;
     l_macd_data := l_macd_data l;
     l_ticker := l_ticker l |}.

Definition set_rsi_data (d : dict (option Q)) (l : Locals) : Locals :=
  {| l_processed_tickers := l_processed_tickers l;
     l_report_data := l_report_data l;
     l_news_data := l_news_data l;
     l_rsi_data := d;
     l_macd_data := l_macd_data l;
     l_ticker := l_ticker l |}.

Definition set_macd_data (d : dict (option Q)) (l : Locals) : Locals :=
  {| l_processed_tickers := l_processed_tickers l;
     l_report_data := l_report_data l;
     l_news_data := l_news_data l;
     l_rsi_data := l_rsi_data l;
     l_macd_data := d;
     l_ticker := l_ticker l |}.

(** Lines 350-357: the checkpoint is read inline; only
    [FileNotFoundError] is handled. *)
Definition main_load_state : M World (list string * list (string * Q)) :=
  fun w =>
    match read_state_pkl w with
    | (w', Raise FileNotFoundError) => (w', Ok ([], []))
    | other => other
    end.

(** Body of the first loop (lines 376-392). *)
Definition fetch_pass_body (env : Env) (it : nat * string) : M St unit :=
  let '(i, ticker) := it in
  (in_locals (modify (bind_ticker ticker)) ;;
   processed_tickers <- in_locals (gets l_processed_tickers) ;;
   if str_in ticker processed_tickers then ret tt     (* continue *)
   else
     say (MsgImporting i ticker) ;;
     news <- in_news (get_stock_news env ticker) ;;
     say (MsgLoadedNews (List.length news) ticker) ;;
     in_locals (modify (fun l =>
       set_news_data (dict_set (l_news_data l) ticker news) l)) ;;
     rsi <- in_log (get_rsi env ticker) ;;
     macd <- in_log (get_macd env ticker) ;;
     in_locals (modify (fun l =>
       set_rsi_data (dict_set (l_rsi_data l) ticker rsi) l)) ;;
     in_locals (modify (fun l =>
       set_macd_data (dict_set (l_macd_data l) ticker macd) l)))%M.

(** Body of the second loop (lines 396-445). *)
Definition score_pass_body (env : Env) (it : nat * string) : M St unit :=
  let '(i, ticker) := it in
  (in_locals (modify (bind_ticker ticker)) ;;
   say (MsgProcessing i ticker) ;;
   processed_tickers <- in_locals (gets l_processed_tickers) ;;
   if str_in ticker processed_tickers then ret tt     (* continue *)
   else
     news <- in_locals (fun l => (l, dict_get (l_news_data l) ticker)) ;;
     rsi <- in_locals (fun l => (l, dict_get (l_rsi_data l) ticker)) ;;
     macd <- in_locals (fun l => (l, dict_get (l_macd_data l) ticker)) ;;
     db <- in_world (gets w_news_articles) ;;
     vader_sentiments <-
       of_result (vader_sentiment_analysis (polarity_compound env) db ticker) ;;
     gpt_sentiments <-
       in_log (gpt_sentiment_analysis (chat env) db ticker
                 default_max_retries default_retry_delay) ;;
     if ((List.length vader_sentiments =? 0)%nat
         || (List.length gpt_sentiments =? 0)%nat)%bool then
       say (MsgNoArticles ticker)                      (* continue *)
     else
       recent_price <- in_log (get_recent_price env ticker) ;;
       '(historical_price_high, historical_price_low) <-
         in_log (get_historical_price env ticker) ;;
       vader_total <- of_result (sentiment_total vader_sentiments) ;;
       gpt_total <- of_result (sentiment_total gpt_sentiments) ;;
       aggregated_score <-
         of_result (calculate_aggregated_score
                      vader_total gpt_total
                      historical_price_low historical_price_high recent_price
                      (Z.of_nat (List.length news)) rsi macd
                      (Z.of_nat (List.length vader_sentiments))) ;;
       in_world (save_to_db env ticker vader_total gpt_total
                   historical_price_high historical_price_low
                   aggregated_score recent_price rsi macd) ;;
       say (MsgAggregatedScore ticker aggregated_score) ;;
       in_locals (modify (fun l =>
         set_report_data (l_report_data l ++ [(ticker, aggregated_score)]) l)) ;;
       say (MsgFinished i ticker) ;;
       in_locals (modify (fun l =>
         set_processed_tickers (l_processed_tickers l ++ [ticker]) l)) ;;
       (* lines 442-445 repeat the body of [save_state] *)
       l <- gets locals ;;
       in_world (save_state (l_processed_tickers l) (l_report_data l)))%M.

(** How the [try] block of [main] ended. *)
Inductive main_exit : Type :=
| NoTickers      (* the [return] of line 365 *)
| ReportDone.    (* fell off the end after [print_report] *)

(** Lines 349-362: the checkpoint and the ticker list. *)
Definition main_setup (env : Env) : M St (list string) :=
  ('(processed_tickers, report_data) <- in_world main_load_state ;;
   in_locals (modify (set_processed_tickers processed_tickers)) ;;
   in_locals (modify (set_report_data report_data)) ;;
   say MsgStarting ;;
   tickers <- of_result (tickers_csv env) ;;
   say (MsgLoadedTickers (List.length tickers)) ;;
   ret tickers)%M.

(** Lines 367-392: fresh accumulators, then the first loop. *)
Definition main_fetch_pass (env : Env) (tickers : list string) : M St unit :=
  (in_locals (modify (set_report_data [])) ;;               (* line 367 *)
   in_locals (modify (set_news_data [])) ;;
   in_locals (modify (set_rsi_data [])) ;;
   in_locals (modify (set_macd_data [])) ;;
   say MsgImportingAll ;;
   for_each (fetch_pass_body env) (enumerate1 tickers))%M.

(** Lines 394-445: the second loop. *)
Definition main_score_pass (env : Env) (tickers : list string) : M St unit :=
  (say MsgConducting ;;
   for_each (score_pass_body env) (enumerate1 tickers))%M.

(** Lines 447-451: sort and report. *)
Definition main_report : M St unit :=
  (in_locals (modify (fun l =>
     set_report_data (sort_desc (l_report_data l)) l)) ;;
   report_data <- in_locals (gets l_report_data) ;;
   in_world (print_report report_data))%M.

(** The [try] block (lines 349-451). *)
Definition main_try (env : Env) : M St main_exit :=
  (tickers <- main_setup env ;;
   match tickers with
   | [] => say MsgNoTickers ;; ret NoTickers
   | _ :: _ =>
       main_fetch_pass env tickers ;;
       main_score_pass env tickers ;;
       main_report ;;
       ret ReportDone
   end)%M.

Inductive outcome : Type :=
| Returned (how : main_exit)  (* [main] returned from the [try] block *)
| Handled (e : exn)           (* the [except] clause printed [e] and returned *)
| Escaped (e : exn).          (* an exception left [main] *)

Definition no_locals : Locals :=
  {| l_processed_tickers := [];
     l_report_data := [];
     l_news_data := [];
     l_rsi_data := [];
     l_macd_data := [];
     l_ticker := None |}.

(** [main]: the [try] block and its [except Exception as e] clause
    (lines 453-455). The clause formats [ticker]; when no loop has bound
    it yet, evaluating the message raises [UnboundLocalError], which
    leaves [main]. *)
Definition main (env : Env) (w : World) : World * outcome :=
  match main_try env {| world := w; locals := no_locals |} with
  | (st, Ok how) => (world st, Returned how)
  | (st, Raise e) =>
      match l_ticker (locals st) with
      | Some ticker =>
          (set_log (w_log (world st)
                    ++ [Print (MsgTickerError ticker e); Print MsgTraceback])
                   (world st),
           Handled e)
      | None => (world st, Escaped UnboundLocalError)
      end
  end.

(** ** Example inputs *)

Definition example_row (ticker title description : string) : news_row :=
  {| row_date := "2024-01-02 03:04:05";
     row_ticker := ticker;
     row_title := title;
     row_description := description |}.

(** Five usable articles of ticker "X". *)
Definition five_rows : list news_row :=
  [example_row "X" "t1" "d1"; example_row "X" "t2" "d2";
   example_row "X" "t3" "d3"; example_row "X" "t4" "d4";
   example_row "X" "t5" "d5"].

(** A model that always answers "Good", and one that always fails. *)
Definition chat_good : string -> string -> nat -> chat_reply :=
  fun _ _ _ => ChatContent "Good".

Definition chat_down : string -> string -> nat -> chat_reply :=
  fun _ _ _ => ChatRaise.


(** A provider reply with status 200. *)
Definition ok_reply (b : body) : http_reply :=
  HttpResponse {| status_code := 200; json := b |}.

(** An environment around a given provider: two tickers, a neutral
    analyzer and a model that answers "Good". *)
Definition example_env (tickers : list string)
    (provider : endpoint -> string -> nat -> http_reply) : Env :=
  {| tickers_csv := Ok tickers;
     polygon := provider;
     polarity_compound := fun _ => 1 # 2;
     chat := chat_good;
     now_time := "2024-01-02 03:04:05";
     utc_date := "2024-01-02" |}.

(** The first attempt of every call times out, later ones succeed. *)
Definition provider_fails_once : endpoint -> string -> nat -> http_reply :=
  fun _ _ k => if (k =? 1)%nat then HttpFail else ok_reply (JValues [75]).

(** Every call is answered 304 Not Modified. *)
Definition provider_not_modified : endpoint -> string -> nat -> http_reply :=
  fun _ _ _ => HttpResponse {| status_code := 304; json := JValues [] |}.

(** *** Vocabulary for the retry statements *)

(** What the wrapped call does at attempt [k]. *)
Definition attempt_outcome (env : Env) (e : endpoint) (ticker : string)
    (k : nat) : result response :=
  snd (requests_get_once env e ticker k []).

(** The delay the decorator sleeps before attempt [k >= 2]. *)
Definition backoff_before_attempt (k : nat) : Z :=
  Z.min (1000 * 2 ^ (Z.of_nat k - 1)) 10000.

(** The delay before attempt [k >= 2] as the specification words it. *)
Definition spec_delay_before_attempt (k : nat) : Z :=
  Z.min (1000 * 2 ^ (Z.of_nat k - 2)) 10000.

(** The requests and sleeps of attempts [first .. first + more]. *)
Definition attempts_trace (e : endpoint) (ticker : string)
    (first more : nat) : Log :=
  HttpGet e ticker
  :: flat_map (fun k => [Sleep (backoff_before_attempt k); HttpGet e ticker])
       (seq (S first) more).

(** The sleeps recorded in a log, in order. *)
Definition delays (log : Log) : list Z :=
  flat_map (fun ev => match ev with Sleep ms => [ms] | _ => [] end) log.

(** The provider calls recorded in a log. *)
Definition requests (log : Log) : list effect :=
  filter (fun ev => match ev with HttpGet _ _ => true | _ => false end) log.


(** A provider that answers every endpoint: two short articles, RSI 75,
    MACD 0.5, closes 100, 90, 95 and a recent close of 105. *)
Definition example_article (title description : string) : article :=
  {| a_timestamp := None;
     a_title := Some title;
     a_description := Some description |}.

Definition provider_up : endpoint -> string -> nat -> http_reply :=
  fun e _ _ =>
    match e with
    | NewsEndpoint =>
        ok_reply (JNews (Some "OK")
                    (Some [JObject (example_article "t1" "d1");
                           JObject (example_article "t2" "d2")]))
    | RsiEndpoint => ok_reply (JValues [75])
    | MacdEndpoint => ok_reply (JValues [1 # 2])
    | AggsEndpoint => ok_reply (JResults [100; 90; 95])
    | OpenCloseEndpoint => ok_reply (JClose (Some 105))
    end.

(** The same provider with the news endpoint unreachable. *)
Definition provider_news_down : endpoint -> string -> nat -> http_reply :=
  fun e t k =>
    match e with
    | NewsEndpoint => HttpFail
    | _ => provider_up e t k
    end.

(** The same provider with no RSI value for ticker "A". *)
Definition provider_no_rsi_for_A : endpoint -> string -> nat -> http_reply :=
  fun e t k =>
    match e with
    | RsiEndpoint =>
        if String.eqb t "A" then ok_reply (JValues []) else provider_up e t k
    | _ => provider_up e t k
    end.

(** A first run: nothing on disk, nothing printed yet. *)
Definition fresh_world : World :=
  {| w_state_pkl := None;
     w_news_articles := [];
     w_sentiment_scores := [];
     w_report_txt := None;
     w_log := [] |}.

(** A start with a [state.pkl] that [pickle.load] rejects. *)
Definition world_with_corrupt_state : World :=
  {| w_state_pkl := Some Unreadable;
     w_news_articles := [];
     w_sentiment_scores := [];
     w_report_txt := None;
     w_log := [] |}.

(** The start of [main]: the given world and no local variable bound. *)
Definition initial (w : World) : St := {| world := w; locals := no_locals |}.


(** *** Vocabulary for the frame statements *)

(** Every run of [m] relates its start state to its end state by [R]. *)
Definition preserves {S A : Type} (R : S -> S -> Prop) (m : M S A) : Prop :=
  forall s s' r, m s = (s', r) -> R s s'.

(** [report.txt] is what it was. *)
Definition same_report (s s' : St) : Prop :=
  w_report_txt (world s') = w_report_txt (world s).

(** A computation on the log only appends to it, and neither what it
    appends nor what it returns depends on what is already there. *)
Definition log_parametric {X : Type} (m : Log -> Log * X) : Prop :=
  forall log, m log = (log ++ fst (m []), snd (m [])).


(** *** Vocabulary for the statements about [main] *)

(** The score pass of the run started in world [w] gets to [ticker],
    listed after [pre] and before [post], in state [s]: the checkpoint
    and the ticker list were loaded, the fetch pass went through, and so
    did the score pass over [pre]. *)
Definition score_pass_reaches (env : Env) (w : World) (pre : list string)
    (ticker : string) (post : list string) (s : St) : Prop :=
  exists s0 s1,
    main_setup env (initial w) = (s0, Ok (pre ++ ticker :: post))
    /\ main_fetch_pass env (pre ++ ticker :: post) s0 = (s1, Ok tt)
    /\ bind (say MsgConducting)
         (fun _ => for_each (score_pass_body env) (enumerate_from 1 pre)) s1
       = (s, Ok tt).


(** The local variables after a loop has bound [ticker] to each element
    of [tickers] in turn and done nothing else. *)
Definition bind_tickers (tickers : list string) (l : Locals) : Locals :=
  fold_left (fun l t => bind_ticker t l) tickers l.

(** The console lines "Processing ticker #i: t" of a score pass. *)
Definition processing_lines (its : list (nat * string)) : Log :=
  map (fun it => Print (MsgProcessing (fst it) (snd it))) its.

(** The state in which the score pass starts, for a run that gets there. *)
Definition state_before_scoring (env : Env) (w : World)
    (tickers : list string) : St :=
  fst (say MsgConducting
         (fst (main_fetch_pass env tickers
                 (fst (main_setup env (initial w)))))).

(** Tickers "A" and "B", no RSI value for "A". *)
Definition env_no_rsi_for_A : Env :=
  example_env ["A"; "B"] provider_no_rsi_for_A.

(** Ticker "A", news endpoint unreachable. *)
Definition env_news_down : Env := example_env ["A"] provider_news_down.

(** The provider with a news reply for "B" whose second item is no
    object. *)
Definition provider_bad_item : endpoint -> string -> nat -> http_reply :=
  fun e t k =>
    match e with
    | NewsEndpoint =>
        ok_reply (JNews (Some "OK")
                    (Some [JObject (example_article "t1" "d1"); JOther;
                           JObject (example_article "t2" "d2")]))
    | _ => provider_up e t k
    end.

Definition env_bad_item : Env := example_env ["B"] provider_bad_item.

(** Tickers "B" and "C", every provider answering. *)
Definition env_up : Env := example_env ["B"; "C"] provider_up.

(** A checkpoint left by an interrupted run: "B" done, "C" not. *)
Definition world_after_B : World :=
  {| w_state_pkl := Some (Pickled ["B"] [("B", 1 # 2)]);
     w_news_articles := [];
     w_sentiment_scores := [];
     w_report_txt := None;
     w_log := [] |}.


(** Attempts 1 to 6 of every call time out, the seventh succeeds. *)
Definition provider_fails_six_times : endpoint -> string -> nat -> http_reply :=
  fun _ _ k => if (k <=? 6)%nat then HttpFail else ok_reply (JValues [75]).


(** *** Vocabulary for the report order *)

(** [a] may stand before [b] in a report sorted by score, descending. *)
Definition score_ge (a b : string * Q) : Prop := snd b <= snd a.

(** The rows whose score equals [q]. *)
Definition has_score (q : Q) (r : string * Q) : bool := Qeq_bool (snd r) q.

(** The report row of a score row. *)
Definition score_pair (r : score_row) : string * Q :=
  (s_ticker r, s_aggregated_score r).


(** *** Vocabulary for the model's answers *)

(** A string of whitespace characters only. *)
Fixpoint all_space (s : string) : bool :=
  match s with
  | EmptyString => true
  | String c rest => is_space c && all_space rest
  end.

(** The line feed, as a one-character string. *)
Definition newline : string := String "010"%char EmptyString.


(** The number of model calls recorded in a log. *)
Definition chat_calls (log : Log) : nat :=
  List.length
    (filter (fun ev => match ev with ChatCompletion _ _ => true | _ => false end)
       log).

(** The label the lexicon strategy gives to one row. *)
Definition lexicon_label (polarity : string -> Q) (r : news_row) (l : string)
  : Prop :=
  vader_label (polarity (article_text r)) = Ok l.


(** *** Vocabulary for the dictionary of list objects *)

(** Key [k] holds the list object at address [l]. *)
Definition holds (d : dict address) (l : address) (k : string) : bool :=
  match dict_get d k with
  | Ok l' => (l' =? l)%nat
  | Raise _ => false
  end.

(** Every list object the dictionary holds is in use. *)
Definition allocated {V : Type} (h : heap V) (d : dict address) : Prop :=
  forall k l, dict_get d k = Ok l -> (l < next h)%nat.

(** What the list at [l] held before the call: nothing, if the call
    made it. *)
Definition held_before {V : Type} (h : heap V) (l : address) : list V :=
  if (l <? next h)%nat then contents h l else [].

(** A dictionary in which "A" and "B" hold one and the same list. *)
Definition shared_heap : heap article_dict :=
  {| contents := fun _ => [mk_article_dict "old" "article" []];
     next := 1%nat |}.

Definition shared_dict : dict address := [("A", 0%nat); ("B", 0%nat)].

(** An article tagged "A" and "C". *)
Definition article_for_A_and_C : tagged_article :=
  {| t_title := Some "new";
     t_description := None;
     t_keywords := None;
     t_tickers := Some ["A"; "C"] |}.



(** *** Vocabulary for the invariants of a run *)

(** The tickers the checkpoint on disk marks as processed. *)
Definition checkpointed_tickers (w : World) : list string :=
  match w_state_pkl w with
  | Some (Pickled processed_tickers _) => processed_tickers
  | _ => []
  end.

(** Nothing was committed: score table, checkpoint file, processed list
    and report rows are what they were. *)
Definition quiet (s s' : St) : Prop :=
  w_sentiment_scores (world s') = w_sentiment_scores (world s)
  /\ w_state_pkl (world s') = w_state_pkl (world s)
  /\ l_processed_tickers (locals s') = l_processed_tickers (locals s)
  /\ l_report_data (locals s') = l_report_data (locals s).

(** Some tickers were committed: the score rows [added] were appended,
    their tickers were appended to the processed list and their
    (ticker, score) pairs to the report rows, and, if there is any such
    row, the checkpoint file holds the processed list and the report
    rows as they now are. *)
Definition commits (s s' : St) : Prop :=
  exists added,
    w_sentiment_scores (world s') = w_sentiment_scores (world s) ++ added
    /\ l_processed_tickers (locals s')
       = l_processed_tickers (locals s) ++ map s_ticker added
    /\ l_report_data (locals s')
       = l_report_data (locals s) ++ map score_pair added
    /\ (added = [] -> w_state_pkl (world s') = w_state_pkl (world s))
    /\ (added <> [] ->
        w_state_pkl (world s')
        = Some (Pickled (l_processed_tickers (locals s'))
                  (l_report_data (locals s')))).

(** The news table only grew. *)
Definition news_grows (s s' : St) : Prop :=
  exists added,
    w_news_articles (world s') = w_news_articles (world s) ++ added.

(** Once bound, [ticker] stays bound. *)
Definition keeps_ticker (s s' : St) : Prop :=
  l_ticker (locals s) <> None -> l_ticker (locals s') <> None.

(** Lines 427-445 of the score pass: what is done for a ticker once its
    score is known. *)
Definition commit_ticker (env : Env) (i : nat) (ticker : string)
    (vader_total gpt_total : Q)
    (historical_price_high historical_price_low : option Q)
    (aggregated_score : Q) (recent_price rsi macd : option Q) : M St unit :=
  (in_world (save_to_db env ticker vader_total gpt_total
               historical_price_high historical_price_low
               aggregated_score recent_price rsi macd) ;;
   say (MsgAggregatedScore ticker aggregated_score) ;;
   in_locals (modify (fun l =>
     set_report_data (l_report_data l ++ [(ticker, aggregated_score)]) l)) ;;
   say (MsgFinished i ticker) ;;
   in_locals (modify (fun l =>
     set_processed_tickers (l_processed_tickers l ++ [ticker]) l)) ;;
   l <- gets locals ;;
   in_world (save_state (l_processed_tickers l) (l_report_data l)))%M.


(** *** Vocabulary for the statements about calls *)

(** The ticker a provider or model call is made for. *)
Definition call_ticker (ev : effect) : option string :=
  match ev with
  | HttpGet _ ticker => Some ticker
  | ChatCompletion ticker _ => Some ticker
  | _ => None
  end.

(** Every provider or model call in [log] is made for a ticker that
    satisfies [P]. *)
Definition calls_only_for (P : string -> Prop) (log : Log) : Prop :=
  Forall (fun ev => forall t, call_ticker ev = Some t -> P t) log.

(** A computation on the log only appends to it, and what it appends
    holds calls for tickers that satisfy [P] only. *)
Definition emits_for (P : string -> Prop) {X : Type} (m : Log -> Log * X)
  : Prop :=
  forall log,
    exists tail, fst (m log) = log ++ tail /\ calls_only_for P tail.

(** The same for a step of [main]. *)
Definition calls_for (P : string -> Prop) (s s' : St) : Prop :=
  exists tail,
    w_log (world s') = w_log (world s) ++ tail /\ calls_only_for P tail.

(** The processed list lost no ticker, and the calls made are for
    tickers that satisfy [P] and were not in the processed list. *)
Definition spends_on (P : string -> Prop) (s s' : St) : Prop :=
  (forall x,
     str_in x (l_processed_tickers (locals s)) = true ->
     str_in x (l_processed_tickers (locals s')) = true)
  /\ calls_for
       (fun t => P t /\ str_in t (l_processed_tickers (locals s)) = false)
       s s'.

(** *** Vocabulary for the statements about scoring *)

(** The step marked no ticker as processed, or [ticker] alone. *)
Definition marks_at_most (ticker : string) (s s' : St) : Prop :=
  l_processed_tickers (locals s') = l_processed_tickers (locals s)
  \/ l_processed_tickers (locals s')
     = l_processed_tickers (locals s) ++ [ticker].

(** Score rows were appended and their tickers marked as processed; the
    tickers of the new rows are pairwise distinct, satisfy [P] and were
    not in the processed list. *)
Definition scores_once (P : string -> Prop) (s s' : St) : Prop :=
  exists added,
    w_sentiment_scores (world s') = w_sentiment_scores (world s) ++ added
    /\ l_processed_tickers (locals s')
       = l_processed_tickers (locals s) ++ map s_ticker added
    /\ NoDup (map s_ticker added)
    /\ Forall
         (fun t => P t /\ str_in t (l_processed_tickers (locals s)) = false)
         (map s_ticker added).

(** *** Vocabulary for the statements about the news table *)

(** News rows were appended, all for tickers that satisfy [P]. *)
Definition news_for (P : string -> Prop) (s s' : St) : Prop :=
  exists added,
    w_news_articles (world s') = w_news_articles (world s) ++ added
    /\ Forall (fun r => P (row_ticker r)) added.

(** The processed list lost no ticker, and the news rows appended are
    for tickers that satisfy [P] and were not in the processed list. *)
Definition stores_news_of (P : string -> Prop) (s s' : St) : Prop :=
  (forall x,
     str_in x (l_processed_tickers (locals s)) = true ->
     str_in x (l_processed_tickers (locals s')) = true)
  /\ news_for
       (fun t => P t /\ str_in t (l_processed_tickers (locals s)) = false)
       s s'.

(** * Properties *)

(** ** Comparisons *)

Lemma Qlt_b_true (x y : Q) : Qlt_b x y = true <-> x < y.
Proof.
  unfold Qlt_b. rewrite Qlt_alt.
  destruct (x ?= y); split; intro H; try reflexivity; discriminate.
Qed.

Lemma Qlt_b_false (x y : Q) : Qlt_b x y = false <-> y <= x.
Proof.
  unfold Qlt_b. rewrite Qle_alt.
  rewrite <- (Qcompare_antisym x y).
  destruct (x ?= y); simpl; split; intro H; try reflexivity;
    try discriminate; try (exfalso; apply H; reflexivity).
Qed.

Lemma if_elif_ok (c1 c2 : bool) (a b : Q) :
  if_elif (Ok c1) a (Ok c2) b = Ok (if c1 then a else if c2 then b else 0).
Proof. destruct c1, c2; reflexivity. Qed.

(** ** ScoreAggregator *)

(** What the function computes when nothing is absent and the divisor is
    not zero. *)
Lemma calculate_aggregated_score_present
    (vader_total gpt_total low high recent : Q) (news_volume : Z)
    (rsi macd : Q) (num_articles : Z) :
  num_articles <> 0%Z ->
  calculate_aggregated_score vader_total gpt_total
    (Some low) (Some high) (Some recent) news_volume (Some rsi) (Some macd)
    num_articles
  = Ok ((vader_total / inject_Z num_articles
         + gpt_total / inject_Z num_articles
         + (if Qlt_b recent low then -1 else if Qlt_b high recent then 1 else 0)
         + (if (10 <? news_volume)%Z then 1
            else if (news_volume <? 5)%Z then -1 else 0)
         + (if Qlt_b rsi 30 then -1 else if Qlt_b 70 rsi then 1 else 0)
         + (if Qlt_b macd 0 then -1 else if Qlt_b 0 macd then 1 else 0)) / 6).
Proof.
  intro Hn.
  unfold calculate_aggregated_score, py_div, py_gt, py_lt.
  replace (num_articles =? 0)%Z with false by (symmetry; apply Z.eqb_neq; lia).
  cbn [rbind]. rewrite !if_elif_ok. cbn [rbind].
  reflexivity.
Qed.

(** C1. With every indicator present and [numArticles > 0],
    [calculate_aggregated_score] returns the mean of the six component
    scores exactly as the specification writes them. *)
Theorem calculate_aggregated_score_formula
    (vaderSum gptSum : Q) (numArticles : Z)
    (recentPrice historicalHigh historicalLow : Q) (newsVolume : Z)
    (rsi macd : Q) :
  (0 < numArticles)%Z ->
  calculate_aggregated_score vaderSum gptSum
    (Some historicalLow) (Some historicalHigh) (Some recentPrice)
    newsVolume (Some rsi) (Some macd) numArticles
  = Ok (spec_aggregatedScore vaderSum gptSum numArticles
          recentPrice historicalHigh historicalLow newsVolume rsi macd).
Proof.
  intro Hn.
  rewrite calculate_aggregated_score_present by lia.
  reflexivity.
Qed.

(** C1 at the aggregation example of the specification: 11/12. *)
Lemma calculate_aggregated_score_example :
  (0 < 2)%Z /\
  exists score,
    calculate_aggregated_score 2 1 (Some 90) (Some 100) (Some 105)
      12 (Some 75) (Some (1 # 2)) 2 = Ok score
    /\ score == 11 # 12.
Proof.
  split; [lia |].
  eexists. split.
  - apply (calculate_aggregated_score_formula 2 1 2 105 100 90 12 75 (1 # 2)).
    lia.
  - reflexivity.
Defined.

Lemma sentiment_scores_bound (label : string) :
  In label label_set ->
  exists w, sentiment_scores label = Ok w /\ -1 <= w <= 1.
Proof.
  unfold label_set. simpl.
  intros [H | [H | [H | [H | [H | [H | [H | []]]]]]]]; subst label;
    eexists; (split; [reflexivity | split; discriminate]).
Qed.

Lemma sentiment_total_bound (labels : list string) :
  Forall (fun s => In s label_set) labels ->
  exists t,
    sentiment_total labels = Ok t
    /\ - inject_Z (Z.of_nat (List.length labels)) <= t
    /\ t <= inject_Z (Z.of_nat (List.length labels)).
Proof.
  induction 1 as [| s rest Hs _ IH].
  - exists 0. repeat split; simpl; discriminate.
  - destruct (sentiment_scores_bound s Hs) as [w [Hw [Hlo Hhi]]].
    destruct IH as [t [Ht [Htlo Hthi]]].
    exists (w + t). simpl sentiment_total. rewrite Hw, Ht. simpl rbind.
    split; [reflexivity |].
    cbn [List.length]. rewrite Nat2Z.inj_succ. unfold Z.succ.
    rewrite inject_Z_plus. change (inject_Z 1) with 1. split; lra.
Qed.

Lemma mean_in_range (t : Q) (k n : Z) :
  (0 < n)%Z -> (k <= n)%Z ->
  - inject_Z k <= t -> t <= inject_Z k ->
  -1 <= t / inject_Z n /\ t / inject_Z n <= 1.
Proof.
  intros Hn Hk Hlo Hhi.
  assert (Hn' : 0 < inject_Z n).
  { change 0 with (inject_Z 0). rewrite <- Zlt_Qlt. exact Hn. }
  assert (Hk' : inject_Z k <= inject_Z n) by (rewrite <- Zle_Qle; exact Hk).
  split.
  - apply Qle_shift_div_l; [exact Hn' | lra].
  - apply Qle_shift_div_r; [exact Hn' | lra].
Qed.

(** An [if]/[elif] score that is computed at all is -1, 0 or 1. *)
Lemma if_elif_in_range (c1 c2 : result bool) (x : Q) :
  if_elif c1 (-1) c2 1 = Ok x -> -1 <= x /\ x <= 1.
Proof.
  unfold if_elif.
  destruct c1 as [[] | e1]; cbn [rbind]; [| | discriminate].
  - intro H. inversion H; subst. split; discriminate.
  - destruct c2 as [[] | e2]; cbn [rbind]; [| | discriminate];
      intro H; inversion H; subst; split; discriminate.
Qed.

Lemma if_elif_volume_in_range (c1 c2 : result bool) (x : Q) :
  if_elif c1 1 c2 (-1) = Ok x -> -1 <= x /\ x <= 1.
Proof.
  unfold if_elif.
  destruct c1 as [[] | e1]; cbn [rbind]; [| | discriminate].
  - intro H. inversion H; subst. split; discriminate.
  - destruct c2 as [[] | e2]; cbn [rbind]; [| | discriminate];
      intro H; inversion H; subst; split; discriminate.
Qed.

(** Whatever is present or absent: a score that the aggregator returns
    for sentiment means within [-1, 1] is itself within [-1, 1]. *)
Lemma calculate_aggregated_score_in_range
    (vader_total gpt_total : Q) (low high recent : option Q)
    (news_volume : Z) (rsi macd : option Q) (num_articles : Z) (score : Q) :
  -1 <= vader_total / inject_Z num_articles <= 1 ->
  -1 <= gpt_total / inject_Z num_articles <= 1 ->
  calculate_aggregated_score vader_total gpt_total low high recent
    news_volume rsi macd num_articles = Ok score ->
  -1 <= score /\ score <= 1.
Proof.
  intros [Hv1 Hv2] [Hg1 Hg2]. unfold calculate_aggregated_score, py_div.
  destruct (num_articles =? 0)%Z; cbn [rbind]; [discriminate |].
  destruct (if_elif (py_lt recent low) (-1) (py_gt recent high) 1)
    as [p |] eqn:Ep; cbn [rbind]; [| discriminate].
  destruct (if_elif (Ok (10 <? news_volume)%Z) 1 (Ok (news_volume <? 5)%Z) (-1))
    as [v |] eqn:Ev; cbn [rbind]; [| discriminate].
  destruct (if_elif (py_lt rsi (Some 30)) (-1) (py_gt rsi (Some 70)) 1)
    as [r |] eqn:Er; cbn [rbind]; [| discriminate].
  destruct (if_elif (py_lt macd (Some 0)) (-1) (py_gt macd (Some 0)) 1)
    as [m |] eqn:Em; cbn [rbind]; [| discriminate].
  intro H. inversion H; subst score. clear H.
  apply if_elif_in_range in Ep, Er, Em. apply if_elif_volume_in_range in Ev.
  destruct Ep, Ev, Er, Em.
  set (a := vader_total / inject_Z num_articles) in *.
  set (b := gpt_total / inject_Z num_articles) in *.
  split.
  - apply Qle_shift_div_l; [reflexivity | lra].
  - apply Qle_shift_div_r; [reflexivity | lra].
Qed.

(** C9. For label sequences drawn from the seven-label set, with
    [numArticles] the positive number of lexicon labels and no more
    generative labels than lexicon labels: both sums are defined, every
    score the aggregator returns lies in [-1, 1], and it does return one
    when the five indicators are present. *)
Theorem aggregated_score_in_range
    (vader_sentiments gpt_sentiments : list string)
    (historical_price_low historical_price_high recent_price : option Q)
    (news_volume : Z) (rsi macd : option Q) :
  Forall (fun s => In s label_set) vader_sentiments ->
  Forall (fun s => In s label_set) gpt_sentiments ->
  (0 < List.length vader_sentiments)%nat ->
  (List.length gpt_sentiments <= List.length vader_sentiments)%nat ->
  exists vader_total gpt_total,
    sentiment_total vader_sentiments = Ok vader_total
    /\ sentiment_total gpt_sentiments = Ok gpt_total
    /\ (forall aggregated_score,
          calculate_aggregated_score vader_total gpt_total
            historical_price_low historical_price_high recent_price
            news_volume rsi macd (Z.of_nat (List.length vader_sentiments))
          = Ok aggregated_score ->
          -1 <= aggregated_score /\ aggregated_score <= 1)
    /\ (forall low high recent r m,
          historical_price_low = Some low ->
          historical_price_high = Some high ->
          recent_price = Some recent -> rsi = Some r -> macd = Some m ->
          exists aggregated_score,
            calculate_aggregated_score vader_total gpt_total
              historical_price_low historical_price_high recent_price
              news_volume rsi macd (Z.of_nat (List.length vader_sentiments))
            = Ok aggregated_score).
Proof.
  intros Hv Hg Hpos Hlen.
  destruct (sentiment_total_bound _ Hv) as [vt [Hvt [Hvlo Hvhi]]].
  destruct (sentiment_total_bound _ Hg) as [gt [Hgt [Hglo Hghi]]].
  exists vt, gt.
  split; [exact Hvt |]. split; [exact Hgt |].
  set (n := Z.of_nat (List.length vader_sentiments)) in *.
  split.
  - intros score Hs.
    eapply calculate_aggregated_score_in_range; [| | exact Hs].
    + apply (mean_in_range vt n n); try lia; assumption.
    + apply (mean_in_range gt (Z.of_nat (List.length gpt_sentiments)) n);
        try lia; assumption.
  - intros low high recent r m -> -> -> -> ->.
    eexists. apply calculate_aggregated_score_present. lia.
Qed.

(** C9 at two lexicon labels, one generative label and the indicators
    of the aggregation example. *)
Lemma aggregated_score_in_range_example :
  exists vader_total gpt_total,
    sentiment_total ["Very good"; "Bad"] = Ok vader_total
    /\ sentiment_total ["Error"] = Ok gpt_total
    /\ (forall aggregated_score,
          calculate_aggregated_score vader_total gpt_total
            (Some 90) (Some 100) (Some 105) 12 (Some 75) (Some (1 # 2))
            (Z.of_nat (List.length ["Very good"; "Bad"]))
          = Ok aggregated_score ->
          -1 <= aggregated_score /\ aggregated_score <= 1)
    /\ (forall low high recent r m,
          Some 90 = Some low -> Some 100 = Some high ->
          Some 105 = Some recent -> Some 75 = Some r ->
          Some (1 # 2) = Some m ->
          exists aggregated_score,
            calculate_aggregated_score vader_total gpt_total
              (Some 90) (Some 100) (Some 105) 12 (Some 75) (Some (1 # 2))
              (Z.of_nat (List.length ["Very good"; "Bad"]))
            = Ok aggregated_score).
Proof.
  apply (aggregated_score_in_range ["Very good"; "Bad"] ["Error"]
           (Some 90) (Some 100) (Some 105) 12 (Some 75) (Some (1 # 2))).
  - repeat constructor; simpl; tauto.
  - repeat constructor; simpl; tauto.
  - simpl; lia.
  - simpl; lia.
Defined.

(** ** Lexicon strategy *)

Lemma Qle_bool_false (x y : Q) : Qle_bool x y = false <-> y < x.
Proof.
  split; intro H.
  - apply Qnot_le_lt. intro Hle. apply Qle_bool_iff in Hle. congruence.
  - destruct (Qle_bool x y) eqn:E; [| reflexivity].
    apply Qle_bool_iff in E. exfalso. exact (Qlt_not_le _ _ H E).
Qed.

(** Decide the next boolean test of [get_loc] from the order facts at
    hand, dropping the branch they exclude. *)
Ltac bin_step :=
  match goal with
  | |- context [Qle_bool ?a ?b] =>
      let E := fresh "E" in
      destruct (Qle_bool a b) eqn:E;
      [apply Qle_bool_iff in E | apply Qle_bool_false in E]
  | |- context [Qlt_b ?a ?b] =>
      let E := fresh "E" in
      destruct (Qlt_b a b) eqn:E;
      [apply Qlt_b_true in E | apply Qlt_b_false in E]
  end;
  try (exfalso; lra);
  cbn [andb rbind nth_error vader_labels].

Ltac bin_cases := repeat first [reflexivity | bin_step].

(** The five bins and what lies outside them. *)
Lemma vader_label_bins (compound : Q) :
  (-1 <= compound < - (8 # 10) -> vader_label compound = Ok "Very bad")
  /\ (- (8 # 10) <= compound < - (35 # 100) -> vader_label compound = Ok "Bad")
  /\ (- (35 # 100) <= compound < 35 # 100 ->
      vader_label compound = Ok "Neutral")
  /\ (35 # 100 <= compound < 8 # 10 -> vader_label compound = Ok "Good")
  /\ (8 # 10 <= compound < 1 -> vader_label compound = Ok "Very good")
  /\ (compound < -1 \/ 1 <= compound -> vader_label compound = Raise KeyError).
Proof.
  unfold vader_label, vader_breaks, get_loc.
  repeat split; intros H;
    [destruct H as [H1 H2] .. | destruct H as [H | H]]; bin_cases.
Qed.

(** Every compound score of the half-open range [-1, 1) gets one of the
    five labels. *)
Lemma vader_label_total (compound : Q) :
  -1 <= compound < 1 ->
  exists l, vader_label compound = Ok l /\ In l vader_labels.
Proof.
  intros [Hlo Hhi].
  destruct (vader_label_bins compound) as (B1 & B2 & B3 & B4 & B5 & _).
  destruct (Qlt_le_dec compound (- (8 # 10))) as [C1 | C1];
    [exists "Very bad"; split; [apply B1; split; assumption | simpl; tauto] |].
  destruct (Qlt_le_dec compound (- (35 # 100))) as [C2 | C2];
    [exists "Bad"; split; [apply B2; split; assumption | simpl; tauto] |].
  destruct (Qlt_le_dec compound (35 # 100)) as [C3 | C3];
    [exists "Neutral"; split; [apply B3; split; assumption | simpl; tauto] |].
  destruct (Qlt_le_dec compound (8 # 10)) as [C4 | C4];
    [exists "Good"; split; [apply B4; split; assumption | simpl; tauto] |].
  exists "Very good". split; [apply B5; split; assumption | simpl; tauto].
Qed.

(** C2. The four inner bin edges fall in the bin to their right, and a
    compound score of exactly 1.0 is in no bin: the lookup raises
    [KeyError] instead of answering "Very good". *)
Theorem vader_label_edges :
  vader_label (- (8 # 10)) = Ok "Bad"
  /\ vader_label (- (35 # 100)) = Ok "Neutral"
  /\ vader_label (35 # 100) = Ok "Good"
  /\ vader_label (8 # 10) = Ok "Very good"
  /\ vader_label (-1) = Ok "Very bad"
  /\ vader_label 1 = Raise KeyError.
Proof. repeat split; reflexivity. Qed.

Lemma vader_label_ok_or_key_error (compound : Q) :
  (exists l, vader_label compound = Ok l)
  \/ vader_label compound = Raise KeyError.
Proof.
  destruct (Qlt_le_dec compound (-1)) as [C | C].
  - right. apply vader_label_bins. left. exact C.
  - destruct (Qlt_le_dec compound 1) as [D | D].
    + left. destruct (vader_label_total compound) as [l [Hl _]];
        [split; assumption | exists l; exact Hl].
    + right. apply vader_label_bins. right. exact D.
Qed.

Lemma vader_loop_raises (polarity : string -> Q) (rows : list news_row) :
  forall acc r,
    In r rows -> usable r = true -> polarity (article_text r) == 1 ->
    vader_loop polarity rows acc = Raise KeyError.
Proof.
  induction rows as [| r0 rest IH]; intros acc r Hin Hu Hc; [destruct Hin |].
  simpl. destruct (usable r0) eqn:U0.
  - destruct (vader_label_ok_or_key_error (polarity (article_text r0)))
      as [[l Hl] | Hk].
    + rewrite Hl. simpl. destruct Hin as [-> | Hin].
      * exfalso.
        assert (Hr : vader_label (polarity (article_text r)) = Raise KeyError)
          by (apply vader_label_bins; right; rewrite Hc; discriminate).
        congruence.
      * eapply IH; eassumption.
    + rewrite Hk. reflexivity.
  - destruct Hin as [-> | Hin]; [congruence |].
    eapply IH; eassumption.
Qed.

(** One article of a ticker with compound score 1.0 makes the whole
    lexicon analysis of that ticker raise. *)
Lemma vader_sentiment_analysis_raises_at_one
    (polarity : string -> Q) (db : list news_row) (ticker : string)
    (r : news_row) :
  In r (get_news_from_db db ticker) -> usable r = true ->
  polarity (article_text r) == 1 ->
  vader_sentiment_analysis polarity db ticker = Raise KeyError.
Proof. intros. eapply vader_loop_raises; eassumption. Qed.

Lemma vader_loop_length (polarity : string -> Q) (rows : list news_row) :
  forall acc labels,
    vader_loop polarity rows acc = Ok labels ->
    List.length labels = (List.length acc + List.length (filter usable rows))%nat.
Proof.
  induction rows as [| r rest IH]; intros acc labels H; simpl in *.
  - inversion H; subst. lia.
  - destruct (usable r); simpl.
    + destruct (vader_label (polarity (article_text r))) as [l |]; simpl in H;
        [| discriminate].
      apply IH in H. rewrite H, length_app. simpl. lia.
    + apply IH in H. exact H.
Qed.

(** When the lexicon analysis returns, it has one label per usable row. *)
Lemma vader_sentiment_analysis_length
    (polarity : string -> Q) (db : list news_row) (ticker : string)
    (labels : list string) :
  vader_sentiment_analysis polarity db ticker = Ok labels ->
  List.length labels
  = List.length (filter usable (get_news_from_db db ticker)).
Proof. intro H. apply vader_loop_length in H. exact H. Qed.

(** ** Generative strategy *)

(** The recorded label is one of the five canonical labels or UNKNOWN. *)
Lemma gpt_label_cases (content : string) :
  (In (gpt_label content) canonical_labels
   /\ gpt_label content = strip (first_line (strip content)))
  \/ (gpt_label content = "UNKNOWN"
      /\ str_in (strip (first_line (strip content))) canonical_labels = false).
Proof.
  unfold gpt_label.
  destruct (str_in (strip (first_line (strip content))) canonical_labels) eqn:E.
  - left. split; [| reflexivity].
    unfold str_in in E. apply existsb_exists in E.
    destruct E as [l [Hin Heq]]. apply String.eqb_eq in Heq.
    rewrite Heq. exact Hin.
  - right. split; reflexivity.
Qed.

(** One article: the loop always returns; it appends exactly one label
    when some budget is left and none when the budget is used up, and it
    never gives budget back. *)
Lemma gpt_attempts_returns (chat : string -> string -> nat -> chat_reply)
    (ticker text : string) (retry_delay : Z) (max_retries : nat) :
  forall calls scores log,
  exists max_retries' calls' scores' log',
    gpt_attempts chat ticker text retry_delay max_retries calls scores log
    = (log', Ok (max_retries', calls', scores'))
    /\ (max_retries' <= max_retries)%nat
    /\ (0 < max_retries -> max_retries' < max_retries)%nat
    /\ List.length scores'
       = (List.length scores + (if (max_retries =? 0)%nat then 0 else 1))%nat.
Proof.
  induction max_retries as [| m IH]; intros calls scores log.
  - exists 0%nat, calls, scores, log. simpl. repeat split; lia.
  - cbn [gpt_attempts]. unfold bind at 1. unfold emit at 1.
    destruct (chat ticker text calls) as [| content].
    + unfold bind at 1. unfold emit at 1.
      destruct m as [| m'].
      * cbn [Nat.ltb Nat.leb gpt_attempts ret].
        do 4 eexists. split; [reflexivity |].
        rewrite length_app. simpl. repeat split; lia.
      * change (0 <? S m')%nat with true. cbv iota.
        unfold bind at 1. unfold emit at 1.
        destruct (IH (S calls) scores
                    (((log ++ [ChatCompletion ticker text])
                      ++ [Print MsgGptError]) ++ [Sleep retry_delay]))
          as (m2 & c2 & s2 & l2 & Heq & Hle & Hlt & Hlen).
        exists m2, c2, s2, l2. rewrite Heq.
        split; [reflexivity |]. simpl in Hlen.
        repeat split; try lia. simpl. lia.
    + unfold ret. do 4 eexists. split; [reflexivity |].
      rewrite length_app. simpl. repeat split; lia.
Qed.

Lemma gpt_loop_returns (chat : string -> string -> nat -> chat_reply)
    (ticker : string) (retry_delay : Z) (rows : list news_row) :
  forall max_retries calls scores log,
  exists labels log',
    gpt_loop chat ticker retry_delay rows max_retries calls scores log
    = (log', Ok labels)
    /\ (List.length labels <= List.length scores + max_retries)%nat
    /\ (List.length labels
        <= List.length scores + List.length (filter usable rows))%nat.
Proof.
  induction rows as [| r rest IH]; intros m c s log.
  - exists s, log. simpl. unfold ret. repeat split; lia.
  - cbn [gpt_loop filter]. destruct (usable r).
    + unfold bind.
      destruct (gpt_attempts_returns chat ticker (article_text r) retry_delay
                  m c s log) as (m1 & c1 & s1 & l1 & Heq & Hle & Hlt & Hlen).
      rewrite Heq.
      destruct (IH m1 c1 s1 l1) as (labels & l2 & Heq2 & Hb1 & Hb2).
      exists labels, l2. split; [exact Heq2 |].
      destruct m as [| m0]; simpl in *; split; lia.
    + apply IH.
Qed.

(** The generative analysis always returns, with at most [max_retries]
    labels for the whole ticker and at most one label per usable row. *)
Lemma gpt_sentiment_analysis_returns
    (chat : string -> string -> nat -> chat_reply) (db : list news_row)
    (ticker : string) (max_retries : nat) (retry_delay : Z) (log : Log) :
  exists labels log',
    gpt_sentiment_analysis chat db ticker max_retries retry_delay log
    = (log', Ok labels)
    /\ (List.length labels <= max_retries)%nat
    /\ (List.length labels
        <= List.length (filter usable (get_news_from_db db ticker)))%nat.
Proof.
  unfold gpt_sentiment_analysis.
  destruct (gpt_loop_returns chat ticker retry_delay
              (get_news_from_db db ticker) max_retries 0 [] log)
    as (labels & l' & Heq & H1 & H2).
  exists labels, l'. simpl in *. repeat split; assumption.
Qed.

(** C4. Five usable articles and a model that answers "Good" at once:
    the budget of four calls is spent on the first four articles and the
    fifth gets no call and no label. With a model that always fails, the
    first of two articles takes the four calls and "Error"; the second
    gets nothing. *)
Theorem gpt_sentiment_analysis_shares_its_budget :
  List.length (filter usable (get_news_from_db five_rows "X")) = 5%nat
  /\ gpt_sentiment_analysis chat_good five_rows "X"
       default_max_retries default_retry_delay []
     = ([ChatCompletion "X" "t1 d1"; ChatCompletion "X" "t2 d2";
         ChatCompletion "X" "t3 d3"; ChatCompletion "X" "t4 d4"],
        Ok ["Good"; "Good"; "Good"; "Good"])
  /\ gpt_sentiment_analysis chat_down (firstn 2 five_rows) "X"
       default_max_retries default_retry_delay []
     = ([ChatCompletion "X" "t1 d1"; Print MsgGptError; Sleep 2000;
         ChatCompletion "X" "t1 d1"; Print MsgGptError; Sleep 2000;
         ChatCompletion "X" "t1 d1"; Print MsgGptError; Sleep 2000;
         ChatCompletion "X" "t1 d1"; Print MsgGptError],
        Ok ["Error"]).
Proof. repeat split; reflexivity. Qed.

(** ** RetryExecutor *)

Lemma requests_get_once_log (env : Env) (e : endpoint) (ticker : string)
    (k : nat) (log : Log) :
  requests_get_once env e ticker k log
  = (log ++ [HttpGet e ticker], attempt_outcome env e ticker k).
Proof.
  unfold attempt_outcome, requests_get_once, bind, emit, raise, of_result, ret.
  destruct (polygon env e ticker k) as [| r]; [reflexivity |].
  destruct (raise_for_status r) as [[] |]; reflexivity.
Qed.

(** The wrapped call fails exactly on a transport failure or on a status
    from 400 to 599. *)
Lemma attempt_outcome_cases (env : Env) (e : endpoint) (ticker : string)
    (k : nat) :
  attempt_outcome env e ticker k
  = match polygon env e ticker k with
    | HttpFail => Raise RequestException
    | HttpResponse r =>
        if ((400 <=? status_code r) && (status_code r <? 600))%Z
        then Raise HTTPError else Ok r
    end.
Proof.
  unfold attempt_outcome, requests_get_once, bind, emit, raise, of_result, ret,
    raise_for_status.
  destruct (polygon env e ticker k) as [| r]; [reflexivity |].
  destruct ((400 <=? status_code r) && (status_code r <? 600))%Z; reflexivity.
Qed.

Lemma exponential_sleep_policy (k : nat) :
  exponential_sleep retry_policy k = backoff_before_attempt (S k).
Proof.
  unfold exponential_sleep, backoff_before_attempt, retry_policy.
  cbn [wait_exponential_multiplier wait_exponential_max].
  replace (Z.of_nat (S k) - 1)%Z with (Z.of_nat k) by lia.
  assert (Hpos : (0 < 1000 * 2 ^ Z.of_nat k)%Z)
    by (apply Z.mul_pos_pos; [lia | apply Z.pow_pos_nonneg; lia]).
  destruct (10000 <? 1000 * 2 ^ Z.of_nat k)%Z eqn:E.
  - apply Z.ltb_lt in E. rewrite Z.min_r by lia. reflexivity.
  - apply Z.ltb_ge in E. rewrite Z.min_l by lia.
    destruct (1000 * 2 ^ Z.of_nat k <? 0)%Z eqn:F; [| reflexivity].
    apply Z.ltb_lt in F. lia.
Qed.

Lemma attempts_trace_step (e : endpoint) (ticker : string) (a more : nat) :
  attempts_trace e ticker a (S more)
  = [HttpGet e ticker; Sleep (backoff_before_attempt (S a))]
    ++ attempts_trace e ticker (S a) more.
Proof. reflexivity. Qed.

(** The retry loop started at attempt [a] with enough fuel to reach
    attempt 7. *)
Lemma retrying_call_returns (env : Env) (e : endpoint) (ticker : string)
    (fuel : nat) :
  forall a log,
    (1 <= a)%nat -> (a + fuel = 8)%nat -> (1 <= fuel)%nat ->
    exists n,
      (a <= n <= 7)%nat
      /\ retrying_call retry_policy (requests_get_once env e ticker) fuel a log
         = (log ++ attempts_trace e ticker a (n - a),
            Some (attempt_outcome env e ticker n))
      /\ (forall k, (a <= k < n)%nat ->
            exists ex, attempt_outcome env e ticker k = Raise ex)
      /\ ((n < 7)%nat -> exists r, attempt_outcome env e ticker n = Ok r).
Proof.
  induction fuel as [| fuel IH]; intros a log Ha Hsum Hfuel; [lia |].
  cbn [retrying_call]. rewrite requests_get_once_log.
  destruct (attempt_outcome env e ticker a) as [r | ex] eqn:Hout.
  - exists a. split; [lia |]. rewrite Nat.sub_diag, Hout.
    split; [reflexivity |]. split; [intros k Hk; lia |].
    intros _. exists r. reflexivity.
  - unfold stop_after_attempt, retry_policy at 1.
    cbn [stop_max_attempt_number].
    destruct (7 <=? a)%nat eqn:Hstop.
    + apply Nat.leb_le in Hstop. assert (a = 7)%nat by lia. subst a.
      exists 7%nat. split; [lia |]. rewrite Hout.
      split; [reflexivity |]. split; [| intro; lia].
      intros k Hk. lia.
    + apply Nat.leb_gt in Hstop.
      destruct (IH (S a)
                  ((log ++ [HttpGet e ticker])
                   ++ [Sleep (exponential_sleep retry_policy a)]))
        as (n & Hn & Heq & Hfail & Hok); try lia.
      exists n. split; [lia |]. rewrite Heq.
      split.
      * f_equal. replace (n - a)%nat with (S (n - S a)) by lia.
        rewrite attempts_trace_step, exponential_sleep_policy.
        rewrite <- !app_assoc. reflexivity.
      * split; [| exact Hok].
        intros k Hk. destruct (Nat.eq_dec k a) as [-> | Hne].
        -- exists ex. exact Hout.
        -- apply Hfail. lia.
Qed.

(** A call through the retry executor ends after [n] attempts,
    [1 <= n <= 7]: attempts [1 .. n-1] raised, and the result is that of
    attempt [n]. *)
Lemma requests_get_with_retry_attempts (env : Env) (e : endpoint)
    (ticker : string) (log : Log) :
  exists n,
    (1 <= n <= 7)%nat
    /\ requests_get_with_retry env e ticker log
       = (log ++ attempts_trace e ticker 1 (n - 1),
          attempt_outcome env e ticker n)
    /\ (forall k, (1 <= k < n)%nat ->
          exists ex, attempt_outcome env e ticker k = Raise ex)
    /\ ((n < 7)%nat -> exists r, attempt_outcome env e ticker n = Ok r).
Proof.
  destruct (retrying_call_returns env e ticker 7 1 log)
    as (n & Hn & Heq & Hfail & Hok); try lia.
  exists n. unfold requests_get_with_retry. rewrite Heq.
  repeat split; try lia; assumption.
Qed.

(** The delays before attempts 2 to 7. *)
Lemma backoff_schedule :
  map backoff_before_attempt (seq 2 6)
  = [2000; 4000; 8000; 10000; 10000; 10000]%Z.
Proof. reflexivity. Qed.

(** Failing on attempts 1-6 and succeeding on attempt 7: the success is
    returned after exactly seven requests. *)
Lemma retry_succeeds_on_seventh (env : Env) (e : endpoint) (ticker : string)
    (log : Log) (r : response) :
  (forall k, (1 <= k <= 6)%nat ->
     exists ex, attempt_outcome env e ticker k = Raise ex) ->
  attempt_outcome env e ticker 7 = Ok r ->
  requests_get_with_retry env e ticker log
  = (log ++ attempts_trace e ticker 1 6, Ok r).
Proof.
  intros Hfail Hok.
  destruct (requests_get_with_retry_attempts env e ticker log)
    as (n & Hn & Heq & _ & Hlast).
  assert (n = 7)%nat as ->.
  { destruct (Nat.eq_dec n 7) as [H | H]; [exact H |].
    destruct Hlast as [r' Hr']; [lia |].
    destruct (Hfail n) as [ex Hex]; [lia |]. congruence. }
  rewrite Heq, Hok. reflexivity.
Qed.

(** Failing on all seven attempts: the exception of the seventh attempt
    reaches the caller; there is no eighth request. *)
Lemma retry_exhausted_raises (env : Env) (e : endpoint) (ticker : string)
    (log : Log) :
  (forall k, (1 <= k <= 7)%nat ->
     exists ex, attempt_outcome env e ticker k = Raise ex) ->
  exists ex,
    attempt_outcome env e ticker 7 = Raise ex
    /\ requests_get_with_retry env e ticker log
       = (log ++ attempts_trace e ticker 1 6, Raise ex).
Proof.
  intros Hfail.
  destruct (requests_get_with_retry_attempts env e ticker log)
    as (n & Hn & Heq & _ & Hlast).
  assert (n = 7)%nat as ->.
  { destruct (Nat.eq_dec n 7) as [H | H]; [exact H |].
    destruct Hlast as [r' Hr']; [lia |].
    destruct (Hfail n) as [ex Hex]; [lia |]. congruence. }
  destruct (Hfail 7%nat) as [ex Hex]; [lia |].
  exists ex. split; [exact Hex |]. rewrite Heq, Hex. reflexivity.
Qed.

(** C3 (as the code has it). A call through the retry executor makes
    [n] attempts, [1 <= n <= 7]; it goes on to the next attempt exactly
    when the wrapped call raised; before attempt [k] it sleeps
    [min(1000 * 2^(k-1), 10000)] ms. The wrapped call raises on a
    transport failure and on a status from 400 to 599, and on nothing
    else. A call that fails on attempts 1-6
    and succeeds on attempt 7 returns that success after seven requests;
    a call that fails seven times raises the exception of the seventh
    attempt. *)
Theorem requests_get_with_retry_behaviour (env : Env) (e : endpoint)
    (ticker : string) (log : Log) :
  (forall k,
     attempt_outcome env e ticker k
     = match polygon env e ticker k with
       | HttpFail => Raise RequestException
       | HttpResponse r =>
           if ((400 <=? status_code r) && (status_code r <? 600))%Z
           then Raise HTTPError else Ok r
       end)
  /\ (exists n,
     (1 <= n <= 7)%nat
     /\ requests_get_with_retry env e ticker log
        = (log ++ attempts_trace e ticker 1 (n - 1),
           attempt_outcome env e ticker n)
     /\ (forall k, (1 <= k < n)%nat ->
           exists ex, attempt_outcome env e ticker k = Raise ex)
     /\ ((n < 7)%nat -> exists r, attempt_outcome env e ticker n = Ok r))
  /\ delays (attempts_trace e ticker 1 6)
     = [2000; 4000; 8000; 10000; 10000; 10000]%Z
  /\ List.length (requests (attempts_trace e ticker 1 6)) = 7%nat
  /\ (forall r,
        (forall k, (1 <= k <= 6)%nat ->
           exists ex, attempt_outcome env e ticker k = Raise ex) ->
        attempt_outcome env e ticker 7 = Ok r ->
        requests_get_with_retry env e ticker log
        = (log ++ attempts_trace e ticker 1 6, Ok r))
  /\ ((forall k, (1 <= k <= 7)%nat ->
         exists ex, attempt_outcome env e ticker k = Raise ex) ->
      exists ex,
        attempt_outcome env e ticker 7 = Raise ex
        /\ requests_get_with_retry env e ticker log
           = (log ++ attempts_trace e ticker 1 6, Raise ex)).
Proof.
  split; [intro k; apply attempt_outcome_cases |].
  split; [apply requests_get_with_retry_attempts |].
  split; [reflexivity |]. split; [reflexivity |].
  split.
  - intros r Hfail Hok. apply retry_succeeds_on_seventh; assumption.
  - apply retry_exhausted_raises.
Qed.

(** C3 at a provider that times out six times and then answers: the
    seventh reply is returned, after the delays 2, 4, 8, 10, 10, 10 s. *)
Lemma requests_get_with_retry_example :
  requests_get_with_retry (example_env ["A"] provider_fails_six_times)
    RsiEndpoint "A" []
  = ([HttpGet RsiEndpoint "A"; Sleep 2000; HttpGet RsiEndpoint "A";
      Sleep 4000; HttpGet RsiEndpoint "A"; Sleep 8000;
      HttpGet RsiEndpoint "A"; Sleep 10000; HttpGet RsiEndpoint "A";
      Sleep 10000; HttpGet RsiEndpoint "A"; Sleep 10000;
      HttpGet RsiEndpoint "A"],
     Ok {| status_code := 200; json := JValues [75] |}).
Proof.
  apply (proj1 (proj2 (proj2 (proj2 (proj2
           (requests_get_with_retry_behaviour
              (example_env ["A"] provider_fails_six_times)
              RsiEndpoint "A" [])))))).
  - intros k Hk. exists RequestException.
    do 7 (destruct k as [| k]; [first [lia | reflexivity] |]). lia.
  - reflexivity.
Defined.

(** C3, as stated, fails twice. After one failed attempt the executor
    sleeps 2000 ms, not the 1000 ms of [min(1000 * 2^(k-2), 10000)] at
    [k = 2]; and a non-2xx status below 400 (here 304) is not a failure
    of the call: it is returned after one request, without a retry. *)
Lemma retry_delay_counterexample :
  delays (fst (requests_get_with_retry
                 (example_env ["A"] provider_fails_once) RsiEndpoint "A" []))
  = [2000%Z]
  /\ [2000%Z] <> [spec_delay_before_attempt 2]
  /\ requests_get_with_retry
       (example_env ["A"] provider_not_modified) RsiEndpoint "A" []
     = ([HttpGet RsiEndpoint "A"],
        Ok {| status_code := 304; json := JValues [] |}).
Proof. repeat split; try reflexivity. discriminate. Qed.

(** ** CheckpointStore *)

(** C8 (as the code has it). What loading the checkpoint does in each
    state of [state.pkl]: no file gives the empty pair; an unreadable
    file makes [load_state] and the inline loader of [main] raise, and
    [main] ends there with the world untouched. *)
Theorem checkpoint_load_cases (env : Env) (w : World) :
  match w_state_pkl w with
  | None =>
      load_state w = (w, Ok ([], []))
      /\ main_load_state w = (w, Ok ([], []))
  | Some Unreadable =>
      load_state w = (w, Raise UnpicklingError)
      /\ main_load_state w = (w, Raise UnpicklingError)
      /\ main env w = (w, Escaped UnboundLocalError)
  | Some (Pickled processed_tickers report_data) =>
      load_state w = (w, Ok (processed_tickers, report_data))
      /\ main_load_state w = (w, Ok (processed_tickers, report_data))
  end.
Proof.
  destruct (w_state_pkl w) as [[| p r] |] eqn:E.
  - unfold load_state, main_load_state, read_state_pkl. rewrite E.
    repeat split.
    unfold main, main_try, main_setup, bind, in_world, zoom, main_load_state,
      read_state_pkl.
    cbn [world locals]. rewrite E. reflexivity.
  - unfold load_state, main_load_state, read_state_pkl. rewrite E.
    split; reflexivity.
  - unfold load_state, main_load_state, read_state_pkl. rewrite E.
    split; reflexivity.
Qed.

(** C8, as stated, fails on an unreadable checkpoint: loading raises
    instead of returning the empty pair, and [main] stops before it reads
    the ticker list -- nothing is printed, fetched or written. *)
Lemma corrupt_checkpoint_counterexample :
  load_state world_with_corrupt_state
  = (world_with_corrupt_state, Raise UnpicklingError)
  /\ main_load_state world_with_corrupt_state
     <> (world_with_corrupt_state, Ok ([], []))
  /\ main (example_env ["A"] provider_up) world_with_corrupt_state
     = (world_with_corrupt_state, Escaped UnboundLocalError).
Proof. repeat split; try reflexivity. discriminate. Qed.

(** ** PipelineOrchestrator *)

(** C10. With a loadable (or no) checkpoint and an empty ticker list,
    [main] prints its three start-up lines and returns: no provider or
    model call, no sleep, and every store, the checkpoint and the report
    file are what they were. *)
Theorem main_empty_ticker_list (env : Env) (w : World) :
  tickers_csv env = Ok [] ->
  w_state_pkl w <> Some Unreadable ->
  main env w
  = (set_log (w_log w ++ [Print MsgStarting; Print (MsgLoadedTickers 0);
                          Print MsgNoTickers]) w,
     Returned NoTickers).
Proof.
  intros Ht Hs.
  unfold main, main_try, main_setup, bind, in_world, in_locals, say, in_log,
    in_world, zoom, main_load_state, read_state_pkl, of_result, modify, emit,
    ret.
  cbn [world locals]. rewrite Ht.
  destruct w as [pkl news scores report log]. cbn in *.
  destruct pkl as [[| p r] |]; [congruence | |]; cbn;
    unfold set_log; cbn; rewrite <- !app_assoc; reflexivity.
Qed.

(** C10 at a first run with an empty ticker file. *)
Lemma main_empty_ticker_list_example :
  main (example_env [] provider_up) fresh_world
  = (set_log [Print MsgStarting; Print (MsgLoadedTickers 0); Print MsgNoTickers]
       fresh_world,
     Returned NoTickers).
Proof.
  apply (main_empty_ticker_list (example_env [] provider_up) fresh_world).
  - reflexivity.
  - discriminate.
Defined.

(** *** Frame rules *)

Section Preserves.

Context {S : Type} (R : S -> S -> Prop).
Hypothesis R_refl : forall s, R s s.
Hypothesis R_trans : forall a b c, R a b -> R b c -> R a c.

Lemma preserves_ret {A : Type} (a : A) : preserves R (ret a).
Proof. intros s s' r H. inversion H; subst. apply R_refl. Qed.

Lemma preserves_of_result {A : Type} (x : result A) :
  preserves R (of_result x).
Proof. intros s s' r H. inversion H; subst. apply R_refl. Qed.

Lemma preserves_gets {A : Type} (f : S -> A) : preserves R (gets f).
Proof. intros s s' r H. inversion H; subst. apply R_refl. Qed.

Lemma preserves_bind {A B : Type} (m : M S A) (k : A -> M S B) :
  preserves R m -> (forall a, preserves R (k a)) -> preserves R (bind m k).
Proof.
  intros Hm Hk s s' r H. unfold bind in H.
  destruct (m s) as [s1 [a | e]] eqn:E.
  - eapply R_trans; [eapply Hm; exact E | eapply Hk; exact H].
  - inversion H; subst. eapply Hm; exact E.
Qed.

Lemma preserves_for_each {A : Type} (body : A -> M S unit) (xs : list A) :
  (forall x, preserves R (body x)) -> preserves R (for_each body xs).
Proof.
  intros Hb. induction xs as [| x rest IH]; cbn [for_each].
  - apply preserves_ret.
  - apply preserves_bind; [apply Hb | intros _; exact IH].
Qed.

End Preserves.

Lemma in_locals_world {A : Type} (m : M Locals A) (s s' : St) (r : result A) :
  in_locals m s = (s', r) -> world s' = world s.
Proof.
  unfold in_locals, zoom. destruct (m (locals s)) as [l' r'].
  intro H. inversion H; subst. reflexivity.
Qed.

Lemma in_log_frame {A : Type} (m : M Log A) (s s' : St) (r : result A) :
  in_log m s = (s', r) ->
  locals s' = locals s /\ world s' = set_log (w_log (world s')) (world s).
Proof.
  unfold in_log, in_world, zoom. destruct (m (w_log (world s))) as [l' r'].
  intro H. inversion H; subst. split; reflexivity.
Qed.

Lemma in_news_frame {A : Type} (m : M (list news_row * Log) A)
    (s s' : St) (r : result A) :
  in_news m s = (s', r) ->
  locals s' = locals s
  /\ w_state_pkl (world s') = w_state_pkl (world s)
  /\ w_sentiment_scores (world s') = w_sentiment_scores (world s)
  /\ w_report_txt (world s') = w_report_txt (world s).
Proof.
  unfold in_news, in_world, zoom.
  destruct (m (w_news_articles (world s), w_log (world s))) as [nl r'].
  intro H. inversion H; subst. repeat split; reflexivity.
Qed.

Lemma same_report_refl (s : St) : same_report s s.
Proof. reflexivity. Qed.

Lemma same_report_trans (a b c : St) :
  same_report a b -> same_report b c -> same_report a c.
Proof. unfold same_report. congruence. Qed.

Lemma in_locals_same_report {A : Type} (m : M Locals A) :
  preserves same_report (in_locals m).
Proof.
  intros s s' r H. unfold same_report.
  rewrite (in_locals_world m s s' r H). reflexivity.
Qed.

Lemma in_log_same_report {A : Type} (m : M Log A) :
  preserves same_report (in_log m).
Proof.
  intros s s' r H. unfold same_report.
  destruct (in_log_frame m s s' r H) as [_ ->]. reflexivity.
Qed.

Lemma in_news_same_report {A : Type} (m : M (list news_row * Log) A) :
  preserves same_report (in_news m).
Proof.
  intros s s' r H. unfold same_report.
  apply (in_news_frame m s s' r H).
Qed.

Lemma in_world_same_report {A : Type} (m : M World A) :
  (forall w w' r, m w = (w', r) -> w_report_txt w' = w_report_txt w) ->
  preserves same_report (in_world m).
Proof.
  intros Hm s s' r H. unfold same_report, in_world, zoom in *.
  destruct (m (world s)) as [w' r'] eqn:E.
  inversion H; subst. cbn. eapply Hm; exact E.
Qed.

Lemma gets_locals_same_report {A : Type} (f : St -> A) :
  preserves same_report (gets f).
Proof.
  apply preserves_gets. exact same_report_refl.
Qed.

Lemma main_load_state_world (w w' : World)
    (r : result (list string * list (string * Q))) :
  main_load_state w = (w', r) -> w' = w.
Proof.
  unfold main_load_state, read_state_pkl.
  destruct (w_state_pkl w) as [[| p rd] |]; intro H; inversion H; reflexivity.
Qed.

Lemma main_load_state_same_report :
  preserves same_report (in_world main_load_state).
Proof.
  apply in_world_same_report. intros w w' r H.
  rewrite (main_load_state_world w w' r H). reflexivity.
Qed.

(** Apply the frame rules through a body built from the lifted calls. *)
Ltac keeps_report :=
  repeat first
    [ apply (preserves_bind same_report same_report_trans)
    | apply (preserves_ret same_report same_report_refl)
    | apply (preserves_of_result same_report same_report_refl)
    | apply gets_locals_same_report
    | apply in_locals_same_report
    | apply in_log_same_report
    | apply in_news_same_report
    | apply main_load_state_same_report
    | apply in_world_same_report;
      let w := fresh "w" in let w' := fresh "w" in
      let r := fresh "r" in let H := fresh "H" in
      intros w w' r H;
      unfold save_to_db, save_state, gets, modify in H;
      inversion H; subst; reflexivity
    | match goal with
      | |- forall _, _ => intro
      | |- preserves _ (if ?c then _ else _) => destruct c
      | |- preserves _ (match ?x with _ => _ end) => destruct x
      end ].

Lemma fetch_pass_body_same_report (env : Env) (it : nat * string) :
  preserves same_report (fetch_pass_body env it).
Proof. destruct it as [i ticker]. unfold fetch_pass_body, say. keeps_report. Qed.

Lemma score_pass_body_same_report (env : Env) (it : nat * string) :
  preserves same_report (score_pass_body env it).
Proof. destruct it as [i ticker]. unfold score_pass_body, say. keeps_report. Qed.

Lemma main_setup_same_report (env : Env) :
  preserves same_report (main_setup env).
Proof. unfold main_setup, say. keeps_report. Qed.

Lemma main_fetch_pass_same_report (env : Env) (tickers : list string) :
  preserves same_report (main_fetch_pass env tickers).
Proof.
  unfold main_fetch_pass, say. keeps_report.
  apply (preserves_for_each same_report same_report_refl same_report_trans).
  apply fetch_pass_body_same_report.
Qed.

(** *** Calls on the log do not read it *)

Lemma log_parametric_intro {X : Type} (m : Log -> Log * X) (tail : Log) (x : X) :
  (forall log, m log = (log ++ tail, x)) -> log_parametric m.
Proof.
  intros H log. rewrite (H []), (H log). reflexivity.
Qed.

Lemma log_parametric_emit (e : effect) : log_parametric (emit e).
Proof. intro log. reflexivity. Qed.

Lemma log_parametric_ret {A : Type} (a : A) : log_parametric (@ret Log A a).
Proof. intro log. unfold ret. cbn. rewrite app_nil_r. reflexivity. Qed.

Lemma log_parametric_raise {A : Type} (e : exn) :
  log_parametric (@raise Log A e).
Proof. intro log. unfold raise. cbn. rewrite app_nil_r. reflexivity. Qed.

Lemma log_parametric_of_result {A : Type} (r : result A) :
  log_parametric (@of_result Log A r).
Proof. intro log. unfold of_result. cbn. rewrite app_nil_r. reflexivity. Qed.

Lemma log_parametric_bind {A B : Type} (m : M Log A) (k : A -> M Log B) :
  log_parametric m -> (forall a, log_parametric (k a)) ->
  log_parametric (bind m k).
Proof.
  intros Hm Hk log. unfold bind.
  rewrite (Hm log). destruct (m []) as [l1 [a | e]]; cbn [fst snd].
  - rewrite (Hk a (log ++ l1)), (Hk a l1). cbn [fst snd].
    rewrite app_assoc. reflexivity.
  - reflexivity.
Qed.

Lemma log_parametric_retrying_call {A : Type} (p : Retrying)
    (fn : nat -> M Log A) (fuel : nat) :
  (forall k, log_parametric (fn k)) ->
  forall a, log_parametric (retrying_call p fn fuel a).
Proof.
  intro Hfn. induction fuel as [| fuel IH]; intros a log; cbn [retrying_call].
  - cbn. rewrite app_nil_r. reflexivity.
  - rewrite (Hfn a log). destruct (fn a []) as [l1 [x | e]]; cbn [fst snd].
    + reflexivity.
    + destruct (stop_after_attempt p a); [reflexivity |].
      rewrite (IH (S a) ((log ++ l1) ++ _)), (IH (S a) (l1 ++ _)).
      cbn [fst snd]. rewrite <- !app_assoc. reflexivity.
Qed.

Lemma log_parametric_requests_get_once (env : Env) (e : endpoint)
    (ticker : string) (k : nat) :
  log_parametric (requests_get_once env e ticker k).
Proof.
  eapply log_parametric_intro. intro log. apply requests_get_once_log.
Qed.

Lemma log_parametric_requests_get_with_retry (env : Env) (e : endpoint)
    (ticker : string) :
  log_parametric (requests_get_with_retry env e ticker).
Proof.
  intro log. unfold requests_get_with_retry.
  rewrite (log_parametric_retrying_call retry_policy
             (requests_get_once env e ticker) 7
             (log_parametric_requests_get_once env e ticker) 1 log).
  destruct (retrying_call retry_policy (requests_get_once env e ticker) 7 1 [])
    as [l1 [r |]]; reflexivity.
Qed.

(** Split a computation on the log along its binds. *)
Ltac parametric :=
  repeat first
    [ apply log_parametric_bind
    | apply log_parametric_emit
    | apply log_parametric_ret
    | apply log_parametric_raise
    | apply log_parametric_of_result
    | apply log_parametric_requests_get_with_retry
    | match goal with
      | |- forall _, _ => intro
      | |- log_parametric (if ?c then _ else _) => destruct c
      | |- log_parametric (match ?x with _ => _ end) => destruct x
      end ].

Lemma log_parametric_get_indicator (env : Env) (e : endpoint)
    (ticker : string) :
  log_parametric (get_indicator env e ticker).
Proof. unfold get_indicator. parametric. Qed.

Lemma log_parametric_get_recent_price (env : Env) (ticker : string) :
  log_parametric (get_recent_price env ticker).
Proof. unfold get_recent_price. parametric. Qed.

Lemma log_parametric_get_historical_price (env : Env) (ticker : string) :
  log_parametric (get_historical_price env ticker).
Proof. unfold get_historical_price. parametric. Qed.

Lemma log_parametric_gpt_attempts
    (chat : string -> string -> nat -> chat_reply) (ticker text : string)
    (retry_delay : Z) (max_retries : nat) :
  forall calls scores,
    log_parametric
      (gpt_attempts chat ticker text retry_delay max_retries calls scores).
Proof.
  induction max_retries as [| m IH]; intros calls scores; cbn [gpt_attempts].
  - apply log_parametric_ret.
  - parametric; apply IH.
Qed.

Lemma log_parametric_gpt_loop
    (chat : string -> string -> nat -> chat_reply) (ticker : string)
    (retry_delay : Z) (rows : list news_row) :
  forall max_retries calls scores,
    log_parametric
      (gpt_loop chat ticker retry_delay rows max_retries calls scores).
Proof.
  induction rows as [| r rest IH]; intros m c s; cbn [gpt_loop].
  - apply log_parametric_ret.
  - destruct (usable r); [| apply IH].
    apply log_parametric_bind; [apply log_parametric_gpt_attempts |].
    intros [[m1 c1] s1]. apply IH.
Qed.

Lemma log_parametric_gpt_sentiment_analysis
    (chat : string -> string -> nat -> chat_reply) (db : list news_row)
    (ticker : string) (max_retries : nat) (retry_delay : Z) :
  log_parametric
    (gpt_sentiment_analysis chat db ticker max_retries retry_delay).
Proof. apply log_parametric_gpt_loop. Qed.

(** A parametric call lifted to the state of [main]. *)
Lemma in_log_parametric {A : Type} (m : M Log A) (s : St) :
  log_parametric m ->
  in_log m s
  = ({| world := set_log (w_log (world s) ++ fst (m [])) (world s);
        locals := locals s |},
     snd (m [])).
Proof.
  intro Hm. unfold in_log, in_world, zoom. rewrite (Hm (w_log (world s))).
  reflexivity.
Qed.

(** *** Both strategies answer within the seven-label set *)

Lemma vader_label_in_label_set (compound : Q) (l : string) :
  vader_label compound = Ok l -> In l label_set.
Proof.
  unfold vader_label.
  destruct (get_loc vader_breaks 0 compound) as [i |]; cbn [rbind];
    [| discriminate].
  destruct (nth_error vader_labels i) as [l' |] eqn:E; [| discriminate].
  intro H. inversion H; subst l'. apply nth_error_In in E.
  unfold vader_labels in E. unfold label_set. simpl in *.
  intuition auto.
Qed.

Lemma vader_loop_in_label_set (polarity : string -> Q) (rows : list news_row) :
  forall acc labels,
    Forall (fun s => In s label_set) acc ->
    vader_loop polarity rows acc = Ok labels ->
    Forall (fun s => In s label_set) labels.
Proof.
  induction rows as [| r rest IH]; intros acc labels Hacc H; cbn in H.
  - inversion H; subst. exact Hacc.
  - destruct (usable r).
    + destruct (vader_label (polarity (article_text r))) as [l |] eqn:E;
        cbn in H; [| discriminate].
      eapply IH; [| exact H].
      apply Forall_app. split; [exact Hacc |].
      constructor; [eapply vader_label_in_label_set; exact E | constructor].
    + eapply IH; eassumption.
Qed.

Lemma vader_sentiment_analysis_in_label_set (polarity : string -> Q)
    (db : list news_row) (ticker : string) (labels : list string) :
  vader_sentiment_analysis polarity db ticker = Ok labels ->
  Forall (fun s => In s label_set) labels.
Proof. apply vader_loop_in_label_set. constructor. Qed.

Lemma gpt_label_in_label_set (content : string) :
  In (gpt_label content) label_set.
Proof.
  destruct (gpt_label_cases content) as [[H _] | [H _]].
  - unfold canonical_labels in H. unfold label_set. simpl in *. intuition auto.
  - rewrite H. unfold label_set. simpl. intuition auto.
Qed.

Lemma gpt_attempts_in_label_set
    (chat : string -> string -> nat -> chat_reply) (ticker text : string)
    (retry_delay : Z) (max_retries : nat) :
  forall calls scores log log' m c s,
    Forall (fun x => In x label_set) scores ->
    gpt_attempts chat ticker text retry_delay max_retries calls scores log
    = (log', Ok (m, c, s)) ->
    Forall (fun x => In x label_set) s.
Proof.
  induction max_retries as [| n IH]; intros calls scores log log' m c s Hs H;
    cbn [gpt_attempts] in H.
  - inversion H; subst. exact Hs.
  - unfold bind at 1 in H. unfold emit at 1 in H.
    destruct (chat ticker text calls) as [| content].
    + unfold bind at 1 in H. unfold emit at 1 in H.
      destruct (0 <? n)%nat.
      * unfold bind at 1 in H. unfold emit at 1 in H.
        eapply IH; [exact Hs | exact H].
      * eapply IH; [| exact H].
        apply Forall_app. split; [exact Hs |].
        constructor; [unfold label_set; simpl; intuition auto | constructor].
    + inversion H; subst.
      apply Forall_app. split; [exact Hs |].
      constructor; [apply gpt_label_in_label_set | constructor].
Qed.

Lemma gpt_loop_in_label_set
    (chat : string -> string -> nat -> chat_reply) (ticker : string)
    (retry_delay : Z) (rows : list news_row) :
  forall max_retries calls scores log log' labels,
    Forall (fun x => In x label_set) scores ->
    gpt_loop chat ticker retry_delay rows max_retries calls scores log
    = (log', Ok labels) ->
    Forall (fun x => In x label_set) labels.
Proof.
  induction rows as [| r rest IH]; intros m c s log log' labels Hs H;
    cbn [gpt_loop] in H.
  - inversion H; subst. exact Hs.
  - destruct (usable r); [| eapply IH; eassumption].
    unfold bind in H.
    destruct (gpt_attempts chat ticker (article_text r) retry_delay m c s log)
      as [l1 [[[m1 c1] s1] | e]] eqn:E; [| discriminate].
    eapply IH; [| exact H].
    eapply gpt_attempts_in_label_set; eassumption.
Qed.

Lemma gpt_sentiment_analysis_in_label_set
    (chat : string -> string -> nat -> chat_reply) (db : list news_row)
    (ticker : string) (max_retries : nat) (retry_delay : Z)
    (log log' : Log) (labels : list string) :
  gpt_sentiment_analysis chat db ticker max_retries retry_delay log
  = (log', Ok labels) ->
  Forall (fun x => In x label_set) labels.
Proof. apply gpt_loop_in_label_set. constructor. Qed.

(** In one run over the same table, the generative strategy never has
    more labels than the lexicon strategy. *)
Lemma gpt_count_le_vader_count
    (env : Env) (db : list news_row) (ticker : string)
    (vader_sentiments gpt_sentiments : list string) (log log' : Log) :
  vader_sentiment_analysis (polarity_compound env) db ticker
  = Ok vader_sentiments ->
  gpt_sentiment_analysis (chat env) db ticker
    default_max_retries default_retry_delay log = (log', Ok gpt_sentiments) ->
  (List.length gpt_sentiments <= List.length vader_sentiments)%nat.
Proof.
  intros Hv Hg.
  rewrite (vader_sentiment_analysis_length _ _ _ _ Hv).
  destruct (gpt_sentiment_analysis_returns (chat env) db ticker
              default_max_retries default_retry_delay log)
    as (labels & l2 & Heq & _ & Hle).
  rewrite Heq in Hg. inversion Hg; subst. exact Hle.
Qed.

(** *** Running [main] one statement at a time *)

(** The next statement updates or reads the local variables. *)
Ltac step_locals :=
  unfold bind at 1; unfold in_locals at 1, zoom, modify, gets;
  cbn [world locals l_processed_tickers l_news_data l_rsi_data l_macd_data
       bind_ticker].

(** The next statement prints one line. *)
Ltac step_say :=
  unfold bind at 1; unfold say at 1;
  rewrite in_log_parametric by apply log_parametric_emit;
  cbn [world locals fst snd emit set_log w_log List.length].

(** The next statement is a call that only touches the log. *)
Ltac step_log lemma :=
  unfold bind at 1; rewrite in_log_parametric by apply lemma.

(** The next statement evaluates a pure expression. *)
Ltac step_pure := unfold bind at 1; unfold of_result at 1.

(** *** Loops *)

Lemma enumerate_from_app {A : Type} (xs ys : list A) :
  forall start,
    enumerate_from start (xs ++ ys)
    = enumerate_from start xs
      ++ enumerate_from (start + List.length xs) ys.
Proof.
  unfold enumerate_from.
  induction xs as [| x rest IH]; intro start; cbn [List.length app seq combine].
  - rewrite Nat.add_0_r. reflexivity.
  - rewrite (IH (S start)). cbn [app]. f_equal.
    replace (S start + List.length rest)%nat
      with (start + S (List.length rest))%nat by lia.
    reflexivity.
Qed.

Lemma enumerate_from_cons {A : Type} (x : A) (xs : list A) (start : nat) :
  enumerate_from start (x :: xs) = (start, x) :: enumerate_from (S start) xs.
Proof. reflexivity. Qed.

Lemma for_each_app {S A : Type} (body : A -> M S unit) (xs ys : list A) (s : S) :
  for_each body (xs ++ ys) s
  = bind (for_each body xs) (fun _ => for_each body ys) s.
Proof.
  revert s. induction xs as [| x rest IH]; intro s; cbn [app for_each].
  - reflexivity.
  - unfold bind. destruct (body x s) as [s1 [[] | e]].
    + rewrite IH. unfold bind. reflexivity.
    + reflexivity.
Qed.

(** *** An absent indicator *)

(** With the low price, the recent price, [rsi] or [macd] absent the
    aggregator raises [TypeError] at the first comparison that meets an
    absent value. (An absent high price alone is not looked at when the
    recent price is below the low.) *)
Lemma calculate_aggregated_score_absent
    (vader_total gpt_total : Q) (low high recent : option Q) (news_volume : Z)
    (rsi macd : option Q) (num_articles : Z) :
  num_articles <> 0%Z ->
  low = None \/ recent = None \/ rsi = None \/ macd = None ->
  calculate_aggregated_score vader_total gpt_total low high recent
    news_volume rsi macd num_articles = Raise TypeError.
Proof.
  intros Hn H. unfold calculate_aggregated_score, py_div.
  replace (num_articles =? 0)%Z with false by (symmetry; apply Z.eqb_neq; lia).
  cbn [rbind].
  destruct low as [lo |], high as [hi |], recent as [rp |],
    rsi as [r |], macd as [m |];
    try (exfalso; destruct H as [H | [H | [H | H]]]; discriminate);
    unfold if_elif, py_gt, py_lt; cbn [rbind];
    repeat match goal with
      | |- context [if ?b then _ else _] => destruct b; cbn [rbind]
      end;
    reflexivity.
Qed.

(** The weekly high and low are present together or absent together. *)
Lemma get_historical_price_both (env : Env) (ticker : string) (log : Log)
    (high low : option Q) :
  snd (get_historical_price env ticker log) = Ok (high, low) ->
  high = None -> low = None.
Proof.
  unfold get_historical_price, bind.
  destruct (requests_get_with_retry env AggsEndpoint ticker log)
    as [l [resp | e]]; cbn [snd]; [| discriminate].
  destruct (json resp) as [st rs | vs | c | prices]; cbn; try discriminate.
  destruct prices as [| c cs]; cbn; intros H Hh; inversion H; subst;
    [reflexivity | discriminate].
Qed.

(** The score step of a ticker with an absent indicator, when both
    strategies gave labels and the two price fetches returned: the
    aggregator is called and raises. Up to that point only the log has
    grown. *)
Lemma score_step_indicator_absent (env : Env) (s : St) (i : nat)
    (ticker : string) (news : list article) (rsi macd : option Q)
    (vader_sentiments gpt_sentiments : list string)
    (recent high low : option Q) :
  str_in ticker (l_processed_tickers (locals s)) = false ->
  dict_get (l_news_data (locals s)) ticker = Ok news ->
  dict_get (l_rsi_data (locals s)) ticker = Ok rsi ->
  dict_get (l_macd_data (locals s)) ticker = Ok macd ->
  vader_sentiment_analysis (polarity_compound env)
    (w_news_articles (world s)) ticker = Ok vader_sentiments ->
  snd (gpt_sentiment_analysis (chat env) (w_news_articles (world s)) ticker
         default_max_retries default_retry_delay []) = Ok gpt_sentiments ->
  vader_sentiments <> [] -> gpt_sentiments <> [] ->
  snd (get_recent_price env ticker []) = Ok recent ->
  snd (get_historical_price env ticker []) = Ok (high, low) ->
  rsi = None \/ macd = None \/ recent = None \/ high = None \/ low = None ->
  exists tail,
    score_pass_body env (i, ticker) s
    = ({| world := set_log (w_log (world s) ++ tail) (world s);
          locals := bind_ticker ticker (locals s) |},
       Raise TypeError).
Proof.
  intros Hp Hnews Hrsi Hmacd Hv Hg Hvne Hgne Hr Hh Habsent.
  assert (Habsent' : low = None \/ recent = None \/ rsi = None \/ macd = None).
  { destruct Habsent as [H | [H | [H | [H | H]]]]; auto.
    left. eapply get_historical_price_both; eassumption. }
  unfold score_pass_body.
  step_locals. step_say. step_locals. rewrite Hp.
  step_locals. rewrite Hnews.
  step_locals. rewrite Hrsi.
  step_locals. rewrite Hmacd.
  unfold bind at 1. unfold in_world at 1, zoom, gets.
  cbn [world locals w_news_articles set_log].
  step_pure. rewrite Hv.
  step_log log_parametric_gpt_sentiment_analysis. rewrite Hg.
  destruct vader_sentiments as [| v0 vs]; [congruence |].
  destruct gpt_sentiments as [| g0 gs]; [congruence |].
  cbn [List.length Nat.eqb orb].
  step_log log_parametric_get_recent_price. rewrite Hr.
  step_log log_parametric_get_historical_price. rewrite Hh.
  destruct (sentiment_total_bound (v0 :: vs)) as [vt [Hvt _]];
    [eapply vader_sentiment_analysis_in_label_set; exact Hv |].
  destruct (sentiment_total_bound (g0 :: gs)) as [gt [Hgt _]].
  { destruct (gpt_sentiment_analysis (chat env) (w_news_articles (world s))
                ticker default_max_retries default_retry_delay [])
      as [l0 r0] eqn:E.
    cbn [snd] in Hg. subst r0.
    eapply gpt_sentiment_analysis_in_label_set; exact E. }
  step_pure. rewrite Hvt.
  step_pure. rewrite Hgt.
  step_pure.
  rewrite calculate_aggregated_score_absent
    by (cbn [List.length]; first [lia | exact Habsent']).
  cbn [world locals set_log w_log w_state_pkl w_news_articles
       w_sentiment_scores w_report_txt].
  eexists. rewrite <- !app_assoc. reflexivity.
Qed.

Lemma bind_for_each_app {S A : Type} (m : M S unit) (body : A -> M S unit)
    (xs ys : list A) (s : S) :
  bind m (fun _ => for_each body (xs ++ ys)) s
  = bind (bind m (fun _ => for_each body xs)) (fun _ => for_each body ys) s.
Proof.
  unfold bind. destruct (m s) as [s1 [[] | e]]; [| reflexivity].
  rewrite for_each_app. unfold bind. reflexivity.
Qed.

Lemma score_pass_reaches_same_report (env : Env) (w : World)
    (pre : list string) (ticker : string) (post : list string) (s : St) :
  score_pass_reaches env w pre ticker post s ->
  w_report_txt (world s) = w_report_txt w.
Proof.
  intros (s0 & s1 & H0 & H1 & H2).
  apply main_setup_same_report in H0.
  apply main_fetch_pass_same_report in H1.
  assert (H3 : same_report s1 s).
  { revert H2.
    apply (preserves_bind same_report same_report_trans);
      [unfold say; apply in_log_same_report |].
    intros _.
    apply (preserves_for_each same_report same_report_refl same_report_trans).
    apply score_pass_body_same_report. }
  unfold same_report in *. cbn in H0. congruence.
Qed.

(** The defect behind C6, in general. When the score pass reaches a
    ticker that has labels from both strategies and an absent indicator
    (RSI, MACD,
    recent price, weekly high or low), no guard intervenes: the
    aggregator raises [TypeError], the [except] clause of [main] prints
    it and [main] returns. The ticker gets no score row and no
    checkpoint, no later ticker is scored, and [report.txt] is not
    written. *)
Theorem missing_indicator_ends_the_run (env : Env) (w : World)
    (pre : list string) (ticker : string) (post : list string) (s : St)
    (news : list article) (rsi macd : option Q)
    (vader_sentiments gpt_sentiments : list string)
    (recent high low : option Q) :
  score_pass_reaches env w pre ticker post s ->
  str_in ticker (l_processed_tickers (locals s)) = false ->
  dict_get (l_news_data (locals s)) ticker = Ok news ->
  dict_get (l_rsi_data (locals s)) ticker = Ok rsi ->
  dict_get (l_macd_data (locals s)) ticker = Ok macd ->
  vader_sentiment_analysis (polarity_compound env)
    (w_news_articles (world s)) ticker = Ok vader_sentiments ->
  snd (gpt_sentiment_analysis (chat env) (w_news_articles (world s)) ticker
         default_max_retries default_retry_delay []) = Ok gpt_sentiments ->
  vader_sentiments <> [] -> gpt_sentiments <> [] ->
  snd (get_recent_price env ticker []) = Ok recent ->
  snd (get_historical_price env ticker []) = Ok (high, low) ->
  rsi = None \/ macd = None \/ recent = None \/ high = None \/ low = None ->
  exists w' tail,
    main env w = (w', Handled TypeError)
    /\ w_sentiment_scores w' = w_sentiment_scores (world s)
    /\ w_state_pkl w' = w_state_pkl (world s)
    /\ w_news_articles w' = w_news_articles (world s)
    /\ w_report_txt w' = w_report_txt w
    /\ w_log w'
       = w_log (world s) ++ tail
         ++ [Print (MsgTickerError ticker TypeError); Print MsgTraceback].
Proof.
  intros Hreach Hp Hnews Hrsi Hmacd Hv Hg Hvne Hgne Hr Hh Habsent.
  pose proof (score_pass_reaches_same_report _ _ _ _ _ _ Hreach) as Hrep.
  destruct Hreach as (s0 & s1 & H0 & H1 & H2).
  destruct (score_step_indicator_absent env s (1 + List.length pre) ticker
              news rsi macd vader_sentiments gpt_sentiments recent high low)
    as [tail Hstep]; try assumption.
  exists (set_log ((w_log (world s) ++ tail)
                   ++ [Print (MsgTickerError ticker TypeError);
                       Print MsgTraceback]) (world s)), tail.
  split;
    [| cbn; rewrite <- app_assoc; repeat split; try reflexivity; exact Hrep].
  unfold main, main_try. unfold initial in H0.
  unfold bind at 1. rewrite H0.
  remember (pre ++ ticker :: post) as tickers eqn:Et.
  destruct tickers as [| t0 rest];
    [symmetry in Et; apply app_eq_nil in Et; destruct Et; discriminate |].
  unfold bind at 1. rewrite H1.
  unfold bind at 1. unfold main_score_pass, enumerate1.
  rewrite Et, enumerate_from_app, enumerate_from_cons, bind_for_each_app.
  unfold bind at 1. rewrite H2.
  cbn [for_each]. unfold bind at 1. rewrite Hstep.
  cbn [locals l_ticker bind_ticker world set_log w_log w_state_pkl
       w_news_articles w_sentiment_scores w_report_txt].
  reflexivity.
Qed.

(** ** News fetch *)

Lemma get_indicator_starts_with_request (env : Env) (e : endpoint)
    (ticker : string) :
  exists tail, fst (get_indicator env e ticker []) = HttpGet e ticker :: tail.
Proof.
  unfold get_indicator, bind.
  destruct (requests_get_with_retry_attempts env e ticker [])
    as (n & _ & Heq & _).
  rewrite Heq. cbn [app attempts_trace].
  destruct (attempt_outcome env e ticker n) as [resp | ex];
    [| eexists; reflexivity].
  destruct (status_code resp =? 200)%Z.
  - destruct (json resp); unfold ret, raise; eexists; reflexivity.
  - unfold emit, ret. cbn. eexists. reflexivity.
Qed.

(** Whatever the provider replies, [get_stock_news] makes one request and
    never sleeps. *)
Lemma get_stock_news_one_request (env : Env) (ticker : string)
    (db : list news_row) (log : Log) :
  exists db' tail r,
    get_stock_news env ticker (db, log)
    = ((db', log ++ HttpGet NewsEndpoint ticker :: tail), r)
    /\ requests tail = [] /\ delays tail = [].
Proof.
  unfold get_stock_news.
  destruct (polygon env NewsEndpoint ticker 1) as [| resp].
  - do 3 eexists. rewrite <- app_assoc. split; [reflexivity |].
    split; reflexivity.
  - destruct (json resp) as [[st |] rs | vs | c | prices];
      try (exists db, [], (Ok []); repeat split; reflexivity).
    destruct (String.eqb st "OK");
      [| exists db, [], (Ok []); repeat split; reflexivity].
    destruct rs as [rs |];
      [destruct (save_news_items env ticker rs db) as [db' saved] |];
      do 3 eexists; (split; [reflexivity |]); split; reflexivity.
Qed.

(** C7 (as the code has it). In the fetch pass the news of a ticker that
    is not yet processed is asked for once, outside the retry executor:
    one request and no sleep, whatever the reply. When that request
    fails, the error is printed, no article is stored, zero articles are
    recorded for the ticker and the next event is already its RSI
    request. *)
Theorem news_fetch_is_not_retried (env : Env) (i : nat) (ticker : string)
    (s : St) :
  str_in ticker (l_processed_tickers (locals s)) = false ->
  (forall db log,
     exists db' tail r,
       get_stock_news env ticker (db, log)
       = ((db', log ++ HttpGet NewsEndpoint ticker :: tail), r)
       /\ requests tail = [] /\ delays tail = [])
  /\ (polygon env NewsEndpoint ticker 1 = HttpFail ->
      exists s' r tail,
        fetch_pass_body env (i, ticker) s = (s', r)
        /\ w_log (world s')
           = w_log (world s)
             ++ [Print (MsgImporting i ticker); HttpGet NewsEndpoint ticker;
                 Print (MsgNewsError ticker); Print (MsgLoadedNews 0 ticker);
                 HttpGet RsiEndpoint ticker]
             ++ tail
        /\ w_news_articles (world s') = w_news_articles (world s)
        /\ (r = Ok tt -> dict_get (l_news_data (locals s')) ticker = Ok [])).
Proof.
  intros Hp.
  split; [intros db log; apply get_stock_news_one_request |].
  intros Hfail.
  destruct (get_indicator_starts_with_request env RsiEndpoint ticker)
    as [rsi_tail Hrsi].
  unfold fetch_pass_body.
  step_locals. step_locals. rewrite Hp.
  step_say.
  unfold bind at 1. unfold in_news at 1, in_world, zoom, get_stock_news.
  cbn [world locals set_log w_log w_news_articles]. rewrite Hfail.
  cbn [world locals set_news_and_log fst snd].
  step_say. step_locals.
  unfold get_rsi. step_log log_parametric_get_indicator. rewrite Hrsi.
  cbn [world locals set_log w_log w_state_pkl w_news_articles
       w_sentiment_scores w_report_txt].
  destruct (snd (get_indicator env RsiEndpoint ticker [])) as [rsi | ex].
  - unfold get_macd. step_log log_parametric_get_indicator.
    cbn [world locals set_log w_log w_state_pkl w_news_articles
         w_sentiment_scores w_report_txt].
    destruct (snd (get_indicator env MacdEndpoint ticker [])) as [macd | ex].
    + unfold bind, in_locals, zoom, modify. cbn.
      do 3 eexists. split; [reflexivity |]. cbn.
      split; [| split; [reflexivity |]].
      * rewrite <- !app_assoc. cbn. reflexivity.
      * intros _. rewrite String.eqb_refl. reflexivity.
    + do 3 eexists. split; [reflexivity |]. cbn.
      split; [| split; [reflexivity | discriminate]].
      rewrite <- !app_assoc. cbn. reflexivity.
  - do 3 eexists. split; [reflexivity |]. cbn.
    split; [| split; [reflexivity | discriminate]].
    rewrite <- !app_assoc. cbn. reflexivity.
Qed.

(** ** Resumption *)

Lemma bind_tickers_processed (tickers : list string) :
  forall l,
    l_processed_tickers (bind_tickers tickers l) = l_processed_tickers l
    /\ l_report_data (bind_tickers tickers l) = l_report_data l.
Proof.
  unfold bind_tickers.
  induction tickers as [| t rest IH]; intro l; cbn [fold_left].
  - split; reflexivity.
  - destruct (IH (bind_ticker t l)) as [H1 H2]. rewrite H1, H2.
    split; reflexivity.
Qed.

(** A fetch pass over tickers that are all processed does nothing. *)
Lemma fetch_loop_all_processed (env : Env) (tickers : list string) :
  forall start w l,
    forallb (fun t => str_in t (l_processed_tickers l)) tickers = true ->
    for_each (fetch_pass_body env) (enumerate_from start tickers)
      {| world := w; locals := l |}
    = ({| world := w; locals := bind_tickers tickers l |}, Ok tt).
Proof.
  induction tickers as [| t rest IH]; intros start w l Hall.
  - reflexivity.
  - cbn [forallb] in Hall. apply andb_true_iff in Hall. destruct Hall as [Ht Hr].
    rewrite enumerate_from_cons. cbn [for_each].
    unfold bind at 1. unfold fetch_pass_body.
    step_locals. step_locals. rewrite Ht.
    unfold ret. rewrite IH by exact Hr. reflexivity.
Qed.

(** A score pass over tickers that are all processed only prints. *)
Lemma score_loop_all_processed (env : Env) (tickers : list string) :
  forall start w l,
    forallb (fun t => str_in t (l_processed_tickers l)) tickers = true ->
    for_each (score_pass_body env) (enumerate_from start tickers)
      {| world := w; locals := l |}
    = ({| world :=
            set_log (w_log w
                     ++ processing_lines (enumerate_from start tickers)) w;
          locals := bind_tickers tickers l |},
       Ok tt).
Proof.
  induction tickers as [| t rest IH]; intros start w l Hall.
  - cbn. unfold ret. rewrite app_nil_r. destruct w; reflexivity.
  - cbn [forallb] in Hall. apply andb_true_iff in Hall. destruct Hall as [Ht Hr].
    rewrite enumerate_from_cons. cbn [for_each].
    unfold bind at 1. unfold score_pass_body.
    step_locals. step_say. step_locals. rewrite Ht.
    unfold ret. rewrite IH by exact Hr.
    cbn [processing_lines map fst snd set_log w_log w_state_pkl
         w_news_articles w_sentiment_scores w_report_txt app].
    rewrite <- !app_assoc. reflexivity.
Qed.

(** The start of a run with a readable checkpoint. *)
Lemma main_setup_loaded (env : Env) (w : World)
    (processed : list string) (report : list (string * Q))
    (tickers : list string) :
  w_state_pkl w = Some (Pickled processed report) ->
  tickers_csv env = Ok tickers ->
  main_setup env {| world := w; locals := no_locals |}
  = ({| world :=
          set_log (w_log w
                   ++ [Print MsgStarting;
                       Print (MsgLoadedTickers (List.length tickers))]) w;
        locals := set_report_data report
                    (set_processed_tickers processed no_locals) |},
     Ok tickers).
Proof.
  intros Hs Ht.
  unfold main_setup, bind, in_world, in_locals, say, in_log, in_world, zoom,
    main_load_state, read_state_pkl, of_result, modify, emit, ret.
  cbn [world locals]. rewrite Hs, Ht. cbn.
  unfold set_log. cbn. rewrite <- !app_assoc. reflexivity.
Qed.

(** X24. A run over a ticker list that the checkpoint marks as fully
    processed: no provider or model call, no new row, the checkpoint
    file untouched -- and [report.txt] rewritten as an empty report,
    whatever rows the checkpoint carried. *)
Lemma rerun_after_complete_run (env : Env) (w : World)
    (processed : list string) (report : list (string * Q))
    (t : string) (rest : list string) :
  w_state_pkl w = Some (Pickled processed report) ->
  tickers_csv env = Ok (t :: rest) ->
  forallb (fun x => str_in x processed) (t :: rest) = true ->
  main env w
  = ({| w_state_pkl := w_state_pkl w;
        w_news_articles := w_news_articles w;
        w_sentiment_scores := w_sentiment_scores w;
        w_report_txt := Some [];
        w_log :=
          w_log w
          ++ [Print MsgStarting;
              Print (MsgLoadedTickers (List.length (t :: rest)));
              Print MsgImportingAll; Print MsgConducting]
          ++ processing_lines (enumerate1 (t :: rest))
          ++ [Print MsgReportHeader; Print MsgReportWritten] |},
     Returned ReportDone).
Proof.
  intros Hs Ht Hall.
  unfold main, main_try.
  unfold bind at 1.
  rewrite (main_setup_loaded env w processed report (t :: rest) Hs Ht).
  unfold bind at 1. unfold main_fetch_pass.
  step_locals. step_locals. step_locals. step_locals. step_say.
  unfold enumerate1.
  rewrite fetch_loop_all_processed by exact Hall.
  unfold bind at 1. unfold main_score_pass.
  step_say.
  unfold enumerate1.
  rewrite score_loop_all_processed
    by (rewrite (proj1 (bind_tickers_processed _ _)); exact Hall).
  unfold main_report.
  unfold bind, in_locals, in_world, zoom, modify, gets, print_report, ret.
  cbn [world locals].
  rewrite !(proj2 (bind_tickers_processed _ _)).
  cbn. rewrite <- !app_assoc. reflexivity.
Qed.

(** C5. Two runs over tickers "B" and "C" with every provider answering.
    Run 1 scores both. Run 2, started from what run 1 left, adds no score
    row and leaves the checkpoint alone, but writes an empty report: the
    rows loaded from the checkpoint are dropped by line 367. A run started
    from a checkpoint that holds "B" only scores "C" and reports "C"
    alone. *)
Theorem resumption_drops_checkpointed_rows :
  let run1 := main env_up fresh_world in
  let run2 := main env_up (fst run1) in
  let run3 := main env_up world_after_B in
  snd run1 = Returned ReportDone
  /\ option_map (map fst) (w_report_txt (fst run1)) = Some ["B"; "C"]
  /\ snd run2 = Returned ReportDone
  /\ w_sentiment_scores (fst run2) = w_sentiment_scores (fst run1)
  /\ w_state_pkl (fst run2) = w_state_pkl (fst run1)
  /\ w_report_txt (fst run2) = Some []
  /\ snd run3 = Returned ReportDone
  /\ map s_ticker (w_sentiment_scores (fst run3)) = ["C"]
  /\ option_map (map fst) (w_report_txt (fst run3)) = Some ["C"].
Proof. vm_compute. repeat split; reflexivity. Qed.

(** The second run above, through the general statement. *)
Lemma rerun_after_complete_run_example :
  w_report_txt (fst (main env_up (fst (main env_up fresh_world)))) = Some [].
Proof.
  erewrite (rerun_after_complete_run env_up (fst (main env_up fresh_world))
              _ _ "B" ["C"]).
  - reflexivity.
  - vm_compute. reflexivity.
  - reflexivity.
  - reflexivity.
Defined.

(** C6. With no RSI value for "A", [get_rsi] returns [None] as it is
    written to, and nothing looks at it before the aggregator does: the
    run over "A" and "B" ends in the [except] clause with the
    [TypeError] of the aggregator's comparison. Nothing is scored, no
    checkpoint and no report is written, and "B" is never reached,
    although a run over "B" alone scores and reports it. *)
Theorem missing_rsi_ends_the_batch :
  let run := main env_no_rsi_for_A fresh_world in
  snd (get_rsi env_no_rsi_for_A "A" []) = Ok None
  /\ snd run = Handled TypeError
  /\ w_report_txt (fst run) = None
  /\ w_sentiment_scores (fst run) = []
  /\ w_state_pkl (fst run) = None
  /\ In (Print (MsgTickerError "A" TypeError)) (w_log (fst run))
  /\ ~ In (Print (MsgProcessing 2 "B")) (w_log (fst run))
  /\ option_map (map fst)
       (w_report_txt
          (fst (main (example_env ["B"] provider_no_rsi_for_A) fresh_world)))
     = Some ["B"].
Proof.
  vm_compute.
  repeat split; try reflexivity.
  - repeat first [left; reflexivity | right].
  - intro H. repeat (destruct H as [H | H]; [discriminate H |]). exact H.
Qed.

(** C6 at tickers "A" and "B" with no RSI value for "A". *)
Lemma missing_indicator_ends_the_run_example :
  exists w' tail,
    main env_no_rsi_for_A fresh_world = (w', Handled TypeError)
    /\ w_sentiment_scores w'
       = w_sentiment_scores
           (world (state_before_scoring env_no_rsi_for_A fresh_world ["A"; "B"]))
    /\ w_state_pkl w'
       = w_state_pkl
           (world (state_before_scoring env_no_rsi_for_A fresh_world ["A"; "B"]))
    /\ w_news_articles w'
       = w_news_articles
           (world (state_before_scoring env_no_rsi_for_A fresh_world ["A"; "B"]))
    /\ w_report_txt w' = w_report_txt fresh_world
    /\ w_log w'
       = w_log (world (state_before_scoring env_no_rsi_for_A fresh_world
                         ["A"; "B"]))
         ++ tail ++ [Print (MsgTickerError "A" TypeError); Print MsgTraceback].
Proof.
  eapply (missing_indicator_ends_the_run env_no_rsi_for_A fresh_world
            [] "A" ["B"]
            (state_before_scoring env_no_rsi_for_A fresh_world ["A"; "B"])).
  - do 2 eexists. split; [vm_compute; reflexivity |].
    split; vm_compute; reflexivity.
  - vm_compute. reflexivity.
  - vm_compute. reflexivity.
  - vm_compute. reflexivity.
  - vm_compute. reflexivity.
  - vm_compute. reflexivity.
  - vm_compute. reflexivity.
  - discriminate.
  - discriminate.
  - vm_compute. reflexivity.
  - vm_compute. reflexivity.
  - left. reflexivity.
Defined.

(** C7, as stated, fails: with the news endpoint unreachable the fetch
    makes one request (the retry executor would make seven), prints the
    error and returns the empty list; the run goes on, skips "A" for
    want of articles and ends with an empty report. *)
Lemma news_fetch_counterexample :
  get_stock_news env_news_down "A" ([], [])
  = (([], [HttpGet NewsEndpoint "A"; Print (MsgNewsError "A")]), Ok [])
  /\ List.length
       (requests (fst (requests_get_with_retry env_news_down
                         NewsEndpoint "A" []))) = 7%nat
  /\ main env_news_down fresh_world
     = ({| w_state_pkl := None;
           w_news_articles := [];
           w_sentiment_scores := [];
           w_report_txt := Some [];
           w_log :=
             [Print MsgStarting; Print (MsgLoadedTickers 1);
              Print MsgImportingAll; Print (MsgImporting 1 "A");
              HttpGet NewsEndpoint "A"; Print (MsgNewsError "A");
              Print (MsgLoadedNews 0 "A"); HttpGet RsiEndpoint "A";
              HttpGet MacdEndpoint "A"; Print MsgConducting;
              Print (MsgProcessing 1 "A"); Print (MsgNoArticles "A");
              Print MsgReportHeader; Print MsgReportWritten] |},
        Returned ReportDone).
Proof. repeat split; vm_compute; reflexivity. Qed.

(** C7 at ticker "A" with the news endpoint unreachable. *)
Lemma news_fetch_is_not_retried_example :
  exists s' r tail,
    fetch_pass_body env_news_down (1%nat, "A") (initial fresh_world) = (s', r)
    /\ w_log (world s')
       = w_log (world (initial fresh_world))
         ++ [Print (MsgImporting 1 "A"); HttpGet NewsEndpoint "A";
             Print (MsgNewsError "A"); Print (MsgLoadedNews 0 "A");
             HttpGet RsiEndpoint "A"]
         ++ tail
    /\ w_news_articles (world s') = w_news_articles (world (initial fresh_world))
    /\ (r = Ok tt -> dict_get (l_news_data (locals s')) "A" = Ok []).
Proof.
  apply (news_fetch_is_not_retried env_news_down 1 "A" (initial fresh_world)).
  - reflexivity.
  - reflexivity.
Defined.

(** * Further properties of the code *)

(** ** The report order: [report_data.sort(key=..., reverse=True)] *)

Lemma insert_desc_perm (x : string * Q) (rows : list (string * Q)) :
  Permutation (insert_desc x rows) (x :: rows).
Proof.
  induction rows as [| y rest IH]; cbn [insert_desc].
  - apply Permutation_refl.
  - destruct (Qlt_b (snd x) (snd y)).
    + eapply perm_trans; [apply perm_skip; exact IH | apply perm_swap].
    + apply Permutation_refl.
Qed.

Lemma insert_desc_sorted (x : string * Q) (rows : list (string * Q)) :
  StronglySorted score_ge rows -> StronglySorted score_ge (insert_desc x rows).
Proof.
  induction 1 as [| y rest Hs IH Hall]; cbn [insert_desc].
  - repeat constructor.
  - destruct (Qlt_b (snd x) (snd y)) eqn:E.
    + apply Qlt_b_true in E. constructor; [exact IH |].
      apply (Permutation_Forall (Permutation_sym (insert_desc_perm x rest))).
      constructor; [unfold score_ge; apply Qlt_le_weak; exact E | exact Hall].
    + apply Qlt_b_false in E. constructor.
      * constructor; assumption.
      * constructor; [exact E |].
        eapply Forall_impl; [| exact Hall].
        intros z Hz. unfold score_ge in *. eapply Qle_trans; eassumption.
Qed.

Lemma insert_desc_filter (q : Q) (x : string * Q) (rows : list (string * Q)) :
  filter (has_score q) (insert_desc x rows)
  = filter (has_score q) (x :: rows).
Proof.
  induction rows as [| y rest IH]; cbn [insert_desc]; [reflexivity |].
  destruct (Qlt_b (snd x) (snd y)) eqn:E; [| reflexivity].
  apply Qlt_b_true in E.
  cbn [filter] in *. rewrite IH.
  destruct (has_score q x) eqn:Px; [| reflexivity].
  destruct (has_score q y) eqn:Py; [| reflexivity].
  unfold has_score in Px, Py. apply Qeq_bool_iff in Px, Py.
  exfalso. rewrite Px, Py in E. exact (Qlt_irrefl q E).
Qed.

Lemma sort_desc_perm_sorted (rows : list (string * Q)) :
  Permutation (sort_desc rows) rows
  /\ StronglySorted score_ge (sort_desc rows).
Proof.
  unfold sort_desc. induction rows as [| x rest [IHp IHs]]; cbn [fold_right].
  - split; constructor.
  - split.
    + eapply perm_trans; [apply insert_desc_perm | apply perm_skip; exact IHp].
    + apply insert_desc_sorted. exact IHs.
Qed.

(** X1. The report sort keeps every row exactly once and puts the rows
    in descending order of score: each row's score is at least the score
    of every row after it. *)
Theorem sort_desc_sorted_permutation (rows : list (string * Q)) :
  Permutation (sort_desc rows) rows
  /\ StronglySorted score_ge (sort_desc rows).
Proof. apply sort_desc_perm_sorted. Qed.

(** X2. The report sort is stable: rows with equal scores stand in the
    sorted report in the order in which they were appended. *)
Theorem sort_desc_stable (q : Q) (rows : list (string * Q)) :
  filter (has_score q) (sort_desc rows) = filter (has_score q) rows.
Proof.
  unfold sort_desc. induction rows as [| x rest IH]; cbn [fold_right].
  - reflexivity.
  - rewrite insert_desc_filter. cbn [filter]. rewrite IH. reflexivity.
Qed.

(** ** When the aggregator fails *)

(** X3. [calculate_aggregated_score] returns a score exactly when the
    divisor is not zero, the recent price, the weekly low, [rsi] and
    [macd] are present, and the weekly high is present or is never looked
    at because the recent price is below the low. Otherwise it raises:
    [ZeroDivisionError] when [num_articles] is zero, whatever else is
    absent, and [TypeError] in every other case. *)
Theorem calculate_aggregated_score_defined_iff
    (vader_total gpt_total : Q) (low high recent : option Q) (news_volume : Z)
    (rsi macd : option Q) (num_articles : Z) :
  ((exists score,
      calculate_aggregated_score vader_total gpt_total low high recent
        news_volume rsi macd num_articles = Ok score)
   <-> num_articles <> 0%Z
       /\ exists rp lo r m,
            recent = Some rp /\ low = Some lo /\ rsi = Some r /\ macd = Some m
            /\ (high <> None \/ rp < lo))
  /\ (forall e,
        calculate_aggregated_score vader_total gpt_total low high recent
          news_volume rsi macd num_articles = Raise e ->
        (e = ZeroDivisionError /\ num_articles = 0%Z)
        \/ (e = TypeError /\ num_articles <> 0%Z)).
Proof.
  unfold calculate_aggregated_score, py_div.
  destruct (num_articles =? 0)%Z eqn:En.
  - apply Z.eqb_eq in En. cbn [rbind]. split.
    + split; [intros [score H]; discriminate | intros [H _]; contradiction].
    + intros e H. inversion H; subst. left. split; reflexivity.
  - apply Z.eqb_neq in En. cbn [rbind].
    assert (Hraise : forall X : Prop,
      ((exists score : Q, @Raise Q TypeError = Ok score) <-> num_articles <> 0%Z /\ X)
      -> ((exists score : Q, @Raise Q TypeError = Ok score)
          <-> num_articles <> 0%Z /\ X)
         /\ (forall e, @Raise Q TypeError = Raise e ->
               e = ZeroDivisionError /\ num_articles = 0%Z
               \/ e = TypeError /\ num_articles <> 0%Z)).
    { intros X HX. split; [exact HX |].
      intros e H. inversion H; subst. right. split; [reflexivity | exact En]. }
    destruct recent as [rp |];
      [| apply Hraise; split;
         [intros [x H]; discriminate
         | intros [_ (a & b & c & d & H & _)]; discriminate]].
    destruct low as [lo |];
      [| apply Hraise; split;
         [intros [x H]; discriminate
         | intros [_ (a & b & c & d & _ & H & _)]; discriminate]].
    assert (Hprice :
      if_elif (py_lt (Some rp) (Some lo)) (-1) (py_gt (Some rp) high) 1
      = match high with
        | Some hi =>
            Ok (if Qlt_b rp lo then -1 else if Qlt_b hi rp then 1 else 0)
        | None => if Qlt_b rp lo then Ok (-1) else Raise TypeError
        end).
    { destruct high as [hi |]; unfold py_gt, py_lt;
        [apply if_elif_ok | unfold if_elif; cbn [rbind]];
        destruct (Qlt_b rp lo); reflexivity. }
    rewrite Hprice. clear Hprice.
    assert (Hhigh :
      (high <> None \/ rp < lo)
      \/ (high = None /\ Qlt_b rp lo = false)).
    { destruct high as [hi |]; [left; left; discriminate |].
      destruct (Qlt_b rp lo) eqn:E;
        [left; right; apply Qlt_b_true; exact E | right; split; reflexivity]. }
    destruct Hhigh as [Hhigh | [Hh Hlt]].
    + assert (Hp : exists p,
        match high with
        | Some hi =>
            Ok (if Qlt_b rp lo then -1 else if Qlt_b hi rp then 1 else 0)
        | None => if Qlt_b rp lo then Ok (-1) else Raise TypeError
        end = Ok p).
      { destruct high as [hi |]; [eexists; reflexivity |].
        destruct Hhigh as [H | H]; [exfalso; apply H; reflexivity |].
        apply Qlt_b_true in H. rewrite H. eexists; reflexivity. }
      destruct Hp as [p ->]. cbn [rbind]. rewrite if_elif_ok. cbn [rbind].
      destruct rsi as [r |];
        [| apply Hraise; split;
           [intros [x H]; discriminate
           | intros [_ (a & b & c & d & _ & _ & H & _)]; discriminate]].
      unfold py_gt, py_lt. rewrite if_elif_ok. cbn [rbind].
      destruct macd as [m |];
        [| apply Hraise; split;
           [intros [x H]; discriminate
           | intros [_ (a & b & c & d & _ & _ & _ & H & _)]; discriminate]].
      rewrite if_elif_ok. cbn [rbind].
      split; [| intros e H; discriminate].
      split; [| intros _; eexists; reflexivity].
      intros _. split; [exact En |].
      exists rp, lo, r, m. repeat (split; [reflexivity |]). exact Hhigh.
    + subst high. rewrite Hlt. cbn [rbind].
      apply Hraise. split; [intros [x H]; discriminate |].
      intros [_ (a & b & c & d & H1 & H2 & _ & _ & [H5 | H5])].
      * exfalso. apply H5. reflexivity.
      * exfalso. inversion H1; inversion H2; subst.
        apply Qlt_b_true in H5. congruence.
Qed.

(** ** The weekly high and low: [get_historical_price] *)

Lemma py_max_bounds (cs : list Q) :
  forall m,
    m <= py_max m cs
    /\ Forall (fun c => c <= py_max m cs) cs
    /\ In (py_max m cs) (m :: cs).
Proof.
  unfold py_max. induction cs as [| y rest IH]; intro m; cbn [fold_left].
  - repeat split; [apply Qle_refl | constructor | left; reflexivity].
  - destruct (Qlt_b m y) eqn:E.
    + apply Qlt_b_true in E. destruct (IH y) as (H1 & H2 & H3).
      repeat split.
      * eapply Qle_trans; [apply Qlt_le_weak; exact E | exact H1].
      * constructor; assumption.
      * right. exact H3.
    + apply Qlt_b_false in E. destruct (IH m) as (H1 & H2 & H3).
      repeat split.
      * exact H1.
      * constructor; [eapply Qle_trans; eassumption | exact H2].
      * destruct H3 as [H3 | H3]; [left; exact H3 | right; right; exact H3].
Qed.

Lemma py_min_bounds (cs : list Q) :
  forall m,
    py_min m cs <= m
    /\ Forall (fun c => py_min m cs <= c) cs
    /\ In (py_min m cs) (m :: cs).
Proof.
  unfold py_min. induction cs as [| y rest IH]; intro m; cbn [fold_left].
  - repeat split; [apply Qle_refl | constructor | left; reflexivity].
  - destruct (Qlt_b y m) eqn:E.
    + apply Qlt_b_true in E. destruct (IH y) as (H1 & H2 & H3).
      repeat split.
      * eapply Qle_trans; [exact H1 | apply Qlt_le_weak; exact E].
      * constructor; assumption.
      * right. exact H3.
    + apply Qlt_b_false in E. destruct (IH m) as (H1 & H2 & H3).
      repeat split.
      * exact H1.
      * constructor; [eapply Qle_trans; eassumption | exact H2].
      * destruct H3 as [H3 | H3]; [left; exact H3 | right; right; exact H3].
Qed.

(** X4. When [get_historical_price] returns, it returns the provider's
    closing prices reduced to (high, low): both absent when the list of
    closes is empty; otherwise both present, both taken from the list,
    and every close lies between them. *)
Theorem get_historical_price_range (env : Env) (ticker : string)
    (log log' : Log) (high low : option Q) :
  get_historical_price env ticker log = (log', Ok (high, low)) ->
  exists resp closes,
    requests_get_with_retry env AggsEndpoint ticker log = (log', Ok resp)
    /\ json resp = JResults closes
    /\ match closes with
       | [] => high = None /\ low = None
       | _ :: _ =>
           exists h l,
             high = Some h /\ low = Some l
             /\ In h closes /\ In l closes
             /\ Forall (fun c => l <= c /\ c <= h) closes
       end.
Proof.
  unfold get_historical_price, bind.
  destruct (requests_get_with_retry env AggsEndpoint ticker log)
    as [l1 [resp | e]]; [| discriminate].
  destruct (json resp) as [st rs | vs | c | closes] eqn:Ej;
    unfold raise; try discriminate.
  destruct closes as [| c cs]; unfold ret; intro H; inversion H; subst.
  - exists resp, []. split; [reflexivity |]. split; [exact Ej |].
    split; reflexivity.
  - exists resp, (c :: cs). split; [reflexivity |]. split; [exact Ej |].
    destruct (py_max_bounds cs c) as (M1 & M2 & M3).
    destruct (py_min_bounds cs c) as (N1 & N2 & N3).
    exists (py_max c cs), (py_min c cs).
    repeat split; try assumption.
    constructor; [split; assumption |].
    rewrite Forall_forall in *. intros x Hx. split; auto.
Qed.

(** X4 at closes 100, 90, 95. *)
Lemma get_historical_price_range_example :
  exists resp closes,
    requests_get_with_retry env_up AggsEndpoint "B" []
    = ([HttpGet AggsEndpoint "B"], Ok resp)
    /\ json resp = JResults closes
    /\ match closes with
       | [] => Some 100 = None /\ Some 90 = None
       | _ :: _ =>
           exists h l,
             Some 100 = Some h /\ Some 90 = Some l
             /\ In h closes /\ In l closes
             /\ Forall (fun c => l <= c /\ c <= h) closes
       end.
Proof.
  apply (get_historical_price_range env_up "B" []
           [HttpGet AggsEndpoint "B"] (Some 100) (Some 90)).
  vm_compute. reflexivity.
Defined.

(** ** Reading the model's answer: lines 204-210 *)

Lemma rstrip_all_space (s : string) : all_space s = true -> rstrip s = "".
Proof.
  induction s as [| c rest IH]; cbn [all_space rstrip]; [reflexivity |].
  intro H. apply andb_true_iff in H. destruct H as [Hc Hr].
  rewrite (IH Hr), Hc. reflexivity.
Qed.

Lemma lstrip_all_space_app (ws s : string) :
  all_space ws = true -> lstrip (ws ++ s)%string = lstrip s.
Proof.
  induction ws as [| c rest IH]; cbn [all_space append lstrip]; [reflexivity |].
  intro H. apply andb_true_iff in H. destruct H as [Hc Hr].
  rewrite Hc. exact (IH Hr).
Qed.

(** Trimming on the right does not reach into a prefix that ends in a
    character other than whitespace. *)
Lemma rstrip_app_trimmed (a b : string) :
  a <> "" -> rstrip a = a -> rstrip (a ++ b)%string = (a ++ rstrip b)%string.
Proof.
  induction a as [| c a' IH]; [congruence |].
  intros _ Ha. cbn [append rstrip] in *.
  destruct a' as [| c' a''].
  - cbn [append rstrip] in *.
    destruct (is_space c); [discriminate |].
    destruct (rstrip b); reflexivity.
  - assert (Ha' : rstrip (String c' a'') = String c' a'').
    { destruct (rstrip (String c' a'')) as [| d r] eqn:E.
      - destruct (is_space c); discriminate.
      - inversion Ha. reflexivity. }
    rewrite (IH ltac:(discriminate) Ha').
    cbn [append]. reflexivity.
Qed.

Lemma first_line_app (a b : string) :
  first_line a = a ->
  first_line (a ++ b)%string = (a ++ first_line b)%string.
Proof.
  induction a as [| c a' IH]; cbn [append first_line]; [reflexivity |].
  destruct (Ascii.eqb c "010"%char); [discriminate |].
  intro H. inversion H as [H']. rewrite H'. rewrite (IH H'). reflexivity.
Qed.

(** The first line of whitespace followed by anything that starts a new
    line is whitespace. *)
Lemma first_line_all_space (ws rest : string) :
  all_space ws = true ->
  all_space (first_line (ws ++ newline ++ rest)%string) = true
  /\ all_space (first_line ws) = true.
Proof.
  induction ws as [| c w IH]; cbn [all_space append first_line newline].
  - intros _. split; reflexivity.
  - intro H. apply andb_true_iff in H. destruct H as [Hc Hw].
    destruct (Ascii.eqb c "010"%char); [split; reflexivity |].
    cbn [all_space]. rewrite Hc. cbn [andb]. exact (IH Hw).
Qed.

(** What follows the label in an accepted answer: whitespace, then
    nothing or a line feed and anything. Its trimmed first line is
    empty. *)
Lemma first_line_rstrip_padding (ws rest : string) :
  all_space ws = true ->
  rstrip (first_line (rstrip ws)) = ""
  /\ rstrip (first_line (rstrip (ws ++ newline ++ rest)%string)) = "".
Proof.
  intro Hws. split.
  - rewrite (rstrip_all_space ws Hws). reflexivity.
  - apply rstrip_all_space.
    destruct (rstrip (newline ++ rest)%string) as [| d r] eqn:E.
    + assert (H : rstrip (ws ++ newline ++ rest)%string = "").
      { clear - Hws E. induction ws as [| c w IH]; cbn [append all_space] in *.
        - exact E.
        - apply andb_true_iff in Hws. destruct Hws as [Hc Hw].
          cbn [rstrip]. rewrite (IH Hw), Hc. reflexivity. }
      rewrite H. reflexivity.
    + assert (H : rstrip (ws ++ newline ++ rest)%string
                  = (ws ++ rstrip (newline ++ rest))%string).
      { clear - E. induction ws as [| c w IH]; cbn [append].
        - reflexivity.
        - cbn [rstrip]. rewrite IH.
          destruct (w ++ rstrip (newline ++ rest))%string eqn:F;
            [| reflexivity].
          destruct w; cbn [append] in F; [congruence | discriminate]. }
      rewrite H.
      assert (Hd : exists t, rstrip (newline ++ rest)%string = (newline ++ t)%string).
      { cbn [newline append rstrip] in *.
        destruct (rstrip rest); [discriminate | eexists; reflexivity]. }
      destruct Hd as [t ->].
      apply (first_line_all_space ws t Hws).
Qed.

Lemma canonical_label_facts (label : string) :
  In label canonical_labels ->
  label <> ""
  /\ rstrip label = label
  /\ first_line label = label
  /\ (forall s, lstrip (label ++ s)%string = (label ++ s)%string)
  /\ str_in label canonical_labels = true.
Proof.
  unfold canonical_labels. simpl In.
  intros [H | [H | [H | [H | [H | []]]]]]; subst label;
    (split; [discriminate |]); repeat split; reflexivity.
Qed.

Lemma gpt_label_padded (ws1 label tail : string) :
  all_space ws1 = true ->
  In label canonical_labels ->
  rstrip (first_line (rstrip tail)) = "" ->
  gpt_label (ws1 ++ label ++ tail)%string = label.
Proof.
  intros H1 Hl Ht.
  destruct (canonical_label_facts label Hl) as (Hne & Hr & Hf & Hls & Hin).
  unfold gpt_label, strip.
  rewrite (lstrip_all_space_app ws1 _ H1), Hls.
  rewrite (rstrip_app_trimmed label tail Hne Hr).
  rewrite (first_line_app label _ Hf), Hls.
  rewrite (rstrip_app_trimmed label _ Hne Hr), Ht.
  replace (label ++ "")%string with label
    by (clear; induction label as [| c l IH];
        [reflexivity | cbn [append]; rewrite <- IH; reflexivity]).
  rewrite Hin. reflexivity.
Qed.

(** X5. Whatever the model answers, the recorded label is one of the five
    canonical labels or UNKNOWN. An answer that is a canonical label
    padded with whitespace, alone or followed by further lines, is
    recorded as that label. *)
Theorem gpt_label_reads_first_line (ws1 label ws2 rest : string) :
  all_space ws1 = true -> all_space ws2 = true ->
  In label canonical_labels ->
  (forall content,
     In (gpt_label content) canonical_labels \/ gpt_label content = "UNKNOWN")
  /\ gpt_label (ws1 ++ label ++ ws2)%string = label
  /\ gpt_label (ws1 ++ label ++ ws2 ++ newline ++ rest)%string = label.
Proof.
  intros H1 H2 Hl.
  split; [| split].
  - intro content.
    destruct (gpt_label_cases content) as [[H _] | [H _]]; [left | right];
      exact H.
  - apply gpt_label_padded; try assumption.
    apply (first_line_rstrip_padding ws2 rest H2).
  - apply gpt_label_padded; try assumption.
    apply (first_line_rstrip_padding ws2 rest H2).
Qed.

(** X5 at the answer "  Very bad \n(the outlook is poor)". *)
Lemma gpt_label_reads_first_line_example :
  (forall content,
     In (gpt_label content) canonical_labels \/ gpt_label content = "UNKNOWN")
  /\ gpt_label ("  " ++ "Very bad" ++ " ")%string = "Very bad"
  /\ gpt_label ("  " ++ "Very bad" ++ " " ++ newline
                ++ "(the outlook is poor)")%string = "Very bad".
Proof.
  apply (gpt_label_reads_first_line "  " "Very bad" " "
           "(the outlook is poor)").
  - reflexivity.
  - reflexivity.
  - unfold canonical_labels. simpl. tauto.
Defined.

(** ** The lexicon strategy, row by row *)

Lemma vader_loop_labels (polarity : string -> Q) (rows : list news_row) :
  forall acc labels,
    vader_loop polarity rows acc = Ok labels
    <-> exists ls,
          labels = acc ++ ls
          /\ Forall2 (lexicon_label polarity) (filter usable rows) ls.
Proof.
  induction rows as [| r rest IH]; intros acc labels; cbn [vader_loop filter].
  - split.
    + intro H. inversion H; subst. exists []. rewrite app_nil_r.
      split; [reflexivity | constructor].
    + intros [ls [-> H]]. inversion H; subst. rewrite app_nil_r. reflexivity.
  - destruct (usable r); [| apply IH].
    split.
    + destruct (vader_label (polarity (article_text r))) as [l |] eqn:E;
        cbn [rbind]; [| discriminate].
      intro H. apply IH in H. destruct H as [ls [-> H]].
      exists (l :: ls). rewrite <- app_assoc. split; [reflexivity |].
      constructor; assumption.
    + intros [ls [-> H]]. inversion H as [| r' l ? ls' Hl Hrest]; subst.
      unfold lexicon_label in Hl. rewrite Hl. cbn [rbind].
      apply IH. exists ls'. rewrite <- app_assoc. split; [reflexivity | exact Hrest].
Qed.

Lemma vader_loop_ok_or_key_error (polarity : string -> Q)
    (rows : list news_row) :
  forall acc,
    (exists labels, vader_loop polarity rows acc = Ok labels)
    \/ vader_loop polarity rows acc = Raise KeyError.
Proof.
  induction rows as [| r rest IH]; intro acc; cbn [vader_loop].
  - left. eexists. reflexivity.
  - destruct (usable r); [| apply IH].
    destruct (vader_label_ok_or_key_error (polarity (article_text r)))
      as [[l Hl] | Hk].
    + rewrite Hl. cbn [rbind]. apply IH.
    + rewrite Hk. right. reflexivity.
Qed.

(** X6. The lexicon analysis of a ticker returns exactly the labels of
    the ticker's usable rows (non-empty title and description), one per
    row and in table order. It returns if and only if every usable row
    has its compound score in [-1, 1); otherwise it raises [KeyError]
    and gives no label at all. *)
Theorem vader_sentiment_analysis_labels (polarity : string -> Q)
    (db : list news_row) (ticker : string) :
  (forall labels,
     vader_sentiment_analysis polarity db ticker = Ok labels
     <-> Forall2 (lexicon_label polarity)
           (filter usable (get_news_from_db db ticker)) labels)
  /\ ((exists labels, vader_sentiment_analysis polarity db ticker = Ok labels)
      <-> Forall (fun r => -1 <= polarity (article_text r) < 1)
            (filter usable (get_news_from_db db ticker)))
  /\ ((exists labels, vader_sentiment_analysis polarity db ticker = Ok labels)
      \/ vader_sentiment_analysis polarity db ticker = Raise KeyError).
Proof.
  unfold vader_sentiment_analysis.
  set (rows := get_news_from_db db ticker).
  assert (H1 : forall labels,
             vader_loop polarity rows [] = Ok labels
             <-> Forall2 (lexicon_label polarity) (filter usable rows) labels).
  { intro labels. rewrite vader_loop_labels. cbn [app]. split.
    - intros [ls [-> H]]. exact H.
    - intro H. exists labels. split; [reflexivity | exact H]. }
  split; [exact H1 |]. split; [| apply vader_loop_ok_or_key_error].
  split.
  - intros [labels H]. apply H1 in H. clear H1. revert labels H.
    generalize (filter usable rows) as us. intros us labels H.
    induction H as [| r l rs ls Hl _ IH]; constructor; [| exact IH].
    unfold lexicon_label in Hl.
    destruct (Qlt_le_dec (polarity (article_text r)) (-1)) as [C | C].
    + assert (K : vader_label (polarity (article_text r)) = Raise KeyError)
        by (apply vader_label_bins; left; exact C).
      congruence.
    + destruct (Qlt_le_dec (polarity (article_text r)) 1) as [D | D];
        [split; assumption |].
      assert (K : vader_label (polarity (article_text r)) = Raise KeyError)
        by (apply vader_label_bins; right; exact D).
      congruence.
  - intro H.
    assert (exists labels,
              Forall2 (lexicon_label polarity) (filter usable rows) labels)
      as [labels HL].
    { clear H1. revert H. generalize (filter usable rows) as us.
      intros us H. induction H as [| r rs Hr _ [ls IH]].
      - exists []. constructor.
      - destruct (vader_label_total _ Hr) as [l [Hl _]].
        exists (l :: ls). constructor; assumption. }
    exists labels. apply H1. exact HL.
Qed.

(** ** The budget of the generative strategy *)

Lemma chat_calls_app (a b : Log) :
  chat_calls (a ++ b) = (chat_calls a + chat_calls b)%nat.
Proof. unfold chat_calls. rewrite filter_app, length_app. reflexivity. Qed.

Lemma delays_app (a b : Log) : delays (a ++ b) = delays a ++ delays b.
Proof. unfold delays. apply flat_map_app. Qed.

Lemma requests_app (a b : Log) : requests (a ++ b) = requests a ++ requests b.
Proof. unfold requests. apply filter_app. Qed.

(** One article: every unit of budget spent is one model call; between
    calls the loop sleeps [retry_delay] and nothing else; a label is
    appended only after a call. *)
Lemma gpt_attempts_budget (chat : string -> string -> nat -> chat_reply)
    (ticker text : string) (retry_delay : Z) (max_retries : nat) :
  forall calls scores log,
  exists max_retries' calls' scores' tail,
    gpt_attempts chat ticker text retry_delay max_retries calls scores log
    = (log ++ tail, Ok (max_retries', calls', scores'))
    /\ (chat_calls tail + max_retries' = max_retries)%nat
    /\ Forall (fun d => d = retry_delay) (delays tail)
    /\ (List.length (delays tail) <= chat_calls tail)%nat
    /\ requests tail = []
    /\ (List.length scores' <= List.length scores + chat_calls tail)%nat.
Proof.
  induction max_retries as [| m IH]; intros calls scores log.
  - exists 0%nat, calls, scores, []. cbn. unfold ret. rewrite app_nil_r.
    repeat split; try constructor; lia.
  - cbn [gpt_attempts]. unfold bind at 1. unfold emit at 1.
    destruct (chat ticker text calls) as [| content].
    + unfold bind at 1. unfold emit at 1.
      destruct m as [| m'].
      * cbn [Nat.ltb Nat.leb gpt_attempts ret].
        exists 0%nat, (S calls), (scores ++ ["Error"]),
          [ChatCompletion ticker text; Print MsgGptError].
        rewrite <- app_assoc. split; [reflexivity |].
        rewrite length_app. cbn. repeat split; try constructor; lia.
      * change (0 <? S m')%nat with true. cbv iota.
        unfold bind at 1. unfold emit at 1.
        destruct (IH (S calls) scores
                    (((log ++ [ChatCompletion ticker text])
                      ++ [Print MsgGptError]) ++ [Sleep retry_delay]))
          as (m2 & c2 & s2 & t2 & Heq & Hb & Hd & Hn & Hr & Hl).
        exists m2, c2, s2,
          ([ChatCompletion ticker text; Print MsgGptError; Sleep retry_delay]
           ++ t2).
        rewrite Heq. rewrite <- !app_assoc. split; [reflexivity |].
        rewrite chat_calls_app, delays_app, requests_app.
        cbn. repeat split; try lia; try assumption.
        constructor; [reflexivity | exact Hd].
    + unfold ret.
      exists m, (S calls), (scores ++ [gpt_label content]),
        [ChatCompletion ticker text].
      split; [reflexivity |]. rewrite length_app. cbn.
      repeat split; try constructor; lia.
Qed.

Lemma gpt_loop_budget (chat : string -> string -> nat -> chat_reply)
    (ticker : string) (retry_delay : Z) (rows : list news_row) :
  forall max_retries calls scores log,
  exists labels tail,
    gpt_loop chat ticker retry_delay rows max_retries calls scores log
    = (log ++ tail, Ok labels)
    /\ (chat_calls tail <= max_retries)%nat
    /\ Forall (fun d => d = retry_delay) (delays tail)
    /\ (List.length (delays tail) <= chat_calls tail)%nat
    /\ requests tail = []
    /\ (List.length labels <= List.length scores + chat_calls tail)%nat.
Proof.
  induction rows as [| r rest IH]; intros m c s log.
  - exists s, []. cbn. unfold ret. rewrite app_nil_r.
    repeat split; try constructor; lia.
  - cbn [gpt_loop]. destruct (usable r); [| apply IH].
    unfold bind.
    destruct (gpt_attempts_budget chat ticker (article_text r) retry_delay
                m c s log)
      as (m1 & c1 & s1 & t1 & Heq & Hb & Hd & Hn & Hr & Hl).
    rewrite Heq.
    destruct (IH m1 c1 s1 (log ++ t1))
      as (labels & t2 & Heq2 & Hb2 & Hd2 & Hn2 & Hr2 & Hl2).
    exists labels, (t1 ++ t2). rewrite Heq2, <- app_assoc.
    split; [reflexivity |].
    rewrite chat_calls_app, delays_app, requests_app, length_app, Hr, Hr2.
    repeat split; try lia.
    apply Forall_app. split; assumption.
Qed.

(** X7. The generative analysis of a ticker always returns. Whatever the
    model replies, it makes at most [max_retries] model calls for the
    whole ticker, never a provider request, sleeps only between model
    calls and always exactly [retry_delay], and records a label only
    after a model call, so never more labels than calls; every label is
    one of the seven. *)
Theorem gpt_sentiment_analysis_budget
    (chat : string -> string -> nat -> chat_reply) (db : list news_row)
    (ticker : string) (max_retries : nat) (retry_delay : Z) (log : Log) :
  exists labels tail,
    gpt_sentiment_analysis chat db ticker max_retries retry_delay log
    = (log ++ tail, Ok labels)
    /\ (chat_calls tail <= max_retries)%nat
    /\ (List.length labels <= chat_calls tail)%nat
    /\ Forall (fun d => d = retry_delay) (delays tail)
    /\ (List.length (delays tail) <= chat_calls tail)%nat
    /\ requests tail = []
    /\ Forall (fun l => In l label_set) labels.
Proof.
  unfold gpt_sentiment_analysis.
  destruct (gpt_loop_budget chat ticker retry_delay
              (get_news_from_db db ticker) max_retries 0 [] log)
    as (labels & tail & Heq & Hb & Hd & Hn & Hr & Hl).
  exists labels, tail. cbn in Hl.
  repeat split; try assumption.
  eapply gpt_loop_in_label_set; [constructor | exact Heq].
Qed.

(** ** Dictionaries and [add_article_to_tickers] *)

Lemma dict_get_set_same {V : Type} (d : dict V) (k : string) (v : V) :
  dict_get (dict_set d k v) k = Ok v.
Proof. cbn. rewrite String.eqb_refl. reflexivity. Qed.

Lemma dict_get_set_other {V : Type} (d : dict V) (k k' : string) (v : V) :
  k <> k' -> dict_get (dict_set d k v) k' = dict_get d k'.
Proof.
  intro H. cbn. destruct (String.eqb k k') eqn:E; [| reflexivity].
  apply String.eqb_eq in E. contradiction.
Qed.

Lemma dict_mem_false {V : Type} (d : dict V) (k : string) :
  dict_mem d k = false <-> forall v, dict_get d k <> Ok v.
Proof.
  unfold dict_mem. destruct (dict_get d k) as [v | e]; split; intro H.
  - discriminate.
  - exfalso. apply (H v). reflexivity.
  - intros v. discriminate.
  - reflexivity.
Qed.

(** One turn of the loop: the list of a key that is there gets the
    article; a key that is not there gets a new list with the article. *)
Lemma add_article_loop_cons (a : article_dict) (ticker : string)
    (rest : list string) (h : heap article_dict) (d : dict address) :
  add_article_loop a (ticker :: rest) (h, d)
  = match dict_get d ticker with
    | Ok l => add_article_loop a rest (fst (list_append l a h), d)
    | Raise _ =>
        add_article_loop a rest
          (fst (list_append (next h) a (fst (new_list h))),
           dict_set d ticker (next h))
    end.
Proof.
  cbn [add_article_loop].
  unfold bind, in_dict, in_heap, zoom, gets, modify, ret, dict_mem, new_list,
    list_append.
  cbn [fst snd].
  destruct (dict_get d ticker) as [l | e] eqn:E; cbn [fst snd].
  - rewrite E. reflexivity.
  - rewrite dict_get_set_same. reflexivity.
Qed.

Lemma add_article_loop_lists (a : article_dict) (tickers : list string) :
  forall h d,
    allocated h d ->
    exists h' d',
      add_article_loop a tickers (h, d) = ((h', d'), Ok tt)
      /\ allocated h' d'
      /\ (next h <= next h')%nat
      /\ (forall k l, dict_get d k = Ok l -> dict_get d' k = Ok l)
      /\ (forall k, In k tickers -> exists l, dict_get d' k = Ok l)
      /\ (forall k l,
            dict_get d' k = Ok l ->
            dict_get d k = Ok l
            \/ (dict_mem d k = false /\ In k tickers /\ (next h <= l)%nat
                /\ forall k', dict_get d' k' = Ok l -> k' = k))
      /\ (forall l,
            (l < next h')%nat ->
            contents h' l
            = held_before h l
              ++ repeat a (List.length (filter (holds d' l) tickers))).
Proof.
  induction tickers as [| t0 rest IH]; intros h d Hal.
  - exists h, d. split; [reflexivity |]. split; [exact Hal |].
    split; [lia |]. split; [auto |]. split; [intros k []|].
    split; [intros k l Hk; left; exact Hk |].
    intros l Hl. unfold held_before. cbn [filter List.length repeat].
    apply Nat.ltb_lt in Hl. rewrite Hl, app_nil_r. reflexivity.
  - rewrite add_article_loop_cons.
    destruct (dict_get d t0) as [l0 | e] eqn:E0.
    + (* the key is there *)
      pose proof (Hal t0 l0 E0) as Hl0.
      destruct (IH (fst (list_append l0 a h)) d)
        as (h' & d' & Heq & Hal' & Hn & I2 & I3 & I4 & I5);
        [exact Hal |].
      cbn [list_append modify fst next] in Hn, I4, I5.
      exists h', d'. split; [exact Heq |]. split; [exact Hal' |].
      split; [exact Hn |]. split; [exact I2 |].
      split.
      { intros k [<- | Hin]; [exists l0; apply I2; exact E0 | apply I3; exact Hin]. }
      split.
      { intros k l Hk. destruct (I4 k l Hk) as [H | (Hm & Hin & Hge & Hu)];
          [left; exact H |].
        right. repeat split; try assumption. right. exact Hin. }
      intros l Hl. rewrite (I5 l Hl). unfold held_before.
      cbn [list_append modify fst next contents filter].
      unfold holds at 2. rewrite (I2 t0 l0 E0).
      destruct (Nat.eqb_spec l l0) as [-> | Hne].
      * apply Nat.ltb_lt in Hl0. rewrite Hl0, Nat.eqb_refl.
        cbn [List.length repeat]. rewrite <- app_assoc. reflexivity.
      * assert (Hne' : (l0 =? l)%nat = false) by (apply Nat.eqb_neq; lia).
        rewrite Hne'. reflexivity.
    + (* the key is new *)
      assert (Hfresh : forall k l, dict_get d k = Ok l -> l <> next h).
      { intros k l Hk. pose proof (Hal k l Hk). lia. }
      destruct (IH (fst (list_append (next h) a (fst (new_list h))))
                  (dict_set d t0 (next h)))
        as (h' & d' & Heq & Hal' & Hn & I2 & I3 & I4 & I5).
      { intros k l. cbn [list_append modify fst next new_list].
        destruct (string_dec t0 k) as [<- | Hne].
        - rewrite dict_get_set_same. intro H. inversion H. lia.
        - rewrite dict_get_set_other by exact Hne. intro H.
          pose proof (Hal k l H). lia. }
      cbn [list_append modify fst next new_list] in Hn, I4, I5.
      assert (Ht0 : dict_get d' t0 = Ok (next h))
        by (apply I2; apply dict_get_set_same).
      assert (Hold : forall k l, dict_get d k = Ok l -> k <> t0).
      { intros k l Hk ->. congruence. }
      exists h', d'. split; [exact Heq |]. split; [exact Hal' |].
      split; [lia |].
      split.
      { intros k l Hk. apply I2.
        rewrite dict_get_set_other; [exact Hk |].
        intro Heq'. apply (Hold k l Hk). symmetry. exact Heq'. }
      split.
      { intros k [<- | Hin]; [exists (next h); exact Ht0 | apply I3; exact Hin]. }
      assert (Hown : forall k', dict_get d' k' = Ok (next h) -> k' = t0).
      { intros k' Hk'. destruct (I4 k' _ Hk') as [H | (_ & _ & Hge & _)];
          [| lia].
        destruct (string_dec t0 k') as [<- | Hne]; [reflexivity |].
        rewrite dict_get_set_other in H by exact Hne.
        exfalso. exact (Hfresh _ _ H eq_refl). }
      split.
      { intros k l Hk. destruct (I4 k l Hk) as [H | (Hm & Hin & Hge & Hu)].
        - destruct (string_dec t0 k) as [<- | Hne].
          + rewrite dict_get_set_same in H. inversion H; subst l.
            right. split; [unfold dict_mem; rewrite E0; reflexivity |].
            split; [left; reflexivity |]. split; [lia | exact Hown].
          + rewrite dict_get_set_other in H by exact Hne. left. exact H.
        - right.
          assert (Hne : t0 <> k).
          { intros <-. unfold dict_mem in Hm.
            rewrite dict_get_set_same in Hm. discriminate. }
          unfold dict_mem in Hm. rewrite dict_get_set_other in Hm by exact Hne.
          split; [exact Hm |]. split; [right; exact Hin |].
          split; [lia | exact Hu]. }
      intros l Hl. rewrite (I5 l Hl). unfold held_before.
      cbn [list_append modify fst next new_list contents filter].
      unfold holds at 2. rewrite Ht0.
      destruct (Nat.eqb_spec l (next h)) as [-> | Hne].
      * rewrite Nat.eqb_refl.
        assert (H1 : (next h <? S (next h))%nat = true)
          by (apply Nat.ltb_lt; lia).
        assert (H2 : (next h <? next h)%nat = false)
          by (apply Nat.ltb_ge; lia).
        rewrite H1, H2. cbn [List.length repeat app]. reflexivity.
      * assert (Hne' : (next h =? l)%nat = false) by (apply Nat.eqb_neq; lia).
        rewrite Hne'.
        destruct (Nat.ltb_spec l (next h)) as [Hlt | Hge].
        -- assert (H1 : (l <? S (next h))%nat = true)
             by (apply Nat.ltb_lt; lia).
           rewrite H1. reflexivity.
        -- assert (H1 : (l <? S (next h))%nat = false)
             by (apply Nat.ltb_ge; lia).
           rewrite H1. reflexivity.
Qed.

(** X8. [add_article_to_tickers] fails with [KeyError], leaving the
    dictionary and its lists as they were, when the article has no
    'tickers' key. Otherwise it returns. Every key that was there still
    holds the list object it held, every named ticker is a key, and a
    key that was not there was named and holds a list object of its
    own, made by the call. The list objects are updated in place: each
    one has what it held before followed by one copy of the article for
    every entry of 'tickers' whose key holds it, so a list that two keys
    share takes the copies of both, also under the key that the article
    does not name. *)
Theorem add_article_to_tickers_lookup (article : tagged_article)
    (h : heap article_dict) (ticker_articles : dict address) :
  allocated h ticker_articles ->
  match t_tickers article with
  | None =>
      add_article_to_tickers article (h, ticker_articles)
      = ((h, ticker_articles), Raise KeyError)
  | Some tickers =>
      exists h' updated,
        add_article_to_tickers article (h, ticker_articles)
        = ((h', updated), Ok tt)
        /\ (forall k l,
              dict_get ticker_articles k = Ok l -> dict_get updated k = Ok l)
        /\ (forall k, In k tickers -> dict_mem updated k = true)
        /\ (forall k l,
              dict_get updated k = Ok l ->
              dict_mem ticker_articles k = false ->
              In k tickers /\ (next h <= l)%nat
              /\ forall k', dict_get updated k' = Ok l -> k' = k)
        /\ (forall k l,
              dict_get updated k = Ok l ->
              contents h' l
              = held_before h l
                ++ repeat (make_article_dict article)
                     (List.length (filter (holds updated l) tickers)))
  end.
Proof.
  intro Hal. unfold add_article_to_tickers.
  destruct (t_tickers article) as [tickers |]; [| reflexivity].
  destruct (add_article_loop_lists (make_article_dict article) tickers
              h ticker_articles Hal)
    as (h' & d' & Heq & Hal' & Hn & I2 & I3 & I4 & I5).
  exists h', d'. split; [exact Heq |]. split; [exact I2 |].
  split.
  { intros k Hin. destruct (I3 k Hin) as [l Hl]. unfold dict_mem.
    rewrite Hl. reflexivity. }
  split.
  { intros k l Hk Hm. destruct (I4 k l Hk) as [H | (_ & Hin & Hge & Hu)].
    - unfold dict_mem in Hm. rewrite H in Hm. discriminate.
    - repeat split; assumption. }
  intros k l Hk. apply I5. exact (Hal' k l Hk).
Qed.

(** X8 with "A" and "B" holding one list and an article tagged "A" and
    "C": the list of "B" takes the article too, and "C" gets a list of
    its own. *)
Lemma add_article_to_tickers_lookup_example :
  exists h' updated,
    add_article_to_tickers article_for_A_and_C (shared_heap, shared_dict)
    = ((h', updated), Ok tt)
    /\ (forall k l, dict_get shared_dict k = Ok l -> dict_get updated k = Ok l)
    /\ (forall k, In k ["A"; "C"] -> dict_mem updated k = true)
    /\ (forall k l,
          dict_get updated k = Ok l ->
          dict_mem shared_dict k = false ->
          In k ["A"; "C"] /\ (next shared_heap <= l)%nat
          /\ forall k', dict_get updated k' = Ok l -> k' = k)
    /\ (forall k l,
          dict_get updated k = Ok l ->
          contents h' l
          = held_before shared_heap l
            ++ repeat (make_article_dict article_for_A_and_C)
                 (List.length (filter (holds updated l) ["A"; "C"]))).
Proof.
  apply (add_article_to_tickers_lookup article_for_A_and_C shared_heap
           shared_dict).
  intros k l. unfold shared_dict. cbn [dict_get].
  destruct (String.eqb "A" k); [intro H; inversion H; cbn; lia |].
  destruct (String.eqb "B" k); [intro H; inversion H; cbn; lia |].
  discriminate.
Defined.

(** ** News table: [get_stock_news] and [get_news_from_db] *)

Lemma get_news_from_db_app (db added : list news_row) (ticker : string) :
  get_news_from_db (db ++ added) ticker
  = get_news_from_db db ticker ++ get_news_from_db added ticker.
Proof. unfold get_news_from_db. apply filter_app. Qed.

Lemma get_news_from_db_own (env : Env) (ticker : string) (rs : list article) :
  get_news_from_db (map (news_row_of env ticker) rs) ticker
  = map (news_row_of env ticker) rs.
Proof.
  unfold get_news_from_db.
  induction rs as [| a rest IH]; cbn [map filter]; [reflexivity |].
  cbn [news_row_of row_ticker]. rewrite String.eqb_refl, IH. reflexivity.
Qed.

Lemma get_news_from_db_foreign (env : Env) (ticker other : string)
    (rs : list article) :
  other <> ticker ->
  get_news_from_db (map (news_row_of env ticker) rs) other = [].
Proof.
  intro Hne. unfold get_news_from_db.
  induction rs as [| a rest IH]; cbn [map filter]; [reflexivity |].
  cbn [news_row_of row_ticker].
  destruct (String.eqb ticker other) eqn:E; [| exact IH].
  apply String.eqb_eq in E. congruence.
Qed.

(** The loop over the provider's items stores the objects before the
    first item that is no object, and gets to its end exactly when
    there is no such item. *)
Lemma save_news_items_cases (env : Env) (ticker : string)
    (results : list news_item) :
  forall db,
  exists stored,
    fst (save_news_items env ticker results db)
    = db ++ map (news_row_of env ticker) stored
    /\ ((snd (save_news_items env ticker results db) = Ok stored
         /\ results = map JObject stored)
        \/ (snd (save_news_items env ticker results db) = Raise AttributeError
            /\ exists rest, results = map JObject stored ++ JOther :: rest)).
Proof.
  induction results as [| [a |] rest IH]; intro db; cbn [save_news_items].
  - exists []. cbn. rewrite app_nil_r. split; [reflexivity |].
    left. split; reflexivity.
  - destruct (IH (db ++ [news_row_of env ticker a])) as (stored & Hdb & Hr).
    exists (a :: stored). unfold bind, modify, ret. cbv beta iota.
    destruct (save_news_items env ticker rest (db ++ [news_row_of env ticker a]))
      as [db1 [saved | e]]; cbn [fst snd map] in *; subst db1;
      rewrite <- app_assoc; (split; [reflexivity |]).
    + destruct Hr as [[Hs ->] | [Hs _]]; [| discriminate].
      inversion Hs; subst. left. split; reflexivity.
    + destruct Hr as [[Hs _] | [Hs [rest' ->]]]; [discriminate |].
      inversion Hs; subst. right. split; [reflexivity |].
      exists rest'. reflexivity.
  - exists []. cbn. rewrite app_nil_r. split; [reflexivity |].
    right. split; [reflexivity |]. exists rest. reflexivity.
Qed.

(** [get_stock_news] only appends rows, and only rows of its ticker. *)
Lemma get_stock_news_added (env : Env) (ticker : string)
    (db db' : list news_row) (log log' : Log) (r : result (list article)) :
  get_stock_news env ticker (db, log) = ((db', log'), r) ->
  exists rs,
    db' = db ++ map (news_row_of env ticker) rs
    /\ (forall news, r = Ok news -> news = rs)
    /\ (forall e,
          r = Raise e ->
          (e = KeyError /\ rs = [])
          \/ (e = AttributeError
              /\ exists resp status rest,
                   polygon env NewsEndpoint ticker 1 = HttpResponse resp
                   /\ json resp
                      = JNews (Some status)
                          (Some (map JObject rs ++ JOther :: rest)))).
Proof.
  unfold get_stock_news.
  assert (Hnone : forall x : result (list article),
            (x = Ok [] \/ x = Raise KeyError) ->
            exists rs,
              db = db ++ map (news_row_of env ticker) rs
              /\ (forall news, x = Ok news -> news = rs)
              /\ (forall e,
                    x = Raise e ->
                    (e = KeyError /\ rs = [])
                    \/ (e = AttributeError
                        /\ exists resp status rest,
                             polygon env NewsEndpoint ticker 1 = HttpResponse resp
                             /\ json resp
                                = JNews (Some status)
                                    (Some (map JObject rs ++ JOther :: rest))))).
  { intros x Hx. exists []. cbn. rewrite app_nil_r.
    split; [reflexivity |]. split.
    - intros news E. destruct Hx as [-> | ->];
        [inversion E; reflexivity | discriminate].
    - intros e E. destruct Hx as [-> | ->]; [discriminate |].
      inversion E; subst. left. split; reflexivity. }
  destruct (polygon env NewsEndpoint ticker 1) as [| resp] eqn:Ep.
  - intro H. inversion H; subst. apply Hnone. left. reflexivity.
  - destruct (json resp) as [[st |] rs | vs | c | prices] eqn:Ej;
      try (intro H; inversion H; subst; apply Hnone; left; reflexivity).
    destruct (String.eqb st "OK");
      [| intro H; inversion H; subst; apply Hnone; left; reflexivity].
    destruct rs as [rs |];
      [| intro H; inversion H; subst; apply Hnone; right; reflexivity].
    destruct (save_news_items_cases env ticker rs db) as (stored & Hdb & Hr).
    destruct (save_news_items env ticker rs db) as [db1 saved].
    cbn [fst snd] in *. intro H. inversion H; subst. clear H.
    exists stored. split; [reflexivity |].
    destruct Hr as [[-> ->] | [-> [rest ->]]].
    + split; [intros news E; inversion E; reflexivity | discriminate].
    + split; [discriminate |]. intros e E. inversion E; subst. right.
      split; [reflexivity |]. exists resp, st, rest.
      split; [reflexivity | exact Ej].
Qed.

(** X9. A news fetch never removes or changes a stored row. It appends
    one row per article it stores, all under the fetched ticker, so that
    [get_news_from_db] afterwards gives the ticker's earlier rows
    followed by the new ones and gives every other ticker what it gave
    before. When the fetch returns, the stored articles are the returned
    ones. When it raises, it is with [KeyError] and nothing stored (no
    ['results'] in the reply), or with [AttributeError] at an item that
    is no object, and then the articles before that item stay stored. *)
Theorem get_stock_news_appends (env : Env) (ticker : string)
    (db db' : list news_row) (log log' : Log) (r : result (list article)) :
  get_stock_news env ticker (db, log) = ((db', log'), r) ->
  exists stored,
    db' = db ++ map (news_row_of env ticker) stored
    /\ Forall (fun row => row_ticker row = ticker)
         (map (news_row_of env ticker) stored)
    /\ get_news_from_db db' ticker
       = get_news_from_db db ticker ++ map (news_row_of env ticker) stored
    /\ (forall other,
          other <> ticker ->
          get_news_from_db db' other = get_news_from_db db other)
    /\ (forall news, r = Ok news -> news = stored)
    /\ (forall e,
          r = Raise e ->
          (e = KeyError /\ stored = [])
          \/ (e = AttributeError
              /\ exists resp status rest,
                   polygon env NewsEndpoint ticker 1 = HttpResponse resp
                   /\ json resp
                      = JNews (Some status)
                          (Some (map JObject stored ++ JOther :: rest)))).
Proof.
  intro H.
  destruct (get_stock_news_added _ _ _ _ _ _ _ H) as (rs & -> & Hok & Hex).
  exists rs.
  split; [reflexivity |]. split.
  { apply Forall_forall. intros row Hin. apply in_map_iff in Hin.
    destruct Hin as [a [<- _]]. reflexivity. }
  split; [rewrite get_news_from_db_app, get_news_from_db_own; reflexivity |].
  split.
  { intros other Hne.
    rewrite get_news_from_db_app, (get_news_from_db_foreign _ _ _ _ Hne).
    apply app_nil_r. }
  split; assumption.
Qed.

(** X9 at a fetch for "B" whose reply holds an article, then an item
    that is no object, then another article, into a table that holds a
    row of "C": the fetch raises, the first article stays stored and
    the last is never looked at. *)
Lemma get_stock_news_appends_example :
  exists stored,
    [example_row "C" "t0" "d0";
     news_row_of env_bad_item "B" (example_article "t1" "d1")]
    = [example_row "C" "t0" "d0"] ++ map (news_row_of env_bad_item "B") stored
    /\ Forall (fun row => row_ticker row = "B")
         (map (news_row_of env_bad_item "B") stored)
    /\ get_news_from_db
         [example_row "C" "t0" "d0";
          news_row_of env_bad_item "B" (example_article "t1" "d1")] "B"
       = get_news_from_db [example_row "C" "t0" "d0"] "B"
         ++ map (news_row_of env_bad_item "B") stored
    /\ (forall other,
          other <> "B" ->
          get_news_from_db
            [example_row "C" "t0" "d0";
             news_row_of env_bad_item "B" (example_article "t1" "d1")] other
          = get_news_from_db [example_row "C" "t0" "d0"] other)
    /\ (forall news,
          @Raise (list article) AttributeError = Ok news -> news = stored)
    /\ (forall e,
          @Raise (list article) AttributeError = Raise e ->
          (e = KeyError /\ stored = [])
          \/ (e = AttributeError
              /\ exists resp status rest,
                   polygon env_bad_item NewsEndpoint "B" 1 = HttpResponse resp
                   /\ json resp
                      = JNews (Some status)
                          (Some (map JObject stored ++ JOther :: rest)))).
Proof.
  apply (get_stock_news_appends env_bad_item "B"
           [example_row "C" "t0" "d0"] _ [] [HttpGet NewsEndpoint "B"]).
  vm_compute. reflexivity.
Defined.

(** ** Invariants of a run *)

Lemma preserves_weaken {S A : Type} (R R' : S -> S -> Prop) (m : M S A) :
  (forall s s', R s s' -> R' s s') -> preserves R m -> preserves R' m.
Proof. intros HR Hm s s' r H. apply HR. eapply Hm. exact H. Qed.

Lemma in_world_frame {A : Type} (m : M World A) (s s' : St) (r : result A) :
  in_world m s = (s', r) ->
  locals s' = locals s /\ m (world s) = (world s', r).
Proof.
  unfold in_world, zoom. destruct (m (world s)) as [w' r'] eqn:E.
  intro H. inversion H; subst. split; reflexivity.
Qed.

Lemma quiet_refl (s : St) : quiet s s.
Proof. repeat split. Qed.

Lemma quiet_trans (a b c : St) : quiet a b -> quiet b c -> quiet a c.
Proof.
  unfold quiet. intros (A1 & A2 & A3 & A4) (B1 & B2 & B3 & B4).
  repeat split; congruence.
Qed.

Lemma quiet_commits (s s' : St) : quiet s s' -> commits s s'.
Proof.
  intros (H1 & H2 & H3 & H4). exists []. cbn [map].
  rewrite !app_nil_r.
  split; [exact H1 |]. split; [exact H3 |]. split; [exact H4 |].
  split; [intros _; exact H2 | intro H; contradiction].
Qed.

Lemma commits_refl (s : St) : commits s s.
Proof. apply quiet_commits, quiet_refl. Qed.

Lemma commits_trans (a b c : St) : commits a b -> commits b c -> commits a c.
Proof.
  intros (x & A1 & A2 & A3 & A4 & A5) (y & B1 & B2 & B3 & B4 & B5).
  exists (x ++ y). rewrite B1, B2, B3, A1, A2, A3, !map_app, <- !app_assoc.
  repeat split.
  - intro H. apply app_eq_nil in H. destruct H as [Hx Hy].
    rewrite (B4 Hy). exact (A4 Hx).
  - intros Hne. destruct y as [| y0 ys].
    + rewrite (B4 eq_refl). cbn [map]. rewrite !app_nil_r in *.
      rewrite A5 by exact Hne. rewrite A2, A3. reflexivity.
    + rewrite B5 by discriminate. rewrite B2, B3, A2, A3.
      rewrite <- !app_assoc. reflexivity.
Qed.

Lemma news_grows_refl (s : St) : news_grows s s.
Proof. exists []. rewrite app_nil_r. reflexivity. Qed.

Lemma news_grows_trans (a b c : St) :
  news_grows a b -> news_grows b c -> news_grows a c.
Proof.
  intros [x Hx] [y Hy]. exists (x ++ y). rewrite Hy, Hx, app_assoc.
  reflexivity.
Qed.

Lemma keeps_ticker_refl (s : St) : keeps_ticker s s.
Proof. intro H. exact H. Qed.

Lemma keeps_ticker_trans (a b c : St) :
  keeps_ticker a b -> keeps_ticker b c -> keeps_ticker a c.
Proof. unfold keeps_ticker. auto. Qed.

(** A statement of [main] that is one lifted call: bring its effect on
    the state into the context. *)
Ltac leaf_effect H :=
  first
    [ apply in_log_frame in H; destruct H as [?Hl ?Hw]
    | apply in_news_frame in H; destruct H as (?Hl & ?Hp & ?Hs & ?Hr)
    | unfold in_locals, in_world, zoom, modify, gets, save_to_db, save_state,
        print_report in H;
      cbn in H; inversion H; subst; clear H ].

Ltac leaf_quiet :=
  let s := fresh "s" in let s' := fresh "s" in
  let r := fresh "r" in let H := fresh "H" in
  intros s s' r H; leaf_effect H; unfold quiet;
  repeat match goal with
    | E : world _ = _ |- _ => rewrite E; clear E
    | E : locals _ = _ |- _ => rewrite E; clear E
    end;
  cbn; repeat split; solve [reflexivity | assumption].

Ltac leaf_keeps_ticker :=
  let s := fresh "s" in let s' := fresh "s" in
  let r := fresh "r" in let H := fresh "H" in
  intros s s' r H; leaf_effect H; unfold keeps_ticker;
  repeat match goal with
    | E : locals _ = _ |- _ => rewrite E; clear E
    end;
  cbn; solve [auto | discriminate].

Ltac leaf_news_grows :=
  let s := fresh "s" in let s' := fresh "s" in
  let r := fresh "r" in let H := fresh "H" in
  intros s s' r H; leaf_effect H; exists [];
  repeat match goal with
    | E : world _ = _ |- _ => rewrite E; clear E
    end;
  cbn; rewrite ?app_nil_r; reflexivity.

(** Walk through a body built with [bind], [if] and [match], closing
    the lifted calls with [leaf] and the rest with [special]. *)
Ltac walk R_refl R_trans special leaf :=
  repeat first
    [ special
    | apply (preserves_bind _ R_trans)
    | apply (preserves_ret _ R_refl)
    | apply (preserves_of_result _ R_refl)
    | match goal with
      | |- forall _, _ => intro
      | |- preserves _ (if ?c then _ else _) => destruct c
      | |- preserves _ (match ?x with _ => _ end) => destruct x
      end
    | leaf ].

Lemma fetch_pass_body_quiet (env : Env) (it : nat * string) :
  preserves quiet (fetch_pass_body env it).
Proof.
  destruct it as [i ticker]. unfold fetch_pass_body, say.
  walk quiet_refl quiet_trans fail leaf_quiet.
Qed.

Lemma commit_ticker_commits (env : Env) (i : nat) (ticker : string)
    (vader_total gpt_total : Q) (high low : option Q) (score : Q)
    (recent rsi macd : option Q) :
  preserves commits
    (commit_ticker env i ticker vader_total gpt_total high low score
       recent rsi macd).
Proof.
  intros s s' r H.
  unfold commit_ticker, bind, in_world, in_locals, say, in_log, in_world, zoom,
    save_to_db, save_state, modify, gets, emit in H.
  cbn in H. inversion H; subst; clear H.
  eexists [_]. cbn. repeat split; try reflexivity. intro H. congruence.
Qed.

(** The commit block inside the body of the score pass. *)
Ltac commit_block :=
  idtac;
  match goal with
  | |- preserves commits
         (bind (in_world (save_to_db ?env ?t ?vt ?gt ?hi ?lo ?sc ?rp ?rsi ?macd))
            _) =>
      refine (commit_ticker_commits env _ t vt gt hi lo sc rp rsi macd)
  end.

Ltac leaf_commits :=
  apply (preserves_weaken quiet commits _ quiet_commits); leaf_quiet.

Lemma fetch_pass_body_commits (env : Env) (it : nat * string) :
  preserves commits (fetch_pass_body env it).
Proof.
  apply (preserves_weaken quiet commits _ quiet_commits).
  apply fetch_pass_body_quiet.
Qed.

Lemma score_pass_body_commits (env : Env) (it : nat * string) :
  preserves commits (score_pass_body env it).
Proof.
  destruct it as [i ticker]. unfold score_pass_body.
  walk commits_refl commits_trans commit_block ltac:(unfold say; leaf_commits).
Qed.

(** The one statement that writes to the news table. *)
Ltac news_block :=
  idtac;
  match goal with
  | |- preserves news_grows (in_news (get_stock_news ?env ?t)) =>
      let s := fresh "s" in let s' := fresh "s" in
      let r := fresh "r" in let H := fresh "H" in
      intros s s' r H; unfold in_news, in_world, zoom in H;
      destruct (get_stock_news env t
                  (w_news_articles (world s), w_log (world s)))
        as [[db' log'] r'] eqn:E;
      inversion H; subst; clear H;
      destruct (get_stock_news_added _ _ _ _ _ _ _ E) as (rs & Hdb & _);
      exists (map (news_row_of env t) rs); cbn; exact Hdb
  end.

Lemma fetch_pass_body_news_grows (env : Env) (it : nat * string) :
  preserves news_grows (fetch_pass_body env it).
Proof.
  destruct it as [i ticker]. unfold fetch_pass_body, say.
  walk news_grows_refl news_grows_trans news_block leaf_news_grows.
Qed.

Lemma score_pass_body_news_grows (env : Env) (it : nat * string) :
  preserves news_grows (score_pass_body env it).
Proof.
  destruct it as [i ticker]. unfold score_pass_body, say.
  walk news_grows_refl news_grows_trans fail leaf_news_grows.
Qed.

Lemma fetch_pass_body_keeps_ticker (env : Env) (it : nat * string) :
  preserves keeps_ticker (fetch_pass_body env it).
Proof.
  destruct it as [i ticker]. unfold fetch_pass_body, say.
  walk keeps_ticker_refl keeps_ticker_trans fail leaf_keeps_ticker.
Qed.

Lemma score_pass_body_keeps_ticker (env : Env) (it : nat * string) :
  preserves keeps_ticker (score_pass_body env it).
Proof.
  destruct it as [i ticker]. unfold score_pass_body, say.
  walk keeps_ticker_refl keeps_ticker_trans fail leaf_keeps_ticker.
Qed.

Lemma preserves_and {S A : Type} (R1 R2 : S -> S -> Prop) (m : M S A) :
  preserves R1 m -> preserves R2 m ->
  preserves (fun s s' => R1 s s' /\ R2 s s') m.
Proof. intros H1 H2 s s' r H. split; [eapply H1 | eapply H2]; exact H. Qed.

(** The head of [main]: nothing durable changes, no loop has run, and
    the ticker list is returned only after the checkpoint was read. *)
Lemma main_setup_summary (env : Env) (w : World) (s0 : St)
    (r0 : result (list string)) :
  main_setup env (initial w) = (s0, r0) ->
  (w_state_pkl (world s0) = w_state_pkl w
   /\ w_news_articles (world s0) = w_news_articles w
   /\ w_sentiment_scores (world s0) = w_sentiment_scores w
   /\ w_report_txt (world s0) = w_report_txt w)
  /\ l_ticker (locals s0) = None
  /\ (forall tickers,
        r0 = Ok tickers ->
        l_processed_tickers (locals s0) = checkpointed_tickers w
        /\ tickers_csv env = Ok tickers
        /\ w_state_pkl w <> Some Unreadable)
  /\ (forall e,
        r0 = Raise e ->
        w_state_pkl w = Some Unreadable
        \/ (exists ex, tickers_csv env = Raise ex)).
Proof.
  unfold main_setup, initial, bind, in_world, in_locals, say, in_log, in_world,
    zoom, main_load_state, read_state_pkl, of_result, modify, emit, ret,
    checkpointed_tickers.
  cbn [world locals].
  destruct (w_state_pkl w) as [[| p rd] |] eqn:E; cbn;
    destruct (tickers_csv env) as [ts | ex] eqn:Et; cbn;
    intro H; inversion H; subst; cbn;
    (split; [repeat split; solve [reflexivity | assumption] |]);
    (split; [reflexivity |]);
    (split;
     [ intros tickers Hr; inversion Hr; subst;
       repeat split; try reflexivity; discriminate
     | intros e Hr; inversion Hr; subst;
       first [left; reflexivity | right; eexists; reflexivity] ]).
Qed.

(** Every iteration of either loop starts by binding [ticker]. *)
Lemma loop_binds_ticker (body : nat * string -> M St unit)
    (its : list (nat * string)) (s s' : St) (r : result unit) :
  (forall it, preserves keeps_ticker (body it)) ->
  (forall it s1 s2 r1, body it s1 = (s2, r1) -> l_ticker (locals s2) <> None) ->
  its <> [] ->
  for_each body its s = (s', r) ->
  l_ticker (locals s') <> None.
Proof.
  intros Hk Hb Hne H. destruct its as [| it rest]; [congruence |].
  cbn [for_each] in H. unfold bind in H.
  destruct (body it s) as [s1 [[] | e]] eqn:E.
  - apply (preserves_for_each keeps_ticker keeps_ticker_refl keeps_ticker_trans
             body rest Hk) in H.
    apply H. eapply Hb. exact E.
  - inversion H; subst. eapply Hb. exact E.
Qed.

Lemma preserves_bind_then {S A B : Type} (R1 R2 : S -> S -> Prop)
    (m : M S A) (k : A -> M S B) :
  (forall a b c, R1 a b -> R2 b c -> R1 a c) ->
  preserves R1 m -> (forall a, preserves R2 (k a)) ->
  preserves R1 (bind m k).
Proof.
  intros Hc Hm Hk s s' r H. unfold bind in H.
  destruct (m s) as [s1 [a | e]] eqn:E.
  - eapply Hc; [eapply Hm; exact E | eapply Hk; exact H].
  - inversion H; subst. eapply Hm; exact E.
Qed.

Lemma fetch_pass_body_binds (env : Env) (it : nat * string) (s1 s2 : St)
    (r1 : result unit) :
  fetch_pass_body env it s1 = (s2, r1) -> l_ticker (locals s2) <> None.
Proof.
  destruct it as [i ticker]. revert s1 s2 r1.
  change (preserves (fun _ s2 => l_ticker (locals s2) <> None)
            (fetch_pass_body env (i, ticker))).
  unfold fetch_pass_body, say.
  apply (preserves_bind_then _ keeps_ticker).
  - intros a b c H1 H2. exact (H2 H1).
  - intros s s' r H. leaf_effect H. cbn. discriminate.
  - intros _.
    walk keeps_ticker_refl keeps_ticker_trans fail leaf_keeps_ticker.
Qed.

Lemma score_pass_body_binds (env : Env) (it : nat * string) (s1 s2 : St)
    (r1 : result unit) :
  score_pass_body env it s1 = (s2, r1) -> l_ticker (locals s2) <> None.
Proof.
  destruct it as [i ticker]. revert s1 s2 r1.
  change (preserves (fun _ s2 => l_ticker (locals s2) <> None)
            (score_pass_body env (i, ticker))).
  unfold score_pass_body, say.
  apply (preserves_bind_then _ keeps_ticker).
  - intros a b c H1 H2. exact (H2 H1).
  - intros s s' r H. leaf_effect H. cbn. discriminate.
  - intros _.
    walk keeps_ticker_refl keeps_ticker_trans fail leaf_keeps_ticker.
Qed.

Lemma enumerate1_nonempty {A : Type} (x : A) (xs : list A) :
  enumerate1 (x :: xs) <> [].
Proof. discriminate. Qed.

(** The fetch pass: fresh report rows, then provider calls only. *)
Lemma main_fetch_pass_summary (env : Env) (t : string) (rest : list string)
    (s0 s1 : St) (r1 : result unit) :
  main_fetch_pass env (t :: rest) s0 = (s1, r1) ->
  w_sentiment_scores (world s1) = w_sentiment_scores (world s0)
  /\ w_state_pkl (world s1) = w_state_pkl (world s0)
  /\ l_processed_tickers (locals s1) = l_processed_tickers (locals s0)
  /\ l_report_data (locals s1) = []
  /\ news_grows s0 s1
  /\ l_ticker (locals s1) <> None.
Proof.
  unfold main_fetch_pass.
  unfold bind at 1. unfold in_locals at 1, zoom, modify. cbn [world locals].
  unfold bind at 1. unfold in_locals at 1, zoom, modify. cbn [world locals].
  unfold bind at 1. unfold in_locals at 1, zoom, modify. cbn [world locals].
  unfold bind at 1. unfold in_locals at 1, zoom, modify. cbn [world locals].
  set (s0' := {| world := world s0;
                 locals := set_macd_data []
                             (set_rsi_data []
                                (set_news_data []
                                   (set_report_data [] (locals s0)))) |}).
  intro H.
  assert (Hq : quiet s0' s1).
  { revert H. apply (preserves_bind quiet quiet_trans);
      [unfold say; leaf_quiet |].
    intros _. apply (preserves_for_each quiet quiet_refl quiet_trans).
    apply fetch_pass_body_quiet. }
  assert (Hn : news_grows s0' s1).
  { revert H. apply (preserves_bind news_grows news_grows_trans);
      [unfold say; leaf_news_grows |].
    intros _.
    apply (preserves_for_each news_grows news_grows_refl news_grows_trans).
    apply fetch_pass_body_news_grows. }
  assert (Ht : l_ticker (locals s1) <> None).
  { unfold bind in H.
    destruct (say MsgImportingAll s0') as [sa [[] | e]] eqn:E.
    - eapply (loop_binds_ticker (fetch_pass_body env));
        [ apply fetch_pass_body_keeps_ticker
        | apply fetch_pass_body_binds
        | apply (enumerate1_nonempty t rest)
        | exact H ].
    - unfold say, in_log, in_world, zoom, emit in E. cbn in E. discriminate. }
  destruct Hq as (Q1 & Q2 & Q3 & Q4).
  repeat split; assumption.
Qed.

(** The score pass commits tickers one by one and touches nothing else. *)
Lemma main_score_pass_summary (env : Env) (t : string) (rest : list string)
    (s1 s2 : St) (r2 : result unit) :
  main_score_pass env (t :: rest) s1 = (s2, r2) ->
  commits s1 s2
  /\ news_grows s1 s2
  /\ same_report s1 s2
  /\ l_ticker (locals s2) <> None.
Proof.
  unfold main_score_pass. intro H.
  assert (Hc : commits s1 s2).
  { revert H. apply (preserves_bind commits commits_trans);
      [unfold say; leaf_commits |].
    intros _. apply (preserves_for_each commits commits_refl commits_trans).
    apply score_pass_body_commits. }
  assert (Hr : same_report s1 s2).
  { revert H. apply (preserves_bind same_report same_report_trans);
      [unfold say; apply in_log_same_report |].
    intros _.
    apply (preserves_for_each same_report same_report_refl same_report_trans).
    apply score_pass_body_same_report. }
  assert (Ht : l_ticker (locals s2) <> None).
  { unfold bind in H.
    destruct (say MsgConducting s1) as [sa [[] | e]] eqn:E.
    - eapply (loop_binds_ticker (score_pass_body env));
        [ apply score_pass_body_keeps_ticker
        | apply score_pass_body_binds
        | apply (enumerate1_nonempty t rest)
        | exact H ].
    - unfold say, in_log, in_world, zoom, emit in E. cbn in E. discriminate. }
  assert (Hn : news_grows s1 s2).
  { revert H. apply (preserves_bind news_grows news_grows_trans);
      [unfold say; leaf_news_grows |].
    intros _.
    apply (preserves_for_each news_grows news_grows_refl news_grows_trans).
    apply score_pass_body_news_grows. }
  repeat split; assumption.
Qed.

(** The tail of [main]: the report rows are sorted and written out. *)
Lemma main_report_summary (s2 : St) :
  exists s3,
    main_report s2 = (s3, Ok tt)
    /\ w_sentiment_scores (world s3) = w_sentiment_scores (world s2)
    /\ w_news_articles (world s3) = w_news_articles (world s2)
    /\ w_state_pkl (world s3) = w_state_pkl (world s2)
    /\ w_report_txt (world s3) = Some (sort_desc (l_report_data (locals s2))).
Proof.
  unfold main_report, bind, in_locals, in_world, zoom, modify, gets,
    print_report.
  cbn. eexists. split; [reflexivity |]. cbn. repeat split.
Qed.

(** What a run of [main] leaves behind, by the way it ended. *)
Lemma main_run_summary (env : Env) (w w' : World) (out : outcome) :
  main env w = (w', out) ->
  exists added news,
    w_sentiment_scores w' = w_sentiment_scores w ++ added
    /\ w_news_articles w' = w_news_articles w ++ news
    /\ (added = [] -> w_state_pkl w' = w_state_pkl w)
    /\ (added <> [] ->
        w_state_pkl w'
        = Some (Pickled (checkpointed_tickers w ++ map s_ticker added)
                  (map score_pair added)))
    /\ match out with
       | Returned NoTickers =>
           tickers_csv env = Ok []
           /\ w_state_pkl w <> Some Unreadable
           /\ added = [] /\ news = []
           /\ w_report_txt w' = w_report_txt w
       | Returned ReportDone =>
           (exists t rest, tickers_csv env = Ok (t :: rest))
           /\ w_state_pkl w <> Some Unreadable
           /\ w_report_txt w' = Some (sort_desc (map score_pair added))
       | Handled e =>
           (exists t rest, tickers_csv env = Ok (t :: rest))
           /\ w_state_pkl w <> Some Unreadable
           /\ w_report_txt w' = w_report_txt w
       | Escaped e =>
           e = UnboundLocalError
           /\ (w_state_pkl w = Some Unreadable
               \/ exists ex, tickers_csv env = Raise ex)
           /\ added = [] /\ news = []
           /\ w_report_txt w' = w_report_txt w
       end.
Proof.
  unfold main, main_try. unfold bind at 1.
  destruct (main_setup env {| world := w; locals := no_locals |})
    as [s0 r0] eqn:E0.
  destruct (main_setup_summary env w s0 r0 E0)
    as ((D1 & D2 & D3 & D4) & Ht0 & Hok & Hraise).
  destruct r0 as [tickers | e].
  - destruct (Hok tickers eq_refl) as (Hp & Hcsv & Hpkl).
    destruct tickers as [| t rest].
    + (* no tickers *)
      unfold bind, say, in_log, in_world, zoom, emit, ret. cbn.
      intro H. inversion H; subst; clear H. exists [], []. cbn.
      rewrite !app_nil_r. repeat split; try assumption; congruence.
    + unfold bind at 1.
      destruct (main_fetch_pass env (t :: rest) s0) as [s1 r1] eqn:E1.
      destruct (main_fetch_pass_summary env t rest s0 s1 r1 E1)
        as (F1 & F2 & F3 & F4 & [news Fn] & F5).
      pose proof (main_fetch_pass_same_report env (t :: rest) s0 s1 r1 E1)
        as Frep. unfold same_report in Frep.
      destruct r1 as [[] | e].
      * unfold bind at 1.
        destruct (main_score_pass env (t :: rest) s1) as [s2 r2] eqn:E2.
        destruct (main_score_pass_summary env t rest s1 s2 r2 E2)
          as ((added & C1 & C2 & C3 & C4 & C5) & [news2 Sn] & Srep & S5).
        unfold same_report in Srep.
        assert (Hpkl_nil : added = [] -> w_state_pkl (world s2) = w_state_pkl w)
          by (intro Ha; rewrite (C4 Ha); congruence).
        assert (Hpkl_cons :
                  added <> [] ->
                  w_state_pkl (world s2)
                  = Some (Pickled (checkpointed_tickers w ++ map s_ticker added)
                            (map score_pair added))).
        { intro Ha. rewrite (C5 Ha), C2, C3, F3, F4, Hp. reflexivity. }
        destruct r2 as [[] | e].
        -- (* report done *)
           destruct (main_report_summary s2) as (s3 & E3 & R1 & R2 & R3 & R4).
           unfold bind at 1. rewrite E3. unfold ret.
           intro H. inversion H; subst; clear H.
           exists added, (news ++ news2).
           rewrite R1, R2, R3, R4, C1, C3, F1, F4, Sn, Fn, D2, D3, app_assoc.
           cbn [app]. repeat split; try assumption.
           do 2 eexists; exact Hcsv.
        -- (* the score pass raised *)
           destruct (l_ticker (locals s2)) as [tk |] eqn:Etk; [| congruence].
           intro H. inversion H; subst; clear H.
           exists added, (news ++ news2). cbn.
           rewrite C1, F1, Sn, Fn, D2, D3, app_assoc.
           repeat split; try assumption; try congruence.
           do 2 eexists; exact Hcsv.
      * (* the fetch pass raised *)
        destruct (l_ticker (locals s1)) as [tk |] eqn:Etk; [| congruence].
        intro H. inversion H; subst; clear H.
        exists [], news. cbn. rewrite F1, Fn, D2, D3, app_nil_r.
        repeat split; try assumption; try congruence.
        do 2 eexists; exact Hcsv.
  - (* the head raised *)
    rewrite Ht0. intro H. inversion H; subst; clear H.
    exists [], []. rewrite !app_nil_r.
    repeat split; try assumption; try congruence.
    apply (Hraise e eq_refl).
Qed.

(** X11. Both tables are append-only over a run of [main], however the
    run ends: the news rows and the score rows that were there before
    are still there, unchanged and in place, followed by what the run
    added. *)
Theorem main_stores_append_only (env : Env) (w : World) :
  exists added news,
    w_sentiment_scores (fst (main env w)) = w_sentiment_scores w ++ added
    /\ w_news_articles (fst (main env w)) = w_news_articles w ++ news.
Proof.
  destruct (main env w) as [w' out] eqn:E.
  destruct (main_run_summary env w w' out E) as (added & news & H1 & H2 & _).
  exists added, news. split; assumption.
Qed.

(** X12. The checkpoint follows the score table, however the run ends.
    If the run appended no score row, [state.pkl] is untouched. If it
    appended rows, [state.pkl] holds the tickers that were checkpointed
    before followed by the tickers of the new rows, in order, together
    with the (ticker, score) pairs of the new rows. Either way the next
    run reads back the earlier tickers followed by the new ones, and a
    checkpoint that was readable stays readable. *)
Theorem main_checkpoint_follows_score_rows (env : Env) (w : World) :
  exists added,
    w_sentiment_scores (fst (main env w)) = w_sentiment_scores w ++ added
    /\ (added = [] -> w_state_pkl (fst (main env w)) = w_state_pkl w)
    /\ (added <> [] ->
        w_state_pkl (fst (main env w))
        = Some (Pickled (checkpointed_tickers w ++ map s_ticker added)
                  (map score_pair added)))
    /\ checkpointed_tickers (fst (main env w))
       = checkpointed_tickers w ++ map s_ticker added
    /\ (w_state_pkl w <> Some Unreadable ->
        w_state_pkl (fst (main env w)) <> Some Unreadable).
Proof.
  destruct (main env w) as [w' out] eqn:E.
  destruct (main_run_summary env w w' out E)
    as (added & news & H1 & _ & H3 & H4 & _).
  exists added. cbn [fst]. split; [exact H1 |].
  split; [exact H3 |]. split; [exact H4 |].
  destruct added as [| a rest].
  - unfold checkpointed_tickers. rewrite (H3 eq_refl). cbn [map].
    rewrite app_nil_r. split; [reflexivity | auto].
  - unfold checkpointed_tickers at 1. rewrite H4 by discriminate.
    split; [reflexivity | intros _; discriminate].
Qed.

(** X13. [report.txt] is written only by a run that gets to the end of
    both passes. Such a run writes the (ticker, score) pairs of exactly
    the score rows it appended itself, each once, in descending order of
    score; every other run leaves the file as it was. *)
Theorem main_report_lists_the_rows_of_the_run (env : Env) (w : World) :
  exists added,
    w_sentiment_scores (fst (main env w)) = w_sentiment_scores w ++ added
    /\ match snd (main env w) with
       | Returned ReportDone =>
           exists rows,
             w_report_txt (fst (main env w)) = Some rows
             /\ Permutation rows (map score_pair added)
             /\ StronglySorted score_ge rows
       | _ => w_report_txt (fst (main env w)) = w_report_txt w
       end.
Proof.
  destruct (main env w) as [w' out] eqn:E.
  destruct (main_run_summary env w w' out E)
    as (added & news & H1 & _ & _ & _ & H5).
  exists added. cbn [fst snd]. split; [exact H1 |].
  destruct out as [[|] | e | e].
  - apply H5.
  - destruct H5 as (_ & _ & H5).
    exists (sort_desc (map score_pair added)). split; [exact H5 |].
    apply sort_desc_perm_sorted.
  - apply H5.
  - apply H5.
Qed.

(** X14. An exception leaves [main] exactly when the checkpoint file is
    unreadable or the ticker file cannot be loaded, and then nothing was
    stored. In every other case [main] returns: at once when the ticker
    list is empty, and otherwise after the report or after its [except]
    clause has printed the error. *)
Theorem main_outcome_cases (env : Env) (w : World) :
  ((exists e, snd (main env w) = Escaped e)
   <-> (w_state_pkl w = Some Unreadable
        \/ exists ex, tickers_csv env = Raise ex))
  /\ (snd (main env w) = Returned NoTickers
      <-> (w_state_pkl w <> Some Unreadable /\ tickers_csv env = Ok []))
  /\ ((snd (main env w) = Returned ReportDone
       \/ exists e, snd (main env w) = Handled e)
      <-> (w_state_pkl w <> Some Unreadable
           /\ exists t rest, tickers_csv env = Ok (t :: rest)))
  /\ (forall e,
        snd (main env w) = Escaped e ->
        e = UnboundLocalError
        /\ w_sentiment_scores (fst (main env w)) = w_sentiment_scores w
        /\ w_news_articles (fst (main env w)) = w_news_articles w
        /\ w_state_pkl (fst (main env w)) = w_state_pkl w
        /\ w_report_txt (fst (main env w)) = w_report_txt w).
Proof.
  destruct (main env w) as [w' out] eqn:E.
  destruct (main_run_summary env w w' out E)
    as (added & news & H1 & H2 & H3 & _ & H5).
  cbn [fst snd].
  destruct out as [[|] | e | e].
  - destruct H5 as (Hc & Hp & _).
    split; [split; [intros [e He]; discriminate
                   | intros [Hu | [ex Hx]]; [contradiction | congruence]] |].
    split; [split; [intros _; split; assumption | reflexivity] |].
    split; [| intros e He; discriminate].
    split; [intros [Hd | [e He]]; discriminate |].
    intros [_ (t & rest & Ht)]. congruence.
  - destruct H5 as ((t & rest & Hc) & Hp & _).
    split; [split; [intros [e He]; discriminate
                   | intros [Hu | [ex Hx]]; [contradiction | congruence]] |].
    split; [split; [discriminate | intros [_ Ht]; congruence] |].
    split; [| intros e He; discriminate].
    split; [intros _; split; [exact Hp | exists t, rest; exact Hc] |].
    intros _. left. reflexivity.
  - destruct H5 as ((t & rest & Hc) & Hp & _).
    split; [split; [intros [e' He]; discriminate
                   | intros [Hu | [ex Hx]]; [contradiction | congruence]] |].
    split; [split; [discriminate | intros [_ Ht]; congruence] |].
    split; [| intros e' He; discriminate].
    split; [intros _; split; [exact Hp | exists t, rest; exact Hc] |].
    intros _. right. exists e. reflexivity.
  - destruct H5 as (He & Hc & Ha & Hn & Hr). subst added news.
    rewrite app_nil_r in H1, H2.
    split; [split; [intros _; exact Hc | intros _; exists e; reflexivity] |].
    split.
    { split; [discriminate |]. intros [Hp Ht].
      destruct Hc as [Hu | [ex Hx]]; [contradiction | congruence]. }
    split.
    { split; [intros [Hd | [e' He']]; discriminate |].
      intros [Hp (t & rest & Ht)].
      destruct Hc as [Hu | [ex Hx]]; [contradiction | congruence]. }
    intros e' He'. inversion He'; subst.
    repeat split; try assumption. exact (H3 eq_refl).
Qed.


(** ** Which tickers a run spends calls on *)

Lemma calls_only_for_weaken (P Q : string -> Prop) (log : Log) :
  (forall t, P t -> Q t) -> calls_only_for P log -> calls_only_for Q log.
Proof.
  intros HPQ H. unfold calls_only_for in *.
  eapply Forall_impl; [| exact H]. cbn. intros ev Hev t Ht. auto.
Qed.

Lemma calls_only_for_app (P : string -> Prop) (a b : Log) :
  calls_only_for P a -> calls_only_for P b -> calls_only_for P (a ++ b).
Proof. intros Ha Hb. apply Forall_app. split; assumption. Qed.

Lemma calls_only_for_prints (P : string -> Prop) (msgs : list message) :
  calls_only_for P (map Print msgs).
Proof.
  apply Forall_forall. intros ev Hin.
  apply in_map_iff in Hin. destruct Hin as (m & <- & _).
  intros t Ht. discriminate.
Qed.

(** The event is no call, or a call for a ticker at hand. *)
Ltac call_free :=
  let t := fresh "t" in let H := fresh "H" in
  intros t H; cbn in H;
  first [discriminate
        | inversion H; subst; first [assumption | reflexivity]].

Lemma emits_for_emit (P : string -> Prop) (e : effect) :
  (forall t, call_ticker e = Some t -> P t) -> emits_for P (emit e).
Proof.
  intros He log. exists [e]. split; [reflexivity |].
  constructor; [exact He | constructor].
Qed.

Lemma emits_for_ret (P : string -> Prop) {A : Type} (a : A) :
  emits_for P (@ret Log A a).
Proof.
  intro log. exists []. cbn. rewrite app_nil_r. split; [reflexivity | constructor].
Qed.

Lemma emits_for_raise (P : string -> Prop) {A : Type} (e : exn) :
  emits_for P (@raise Log A e).
Proof.
  intro log. exists []. cbn. rewrite app_nil_r. split; [reflexivity | constructor].
Qed.

Lemma emits_for_of_result (P : string -> Prop) {A : Type} (r : result A) :
  emits_for P (@of_result Log A r).
Proof.
  intro log. exists []. cbn. rewrite app_nil_r. split; [reflexivity | constructor].
Qed.

Lemma emits_for_bind (P : string -> Prop) {A B : Type}
    (m : M Log A) (k : A -> M Log B) :
  emits_for P m -> (forall a, emits_for P (k a)) -> emits_for P (bind m k).
Proof.
  intros Hm Hk log. destruct (Hm log) as (t1 & E1 & F1).
  unfold bind. destruct (m log) as [l1 [a | e]]; cbn [fst] in E1; subst l1.
  - destruct (Hk a (log ++ t1)) as (t2 & E2 & F2).
    exists (t1 ++ t2). rewrite E2, app_assoc.
    split; [reflexivity | apply calls_only_for_app; assumption].
  - exists t1. split; [reflexivity | assumption].
Qed.

Lemma emits_for_retrying_call (P : string -> Prop) {A : Type} (p : Retrying)
    (fn : nat -> M Log A) (fuel : nat) :
  (forall k, emits_for P (fn k)) ->
  forall a, emits_for P (retrying_call p fn fuel a).
Proof.
  intro Hfn. induction fuel as [| fuel IH]; intros a log; cbn [retrying_call].
  - exists []. cbn. rewrite app_nil_r. split; [reflexivity | constructor].
  - destruct (Hfn a log) as (t1 & E1 & F1).
    destruct (fn a log) as [l1 [x | e]]; cbn [fst] in E1; subst l1.
    + exists t1. split; [reflexivity | assumption].
    + destruct (stop_after_attempt p a).
      * exists t1. split; [reflexivity | assumption].
      * destruct (IH (S a)
                    ((log ++ t1) ++ [Sleep (exponential_sleep p a)]))
          as (t2 & E2 & F2).
        exists (t1 ++ [Sleep (exponential_sleep p a)] ++ t2).
        rewrite E2, <- !app_assoc. split; [reflexivity |].
        apply calls_only_for_app; [assumption |].
        apply calls_only_for_app; [| assumption].
        constructor; [call_free | constructor].
Qed.

Ltac emitting :=
  repeat first
    [ apply emits_for_bind
    | apply emits_for_emit; call_free
    | apply emits_for_ret
    | apply emits_for_raise
    | apply emits_for_of_result
    | match goal with
      | |- forall _, _ => intro
      | |- emits_for _ (if ?c then _ else _) => destruct c
      | |- emits_for _ (match ?x with _ => _ end) => destruct x
      end ].

Lemma emits_for_requests_get_with_retry (P : string -> Prop) (env : Env)
    (e : endpoint) (ticker : string) :
  P ticker -> emits_for P (requests_get_with_retry env e ticker).
Proof.
  intros HP log.
  destruct (emits_for_retrying_call P retry_policy
              (requests_get_once env e ticker) 7
              ltac:(intro k; unfold requests_get_once; emitting) 1 log)
    as (tail & E & F).
  exists tail. unfold requests_get_with_retry.
  destruct (retrying_call retry_policy (requests_get_once env e ticker) 7 1 log)
    as [l' [r |]]; cbn [fst] in *; split; assumption.
Qed.

Lemma emits_for_get_indicator (P : string -> Prop) (env : Env)
    (e : endpoint) (ticker : string) :
  P ticker -> emits_for P (get_indicator env e ticker).
Proof.
  intro HP. unfold get_indicator.
  apply emits_for_bind; [apply emits_for_requests_get_with_retry; exact HP |].
  emitting.
Qed.

Lemma emits_for_get_recent_price (P : string -> Prop) (env : Env)
    (ticker : string) :
  P ticker -> emits_for P (get_recent_price env ticker).
Proof.
  intro HP. unfold get_recent_price.
  apply emits_for_bind; [apply emits_for_requests_get_with_retry; exact HP |].
  emitting.
Qed.

Lemma emits_for_get_historical_price (P : string -> Prop) (env : Env)
    (ticker : string) :
  P ticker -> emits_for P (get_historical_price env ticker).
Proof.
  intro HP. unfold get_historical_price.
  apply emits_for_bind; [apply emits_for_requests_get_with_retry; exact HP |].
  emitting.
Qed.

Lemma emits_for_gpt_attempts (P : string -> Prop)
    (chat : string -> string -> nat -> chat_reply) (ticker text : string)
    (retry_delay : Z) (max_retries : nat) :
  P ticker ->
  forall calls scores,
    emits_for P
      (gpt_attempts chat ticker text retry_delay max_retries calls scores).
Proof.
  intro HP.
  induction max_retries as [| m IH]; intros calls scores; cbn [gpt_attempts].
  - apply emits_for_ret.
  - emitting; apply IH.
Qed.

Lemma emits_for_gpt_sentiment_analysis (P : string -> Prop)
    (chat : string -> string -> nat -> chat_reply) (db : list news_row)
    (ticker : string) (max_retries : nat) (retry_delay : Z) :
  P ticker ->
  emits_for P (gpt_sentiment_analysis chat db ticker max_retries retry_delay).
Proof.
  intro HP. unfold gpt_sentiment_analysis.
  generalize (@nil string) as scores. generalize 0%nat as calls.
  revert max_retries.
  induction (get_news_from_db db ticker) as [| r rest IH];
    intros m c s; cbn [gpt_loop].
  - apply emits_for_ret.
  - destruct (usable r); [| apply IH].
    apply emits_for_bind; [apply emits_for_gpt_attempts; exact HP |].
    intros [[m1 c1] s1]. apply IH.
Qed.

Lemma calls_for_refl (P : string -> Prop) (s : St) : calls_for P s s.
Proof.
  exists []. rewrite app_nil_r. split; [reflexivity | constructor].
Qed.

Lemma calls_for_trans (P : string -> Prop) (a b c : St) :
  calls_for P a b -> calls_for P b c -> calls_for P a c.
Proof.
  intros (t1 & E1 & F1) (t2 & E2 & F2). exists (t1 ++ t2).
  rewrite E2, E1, app_assoc.
  split; [reflexivity | apply calls_only_for_app; assumption].
Qed.

Lemma calls_for_weaken (P Q : string -> Prop) (s s' : St) :
  (forall t, P t -> Q t) -> calls_for P s s' -> calls_for Q s s'.
Proof.
  intros HPQ (tail & E & F). exists tail.
  split; [exact E | eapply calls_only_for_weaken; eassumption].
Qed.

Lemma in_log_calls_for (P : string -> Prop) {A : Type} (m : M Log A) :
  emits_for P m -> preserves (calls_for P) (in_log m).
Proof.
  intros Hm s s' r H. destruct (Hm (w_log (world s))) as (tail & E & F).
  unfold in_log, in_world, zoom in H.
  destruct (m (w_log (world s))) as [l' r']. cbn [fst] in E. subst l'.
  inversion H; subst; clear H. exists tail. cbn. split; [reflexivity | exact F].
Qed.

Lemma get_stock_news_calls (P : string -> Prop) (env : Env) (ticker : string)
    (db db' : list news_row) (log log' : Log) (r : result (list article)) :
  P ticker ->
  get_stock_news env ticker (db, log) = ((db', log'), r) ->
  exists tail, log' = log ++ tail /\ calls_only_for P tail.
Proof.
  intros HP H. unfold get_stock_news in H.
  repeat match type of H with
    | context [match ?x with _ => _ end] => destruct x
    end;
    inversion H; subst; clear H;
    first
      [ exists [HttpGet NewsEndpoint ticker]; split; [reflexivity |]
      | exists [HttpGet NewsEndpoint ticker; Print (MsgNewsError ticker)];
        split; [rewrite <- app_assoc; reflexivity |] ];
    repeat (constructor; [call_free |]); constructor.
Qed.

Lemma in_news_calls_for (P : string -> Prop) (env : Env) (ticker : string) :
  P ticker -> preserves (calls_for P) (in_news (get_stock_news env ticker)).
Proof.
  intros HP s s' r H. unfold in_news, in_world, zoom in H.
  destruct (get_stock_news env ticker
              (w_news_articles (world s), w_log (world s)))
    as [[db' log'] r'] eqn:E.
  inversion H; subst; clear H.
  destruct (get_stock_news_calls P _ _ _ _ _ _ _ HP E) as (tail & El & F).
  exists tail. cbn. split; assumption.
Qed.

(** A statement that leaves the log alone. *)
Ltac leaf_calls_for :=
  let s := fresh "s" in let s' := fresh "s" in
  let r := fresh "r" in let H := fresh "H" in
  intros s s' r H;
  unfold in_locals, in_world, zoom, modify, gets, save_to_db, save_state,
    main_load_state, read_state_pkl in H;
  cbn in H;
  repeat match type of H with
    | context [match ?x with _ => _ end] => destruct x
    end;
  inversion H; subst; clear H;
  exists []; cbn; rewrite app_nil_r; split; [reflexivity | constructor].

(** A statement that prints, or calls a provider or the model. *)
Ltac log_block :=
  idtac;
  match goal with
  | |- preserves (calls_for _) (in_log _) =>
      apply in_log_calls_for;
      first
        [ apply emits_for_emit; call_free
        | apply emits_for_get_indicator; reflexivity
        | apply emits_for_get_recent_price; reflexivity
        | apply emits_for_get_historical_price; reflexivity
        | apply emits_for_gpt_sentiment_analysis; reflexivity ]
  | |- preserves (calls_for _) (in_news _) =>
      apply in_news_calls_for; reflexivity
  end.

Lemma fetch_pass_body_calls_for (env : Env) (i : nat) (ticker : string) :
  preserves (calls_for (fun t => t = ticker))
    (fetch_pass_body env (i, ticker)).
Proof.
  unfold fetch_pass_body, say, get_rsi, get_macd.
  walk (calls_for_refl (fun t => t = ticker))
       (calls_for_trans (fun t => t = ticker)) log_block leaf_calls_for.
Qed.

Lemma score_pass_body_calls_for (env : Env) (i : nat) (ticker : string) :
  preserves (calls_for (fun t => t = ticker))
    (score_pass_body env (i, ticker)).
Proof.
  unfold score_pass_body, say.
  walk (calls_for_refl (fun t => t = ticker))
       (calls_for_trans (fun t => t = ticker)) log_block leaf_calls_for.
Qed.

Lemma str_in_app (x : string) (xs ys : list string) :
  str_in x (xs ++ ys) = (str_in x xs || str_in x ys)%bool.
Proof. unfold str_in. apply existsb_app. Qed.

Lemma commits_keeps_processed (s s' : St) (x : string) :
  commits s s' ->
  str_in x (l_processed_tickers (locals s)) = true ->
  str_in x (l_processed_tickers (locals s')) = true.
Proof.
  intros (added & _ & Hp & _) Hx. rewrite Hp, str_in_app, Hx. reflexivity.
Qed.

Lemma spends_on_refl (P : string -> Prop) (s : St) : spends_on P s s.
Proof. split; [auto | apply calls_for_refl]. Qed.

Lemma spends_on_trans (P : string -> Prop) (a b c : St) :
  spends_on P a b -> spends_on P b c -> spends_on P a c.
Proof.
  intros [M1 C1] [M2 C2]. split; [auto |].
  eapply calls_for_trans; [exact C1 |].
  eapply calls_for_weaken; [| exact C2].
  cbn. intros t [HP Hb]. split; [exact HP |].
  destruct (str_in t (l_processed_tickers (locals a))) eqn:E;
    [| reflexivity].
  rewrite (M1 t E) in Hb. discriminate.
Qed.

Lemma spends_on_weaken (P Q : string -> Prop) (s s' : St) :
  (forall t, P t -> Q t) -> spends_on P s s' -> spends_on Q s s'.
Proof.
  intros HPQ [M1 C1]. split; [exact M1 |].
  eapply calls_for_weaken; [| exact C1]. cbn. intros t [HP Hb]. auto.
Qed.

(** A statement that prints, and one that updates local variables
    other than the processed list. *)
Lemma in_log_spends_on (P : string -> Prop) {A : Type} (m : M Log A) :
  emits_for (fun _ => False) m -> preserves (spends_on P) (in_log m).
Proof.
  intros Hm s s' r H. split.
  - destruct (in_log_frame m s s' r H) as [Hl _]. rewrite Hl. auto.
  - eapply calls_for_weaken; [| eapply in_log_calls_for; eassumption].
    contradiction.
Qed.

Ltac leaf_spends_on :=
  first
    [ apply in_log_spends_on; apply emits_for_emit; call_free
    | let s := fresh "s" in let s' := fresh "s" in
      let r := fresh "r" in let H := fresh "H" in
      intros s s' r H;
      unfold in_locals, zoom, modify in H; cbn in H;
      inversion H; subst; clear H;
      split;
      [ cbn; auto
      | exists []; cbn; rewrite app_nil_r; split; [reflexivity | constructor] ] ].

Lemma fetch_pass_body_processed (env : Env) (i : nat) (ticker : string)
    (s : St) :
  str_in ticker (l_processed_tickers (locals s)) = true ->
  fetch_pass_body env (i, ticker) s
  = ({| world := world s; locals := bind_ticker ticker (locals s) |}, Ok tt).
Proof.
  intro Ht. unfold fetch_pass_body.
  step_locals. step_locals. rewrite Ht. reflexivity.
Qed.

Lemma score_pass_body_processed (env : Env) (i : nat) (ticker : string)
    (s : St) :
  str_in ticker (l_processed_tickers (locals s)) = true ->
  score_pass_body env (i, ticker) s
  = ({| world :=
          set_log (w_log (world s) ++ [Print (MsgProcessing i ticker)])
            (world s);
        locals := bind_ticker ticker (locals s) |}, Ok tt).
Proof.
  intro Ht. unfold score_pass_body.
  step_locals. step_say. step_locals. rewrite Ht. reflexivity.
Qed.

(** One iteration of either loop spends calls on its own ticker only,
    and only if the ticker is not in the processed list. *)
Lemma fetch_pass_body_spends_on (env : Env) (it : nat * string) :
  preserves (spends_on (fun t => t = snd it)) (fetch_pass_body env it).
Proof.
  destruct it as [i ticker]. cbn [snd]. intros s s' r H. split.
  - intro x. apply commits_keeps_processed.
    eapply fetch_pass_body_commits. exact H.
  - destruct (str_in ticker (l_processed_tickers (locals s))) eqn:E.
    + rewrite (fetch_pass_body_processed env i ticker s E) in H.
      inversion H; subst; clear H. exists []. cbn. rewrite app_nil_r.
      split; [reflexivity | constructor].
    + eapply calls_for_weaken;
        [| eapply fetch_pass_body_calls_for; exact H].
      cbn. intros t ->. split; [reflexivity | exact E].
Qed.

Lemma score_pass_body_spends_on (env : Env) (it : nat * string) :
  preserves (spends_on (fun t => t = snd it)) (score_pass_body env it).
Proof.
  destruct it as [i ticker]. cbn [snd]. intros s s' r H. split.
  - intro x. apply commits_keeps_processed.
    eapply score_pass_body_commits. exact H.
  - destruct (str_in ticker (l_processed_tickers (locals s))) eqn:E.
    + rewrite (score_pass_body_processed env i ticker s E) in H.
      inversion H; subst; clear H.
      exists [Print (MsgProcessing i ticker)]. cbn.
      split; [reflexivity |]. constructor; [call_free | constructor].
    + eapply calls_for_weaken;
        [| eapply score_pass_body_calls_for; exact H].
      cbn. intros t ->. split; [reflexivity | exact E].
Qed.

Lemma for_each_spends_on (body : nat * string -> M St unit)
    (its : list (nat * string)) :
  (forall it, preserves (spends_on (fun t => t = snd it)) (body it)) ->
  preserves (spends_on (fun t => In t (map snd its))) (for_each body its).
Proof.
  intro Hb. induction its as [| it rest IH]; cbn [for_each].
  - apply preserves_ret. apply spends_on_refl.
  - apply preserves_bind; [apply spends_on_trans | |].
    + intros s s' r H. eapply spends_on_weaken; [| eapply Hb; exact H].
      cbn. intros t ->. left. reflexivity.
    + intros _ s s' r H. eapply spends_on_weaken; [| eapply IH; exact H].
      cbn. intros t Ht. right. exact Ht.
Qed.

Lemma map_snd_enumerate_from {A : Type} (xs : list A) :
  forall start, map snd (enumerate_from start xs) = xs.
Proof.
  induction xs as [| x rest IH]; intro start.
  - reflexivity.
  - rewrite enumerate_from_cons. cbn [map snd]. rewrite IH. reflexivity.
Qed.

Lemma main_fetch_pass_spends_on (env : Env) (tickers : list string) :
  preserves (spends_on (fun t => In t tickers)) (main_fetch_pass env tickers).
Proof.
  unfold main_fetch_pass, say.
  repeat (apply preserves_bind;
          [apply spends_on_trans | leaf_spends_on | intros _]).
  pose proof (for_each_spends_on (fetch_pass_body env) (enumerate1 tickers)
                (fetch_pass_body_spends_on env)) as H.
  unfold enumerate1 in H. rewrite map_snd_enumerate_from in H. exact H.
Qed.

Lemma main_score_pass_spends_on (env : Env) (tickers : list string) :
  preserves (spends_on (fun t => In t tickers)) (main_score_pass env tickers).
Proof.
  unfold main_score_pass, say.
  repeat (apply preserves_bind;
          [apply spends_on_trans | leaf_spends_on | intros _]).
  pose proof (for_each_spends_on (score_pass_body env) (enumerate1 tickers)
                (score_pass_body_spends_on env)) as H.
  unfold enumerate1 in H. rewrite map_snd_enumerate_from in H. exact H.
Qed.

Lemma main_report_spends_on (P : string -> Prop) :
  preserves (spends_on P) main_report.
Proof.
  intros s s' r H.
  unfold main_report, bind, in_locals, in_world, zoom, modify, gets,
    print_report in H.
  cbn in H. inversion H; subst; clear H. split; [cbn; auto |].
  eexists. cbn. split; [reflexivity |].
  constructor; [call_free |].
  apply calls_only_for_app; [| constructor; [call_free | constructor]].
  rewrite <- (map_map (fun r => MsgReportLine (fst r) (snd r)) Print).
  apply calls_only_for_prints.
Qed.

Lemma main_setup_calls_for (env : Env) :
  preserves (calls_for (fun _ => False)) (main_setup env).
Proof.
  intros s s' r.
  unfold main_setup, bind, in_world, in_locals, say, in_log, in_world,
    zoom, main_load_state, read_state_pkl, of_result, modify, emit, ret.
  cbn [world locals].
  destruct (w_state_pkl (world s)) as [[| p rd] |]; cbn;
    destruct (tickers_csv env) as [ts | ex]; cbn;
    intro H; inversion H; subst; clear H; cbn;
    first
      [ exists []; rewrite app_nil_r; split; [reflexivity | constructor]
      | exists [Print MsgStarting]; split; [reflexivity |];
        repeat (constructor; [call_free |]); constructor
      | exists [Print MsgStarting; Print (MsgLoadedTickers (List.length ts))];
        split; [rewrite <- app_assoc; reflexivity |];
        repeat (constructor; [call_free |]); constructor ].
Qed.

(** The tickers a run may spend calls on: those of the ticker file that
    the checkpoint on disk does not mark as processed. *)
Lemma main_try_calls (env : Env) (w : World) (s : St) (r : result main_exit) :
  main_try env (initial w) = (s, r) ->
  calls_for
    (fun t =>
       str_in t (checkpointed_tickers w) = false
       /\ exists tickers, tickers_csv env = Ok tickers /\ In t tickers)
    (initial w) s.
Proof.
  unfold main_try. unfold bind at 1.
  destruct (main_setup env (initial w)) as [s0 r0] eqn:E0.
  pose proof (main_setup_calls_for env _ _ _ E0) as H0.
  destruct (main_setup_summary env w s0 r0 E0) as (_ & _ & Hok & _).
  destruct r0 as [tickers | e].
  - destruct (Hok tickers eq_refl) as (Hp & Hcsv & _).
    intro H. eapply calls_for_trans.
    { eapply calls_for_weaken; [| exact H0]. contradiction. }
    assert (Hs : spends_on (fun t => In t tickers) s0 s).
    { revert H. destruct tickers as [| t rest].
      - apply preserves_bind; [apply spends_on_trans | unfold say; leaf_spends_on |].
        intros _. apply preserves_ret. apply spends_on_refl.
      - apply preserves_bind;
          [apply spends_on_trans | apply main_fetch_pass_spends_on |].
        intros _. apply preserves_bind;
          [apply spends_on_trans | apply main_score_pass_spends_on |].
        intros _. apply preserves_bind;
          [apply spends_on_trans | apply main_report_spends_on |].
        intros _. apply preserves_ret. apply spends_on_refl. }
    destruct Hs as [_ Hc]. eapply calls_for_weaken; [| exact Hc].
    cbn. intros t [Hin Hnp]. rewrite Hp in Hnp.
    split; [exact Hnp | exists tickers; split; assumption].
  - intro H. inversion H; subst; clear H.
    eapply calls_for_weaken; [| exact H0]. contradiction.
Qed.

(** X15. A run spends provider and model calls only on tickers of the
    ticker file that the checkpoint it started from does not mark as
    processed: every request and every model call it makes, in either
    pass and however the run ends, is for such a ticker. *)
Theorem main_calls_only_for_unprocessed_tickers (env : Env) (w : World) :
  exists tail,
    w_log (fst (main env w)) = w_log w ++ tail
    /\ calls_only_for
         (fun t =>
            str_in t (checkpointed_tickers w) = false
            /\ exists tickers, tickers_csv env = Ok tickers /\ In t tickers)
         tail.
Proof.
  unfold main.
  destruct (main_try env {| world := w; locals := no_locals |})
    as [s r] eqn:E.
  destruct (main_try_calls env w s r E) as (tail & El & F).
  cbn [initial world] in El.
  destruct r as [how | e]; [exists tail; cbn; split; assumption |].
  destruct (l_ticker (locals s)) as [ticker |];
    [| exists tail; cbn; split; assumption].
  exists (tail ++ [Print (MsgTickerError ticker e); Print MsgTraceback]).
  cbn. rewrite El, app_assoc. split; [reflexivity |].
  apply calls_only_for_app; [exact F |].
  repeat (constructor; [call_free |]); constructor.
Qed.

(** ** The generative strategy when the model always answers, or never *)

Lemma gpt_loop_exhausted (chat : string -> string -> nat -> chat_reply)
    (ticker : string) (retry_delay : Z) (rows : list news_row) :
  forall calls scores log,
    gpt_loop chat ticker retry_delay rows 0 calls scores log
    = (log, Ok scores).
Proof.
  induction rows as [| r rest IH]; intros c s log; cbn [gpt_loop].
  - reflexivity.
  - destruct (usable r); [| apply IH].
    unfold bind. cbn [gpt_attempts]. unfold ret. apply IH.
Qed.

Lemma gpt_loop_all_answered (chat : string -> string -> nat -> chat_reply)
    (answer : string -> nat -> string) (ticker : string) (retry_delay : Z)
    (rows : list news_row) :
  (forall text k, chat ticker text k = ChatContent (answer text k)) ->
  forall max_retries calls scores log,
    gpt_loop chat ticker retry_delay rows max_retries calls scores log
    = (log ++ map (fun r => ChatCompletion ticker (article_text r))
                (firstn max_retries (filter usable rows)),
       Ok (scores
           ++ map (fun kr => gpt_label (answer (article_text (snd kr)) (fst kr)))
                (enumerate_from calls
                   (firstn max_retries (filter usable rows))))).
Proof.
  intro Hchat. induction rows as [| r rest IH]; intros m c s log.
  - cbn [gpt_loop filter]. rewrite firstn_nil. cbn. unfold ret.
    rewrite !app_nil_r. reflexivity.
  - cbn [gpt_loop filter]. destruct (usable r); [| apply IH].
    destruct m as [| m'].
    + unfold bind. cbn [gpt_attempts]. unfold ret.
      rewrite gpt_loop_exhausted. cbn. rewrite !app_nil_r. reflexivity.
    + unfold bind at 1. cbn [gpt_attempts]. unfold bind at 1, emit at 1.
      rewrite Hchat. unfold ret at 1. rewrite IH.
      cbn [firstn map]. rewrite enumerate_from_cons. cbn [map fst snd].
      rewrite <- !app_assoc. reflexivity.
Qed.

(** X16. When the model answers every call, the generative strategy
    makes one call for each of the first [max_retries] usable articles
    of the ticker, in order and without sleeping, and returns the labels
    of those answers; the usable articles after the first [max_retries]
    get no call and no label. *)
Theorem gpt_sentiment_analysis_all_answered
    (chat : string -> string -> nat -> chat_reply)
    (answer : string -> nat -> string) (db : list news_row) (ticker : string)
    (max_retries : nat) (retry_delay : Z) (log : Log) :
  (forall text k, chat ticker text k = ChatContent (answer text k)) ->
  gpt_sentiment_analysis chat db ticker max_retries retry_delay log
  = (log ++ map (fun r => ChatCompletion ticker (article_text r))
              (firstn max_retries
                 (filter usable (get_news_from_db db ticker))),
     Ok (map (fun kr => gpt_label (answer (article_text (snd kr)) (fst kr)))
           (enumerate_from 0
              (firstn max_retries
                 (filter usable (get_news_from_db db ticker)))))).
Proof.
  intro Hchat. unfold gpt_sentiment_analysis.
  rewrite (gpt_loop_all_answered chat answer ticker retry_delay _ Hchat).
  reflexivity.
Qed.

Lemma gpt_sentiment_analysis_all_answered_example :
  gpt_sentiment_analysis chat_good five_rows "X" 4 2000 []
  = ([] ++ map (fun r => ChatCompletion "X" (article_text r))
             (firstn 4 (filter usable (get_news_from_db five_rows "X"))),
     Ok (map (fun kr => gpt_label ((fun _ _ => "Good") (article_text (snd kr))
                                     (fst kr)))
           (enumerate_from 0
              (firstn 4 (filter usable (get_news_from_db five_rows "X")))))).
Proof.
  apply (gpt_sentiment_analysis_all_answered chat_good (fun _ _ => "Good")
           five_rows "X" 4 2000 []).
  intros text k. reflexivity.
Defined.

Lemma gpt_attempts_all_failed (chat : string -> string -> nat -> chat_reply)
    (ticker text : string) (retry_delay : Z) :
  (forall k, chat ticker text k = ChatRaise) ->
  forall max_retries calls scores log,
    (0 < max_retries)%nat ->
    exists tail,
      gpt_attempts chat ticker text retry_delay max_retries calls scores log
      = (log ++ tail, Ok (0%nat, (calls + max_retries)%nat, scores ++ ["Error"]))
      /\ chat_calls tail = max_retries
      /\ delays tail = repeat retry_delay (max_retries - 1)
      /\ Forall (fun ev => forall t x, ev = ChatCompletion t x -> x = text) tail.
Proof.
  intro Hchat. induction max_retries as [| m IH]; intros c s log Hm; [lia |].
  cbn [gpt_attempts]. unfold bind at 1, emit at 1. rewrite Hchat.
  unfold bind at 1, emit at 1.
  destruct m as [| m'].
  - cbn [Nat.ltb Nat.leb gpt_attempts]. unfold ret.
    exists [ChatCompletion ticker text; Print MsgGptError].
    rewrite <- app_assoc, Nat.add_1_r. cbn.
    repeat split; try reflexivity.
    repeat constructor; intros t x Hx; inversion Hx; reflexivity.
  - change (0 <? S m')%nat with true. cbv iota.
    unfold bind at 1, emit at 1.
    destruct (IH (S c) s
                (((log ++ [ChatCompletion ticker text]) ++ [Print MsgGptError])
                 ++ [Sleep retry_delay]) ltac:(lia))
      as (tail & E & Hc & Hd & Hf).
    rewrite E.
    exists ([ChatCompletion ticker text; Print MsgGptError; Sleep retry_delay]
            ++ tail).
    replace (S c + S m')%nat with (c + S (S m'))%nat by lia.
    split; [rewrite <- !app_assoc; reflexivity |].
    split; [rewrite chat_calls_app, Hc; reflexivity |].
    split; [rewrite delays_app, Hd; cbn; rewrite Nat.sub_0_r; reflexivity |].
    cbn [app].
    repeat (constructor; [intros t x Hx; inversion Hx; reflexivity |]).
    exact Hf.
Qed.

Lemma gpt_loop_all_failed (chat : string -> string -> nat -> chat_reply)
    (ticker : string) (retry_delay : Z) (rows : list news_row)
    (r : news_row) (rest : list news_row) :
  (forall text k, chat ticker text k = ChatRaise) ->
  filter usable rows = r :: rest ->
  forall max_retries calls scores log,
    (0 < max_retries)%nat ->
    exists tail,
      gpt_loop chat ticker retry_delay rows max_retries calls scores log
      = (log ++ tail, Ok (scores ++ ["Error"]))
      /\ chat_calls tail = max_retries
      /\ delays tail = repeat retry_delay (max_retries - 1)
      /\ Forall (fun ev => forall t x, ev = ChatCompletion t x ->
                                       x = article_text r) tail.
Proof.
  intros Hchat. induction rows as [| r0 rows' IH]; intros Hf m c s log Hm;
    [discriminate |].
  cbn [gpt_loop filter] in *. destruct (usable r0).
  - inversion Hf; subst r0 rest; clear Hf.
    destruct (gpt_attempts_all_failed chat ticker (article_text r) retry_delay
                (Hchat (article_text r)) m c s log Hm)
      as (tail & E & Hc & Hd & Ht).
    exists tail. unfold bind. rewrite E, gpt_loop_exhausted.
    repeat split; assumption.
  - apply IH; assumption.
Qed.

(** X17. When every model call fails and the ticker has a usable
    article, the generative strategy spends its whole budget on the
    first usable article: [max_retries] calls, all with that article's
    text, a sleep of [retry_delay] between consecutive calls, and the
    single label "Error" for the whole ticker; no other article is
    tried. *)
Theorem gpt_sentiment_analysis_all_failed
    (chat : string -> string -> nat -> chat_reply) (db : list news_row)
    (ticker : string) (max_retries : nat) (retry_delay : Z) (log : Log)
    (r : news_row) (rest : list news_row) :
  (forall text k, chat ticker text k = ChatRaise) ->
  filter usable (get_news_from_db db ticker) = r :: rest ->
  (0 < max_retries)%nat ->
  exists tail,
    gpt_sentiment_analysis chat db ticker max_retries retry_delay log
    = (log ++ tail, Ok ["Error"])
    /\ chat_calls tail = max_retries
    /\ delays tail = repeat retry_delay (max_retries - 1)
    /\ Forall (fun ev => forall t x, ev = ChatCompletion t x ->
                                     x = article_text r) tail.
Proof.
  intros Hchat Hf Hm. unfold gpt_sentiment_analysis.
  apply (gpt_loop_all_failed chat ticker retry_delay _ r rest Hchat Hf
           max_retries 0%nat [] log Hm).
Qed.

Lemma gpt_sentiment_analysis_all_failed_example :
  exists tail,
    gpt_sentiment_analysis chat_down five_rows "X" 4 2000 []
    = ([] ++ tail, Ok ["Error"])
    /\ chat_calls tail = 4%nat
    /\ delays tail = repeat 2000%Z (4 - 1)
    /\ Forall (fun ev => forall t x, ev = ChatCompletion t x ->
                 x = article_text (example_row "X" "t1" "d1"))
         tail.
Proof.
  apply (gpt_sentiment_analysis_all_failed chat_down five_rows "X" 4 2000 []
           (example_row "X" "t1" "d1") (tl five_rows)).
  - intros text k. reflexivity.
  - vm_compute. reflexivity.
  - lia.
Defined.

(** ** What one wrapped provider call can cost *)

(** X18. One call through the retry wrapper makes between one and seven
    requests, all to the same endpoint for the same ticker, sleeps once
    between consecutive requests and never after the last, sleeps at
    most 44 seconds in total, and makes no model call. *)
Theorem requests_get_with_retry_cost (env : Env) (e : endpoint)
    (ticker : string) (log : Log) :
  exists tail,
    fst (requests_get_with_retry env e ticker log) = log ++ tail
    /\ (1 <= List.length (requests tail) <= 7)%nat
    /\ Forall (fun ev => ev = HttpGet e ticker) (requests tail)
    /\ List.length (delays tail) = (List.length (requests tail) - 1)%nat
    /\ (fold_right Z.add 0 (delays tail) <= 44000)%Z
    /\ Forall (fun ms => (0 < ms <= 10000)%Z) (delays tail)
    /\ chat_calls tail = 0%nat
    /\ last tail (HttpGet e ticker) = HttpGet e ticker.
Proof.
  destruct (requests_get_with_retry_attempts env e ticker log)
    as (n & Hn & Heq & _).
  exists (attempts_trace e ticker 1 (n - 1)). rewrite Heq.
  split; [reflexivity |].
  assert (Hcases : (n = 1 \/ n = 2 \/ n = 3 \/ n = 4 \/ n = 5 \/ n = 6
                    \/ n = 7)%nat) by lia.
  destruct Hcases as [-> | [-> | [-> | [-> | [-> | [-> | ->]]]]]];
    cbn; (repeat split; try lia; try reflexivity);
    repeat constructor; lia.
Qed.

(** ** A ticker without usable articles *)

Lemma vader_loop_no_usable (polarity : string -> Q) (rows : list news_row) :
  filter usable rows = [] ->
  forall acc, vader_loop polarity rows acc = Ok acc.
Proof.
  induction rows as [| r rest IH]; intros Hf acc; cbn [vader_loop].
  - reflexivity.
  - cbn [filter] in Hf. destruct (usable r); [discriminate | apply IH; exact Hf].
Qed.

Lemma gpt_loop_no_usable (chat : string -> string -> nat -> chat_reply)
    (ticker : string) (retry_delay : Z) (rows : list news_row) :
  filter usable rows = [] ->
  forall max_retries calls scores log,
    gpt_loop chat ticker retry_delay rows max_retries calls scores log
    = (log, Ok scores).
Proof.
  induction rows as [| r rest IH]; intros Hf m c s log; cbn [gpt_loop].
  - reflexivity.
  - cbn [filter] in Hf. destruct (usable r); [discriminate | apply IH; exact Hf].
Qed.

(** X19. The score pass skips a ticker that has no usable article in
    the news table: it prints the two console lines and goes on to the
    next ticker. No model call and no price request is made, no score
    row is written, the checkpoint is not touched, and the ticker is not
    added to the processed list, so a later run tries it again. *)
Theorem score_pass_skips_ticker_without_articles (env : Env) (s : St)
    (i : nat) (ticker : string) (news : list article) (rsi macd : option Q) :
  str_in ticker (l_processed_tickers (locals s)) = false ->
  dict_get (l_news_data (locals s)) ticker = Ok news ->
  dict_get (l_rsi_data (locals s)) ticker = Ok rsi ->
  dict_get (l_macd_data (locals s)) ticker = Ok macd ->
  filter usable (get_news_from_db (w_news_articles (world s)) ticker) = [] ->
  score_pass_body env (i, ticker) s
  = ({| world :=
          set_log (w_log (world s)
                   ++ [Print (MsgProcessing i ticker);
                       Print (MsgNoArticles ticker)])
            (world s);
        locals := bind_ticker ticker (locals s) |},
     Ok tt).
Proof.
  intros Hp Hnews Hrsi Hmacd Hnone.
  unfold score_pass_body.
  step_locals. step_say. step_locals. rewrite Hp.
  step_locals. rewrite Hnews.
  step_locals. rewrite Hrsi.
  step_locals. rewrite Hmacd.
  unfold bind at 1. unfold in_world at 1, zoom, gets.
  cbn [world locals w_news_articles set_log].
  step_pure. unfold vader_sentiment_analysis.
  rewrite (vader_loop_no_usable _ _ Hnone).
  step_log log_parametric_gpt_sentiment_analysis.
  unfold gpt_sentiment_analysis.
  rewrite (gpt_loop_no_usable _ _ _ _ Hnone).
  cbn [snd fst List.length Nat.eqb orb].
  unfold say. rewrite in_log_parametric by apply log_parametric_emit.
  cbn [world locals fst snd emit set_log w_log w_state_pkl w_news_articles
       w_sentiment_scores w_report_txt].
  rewrite app_nil_r, <- !app_assoc. reflexivity.
Qed.

Lemma score_pass_skips_ticker_without_articles_example :
  let s := state_before_scoring env_news_down fresh_world ["A"] in
  score_pass_body env_news_down (1%nat, "A") s
  = ({| world :=
          set_log (w_log (world s)
                   ++ [Print (MsgProcessing 1 "A"); Print (MsgNoArticles "A")])
            (world s);
        locals := bind_ticker "A" (locals s) |},
     Ok tt).
Proof.
  apply (score_pass_skips_ticker_without_articles env_news_down
           (state_before_scoring env_news_down fresh_world ["A"]) 1 "A"
           [] (Some 75) (Some (1 # 2))).
  - vm_compute. reflexivity.
  - vm_compute. reflexivity.
  - vm_compute. reflexivity.
  - vm_compute. reflexivity.
  - vm_compute. reflexivity.
Defined.

(** ** Which tickers a run scores *)

Lemma str_in_true (x : string) (xs : list string) :
  str_in x xs = true <-> In x xs.
Proof.
  unfold str_in. rewrite existsb_exists. split.
  - intros (y & Hin & Heq). apply String.eqb_eq in Heq. subst. exact Hin.
  - intro Hin. exists x. split; [exact Hin | apply String.eqb_refl].
Qed.

Lemma str_in_false (x : string) (xs : list string) :
  str_in x xs = false <-> ~ In x xs.
Proof.
  rewrite <- str_in_true. destruct (str_in x xs); split; intro H;
    congruence.
Qed.

Lemma scores_once_refl (P : string -> Prop) (s : St) : scores_once P s s.
Proof.
  exists []. cbn. rewrite !app_nil_r. repeat split; constructor.
Qed.

Lemma scores_once_trans (P : string -> Prop) (a b c : St) :
  scores_once P a b -> scores_once P b c -> scores_once P a c.
Proof.
  intros (a1 & S1 & P1 & N1 & F1) (a2 & S2 & P2 & N2 & F2).
  exists (a1 ++ a2). rewrite S2, S1, P2, P1, map_app, !app_assoc.
  split; [reflexivity |]. split; [reflexivity |].
  rewrite P1 in F2. rewrite Forall_forall in F1, F2.
  split.
  - apply NoDup_app; [exact N1 | exact N2 |].
    intros t H1 H2. destruct (F2 t H2) as [_ Hn].
    rewrite str_in_app in Hn. apply orb_false_iff in Hn.
    destruct Hn as [_ Hn]. apply str_in_false in Hn. contradiction.
  - apply Forall_app. split; apply Forall_forall; intros t Ht.
    + apply F1. exact Ht.
    + destruct (F2 t Ht) as [HP Hn]. split; [exact HP |].
      rewrite str_in_app in Hn. apply orb_false_iff in Hn. apply Hn.
Qed.

Lemma scores_once_weaken (P Q : string -> Prop) (s s' : St) :
  (forall t, P t -> Q t) -> scores_once P s s' -> scores_once Q s s'.
Proof.
  intros HPQ (added & S1 & P1 & N1 & F1). exists added.
  repeat split; try assumption.
  eapply Forall_impl; [| exact F1]. cbn. intros t [HP Hn]. auto.
Qed.

(** Nothing committed, nothing scored. *)
Lemma quiet_scores_once (P : string -> Prop) (s s' : St) :
  quiet s s' -> scores_once P s s'.
Proof.
  intros (Hs & _ & Hp & _). exists []. cbn. rewrite Hs, Hp, !app_nil_r.
  repeat split; constructor.
Qed.

Lemma marks_at_most_refl (ticker : string) (s : St) : marks_at_most ticker s s.
Proof. left. reflexivity. Qed.

(** A statement that commits nothing, followed by the rest. *)
Lemma preserves_bind_after {S A B : Type} (Q R : S -> S -> Prop)
    (m : M S A) (k : A -> M S B) :
  (forall a b c, Q a b -> R b c -> R a c) ->
  (forall a b, Q a b -> R a b) ->
  preserves Q m -> (forall a, preserves R (k a)) ->
  preserves R (bind m k).
Proof.
  intros Hc Hw Hm Hk s s' r H. unfold bind in H.
  destruct (m s) as [s1 [a | e]] eqn:E.
  - eapply Hc; [eapply Hm; exact E | eapply Hk; exact H].
  - inversion H; subst. apply Hw. eapply Hm; exact E.
Qed.

Lemma quiet_marks_at_most (ticker : string) (a b c : St) :
  quiet a b -> marks_at_most ticker b c -> marks_at_most ticker a c.
Proof.
  intros (_ & _ & Hp & _) H. unfold marks_at_most in *. rewrite <- Hp.
  exact H.
Qed.

Lemma quiet_marks_nothing (ticker : string) (a b : St) :
  quiet a b -> marks_at_most ticker a b.
Proof. intros (_ & _ & Hp & _). left. exact Hp. Qed.

Lemma commit_ticker_marks (env : Env) (i : nat) (ticker : string)
    (vader_total gpt_total : Q) (high low : option Q) (score : Q)
    (recent rsi macd : option Q) :
  preserves (marks_at_most ticker)
    (commit_ticker env i ticker vader_total gpt_total high low score
       recent rsi macd).
Proof.
  intros s s' r H.
  unfold commit_ticker, bind, in_world, in_locals, say, in_log, in_world, zoom,
    save_to_db, save_state, modify, gets, emit in H.
  cbn in H. inversion H; subst; clear H. right. reflexivity.
Qed.

Ltac mark_block :=
  idtac;
  match goal with
  | |- preserves (marks_at_most _)
         (bind (in_world (save_to_db ?env ?t ?vt ?gt ?hi ?lo ?sc ?rp ?rsi ?macd))
            _) =>
      refine (commit_ticker_marks env _ t vt gt hi lo sc rp rsi macd)
  end.

(** One iteration of the score pass marks its own ticker, once, or
    nothing. *)
Lemma score_pass_body_marks (env : Env) (i : nat) (ticker : string) :
  preserves (marks_at_most ticker) (score_pass_body env (i, ticker)).
Proof.
  unfold score_pass_body.
  repeat first
    [ mark_block
    | apply (preserves_ret _ (marks_at_most_refl ticker))
    | apply (preserves_bind_after quiet (marks_at_most ticker) _ _
               (quiet_marks_at_most ticker) (quiet_marks_nothing ticker));
      [ first [ apply (preserves_of_result quiet quiet_refl)
              | unfold say; leaf_quiet ] | ]
    | match goal with
      | |- forall _, _ => intro
      | |- preserves _ (if ?c then _ else _) => destruct c
      | |- preserves _ (match ?x with _ => _ end) => destruct x
      end
    | apply (preserves_weaken quiet (marks_at_most ticker) _
               (quiet_marks_nothing ticker)); unfold say; leaf_quiet ].
Qed.

Lemma fetch_pass_body_scores_once (env : Env) (it : nat * string) :
  preserves (scores_once (fun t => t = snd it)) (fetch_pass_body env it).
Proof.
  intros s s' r H. apply quiet_scores_once.
  eapply fetch_pass_body_quiet. exact H.
Qed.

Lemma score_pass_body_scores_once (env : Env) (it : nat * string) :
  preserves (scores_once (fun t => t = snd it)) (score_pass_body env it).
Proof.
  destruct it as [i ticker]. cbn [snd]. intros s s' r H.
  destruct (score_pass_body_commits env (i, ticker) s s' r H)
    as (added & Hs & Hp & _).
  exists added. split; [exact Hs |]. split; [exact Hp |].
  destruct (str_in ticker (l_processed_tickers (locals s))) eqn:E.
  - rewrite (score_pass_body_processed env i ticker s E) in H.
    inversion H; subst; clear H. cbn in Hp.
    assert (Hnil : map s_ticker added = []).
    { apply (app_inv_head (l_processed_tickers (locals s))).
      rewrite app_nil_r. symmetry. exact Hp. }
    rewrite Hnil. split; constructor.
  - destruct (score_pass_body_marks env i ticker s s' r H) as [Hm | Hm];
      rewrite Hp in Hm.
    + assert (Hnil : map s_ticker added = []).
      { apply (app_inv_head (l_processed_tickers (locals s))).
        rewrite app_nil_r. exact Hm. }
      rewrite Hnil. split; constructor.
    + apply app_inv_head in Hm. rewrite Hm. split.
      * constructor; [intros [] | constructor].
      * constructor; [split; [reflexivity | exact E] | constructor].
Qed.

Lemma for_each_scores_once (body : nat * string -> M St unit)
    (its : list (nat * string)) :
  (forall it, preserves (scores_once (fun t => t = snd it)) (body it)) ->
  preserves (scores_once (fun t => In t (map snd its))) (for_each body its).
Proof.
  intro Hb. induction its as [| it rest IH]; cbn [for_each].
  - apply preserves_ret. apply scores_once_refl.
  - apply preserves_bind; [apply scores_once_trans | |].
    + intros s s' r H. eapply scores_once_weaken; [| eapply Hb; exact H].
      cbn. intros t ->. left. reflexivity.
    + intros _ s s' r H. eapply scores_once_weaken; [| eapply IH; exact H].
      cbn. intros t Ht. right. exact Ht.
Qed.

(** A statement that leaves the score table and the processed list
    alone. *)
Ltac leaf_scores_once :=
  let s := fresh "s" in let s' := fresh "s" in
  let r := fresh "r" in let H := fresh "H" in
  intros s s' r H; leaf_effect H; exists [];
  repeat match goal with
    | E : world _ = _ |- _ => rewrite E; clear E
    | E : locals _ = _ |- _ => rewrite E; clear E
    end;
  cbn; rewrite ?app_nil_r; repeat split; constructor.

Lemma main_fetch_pass_scores_once (env : Env) (tickers : list string) :
  preserves (scores_once (fun t => In t tickers))
    (main_fetch_pass env tickers).
Proof.
  unfold main_fetch_pass, say.
  repeat (apply preserves_bind;
          [apply scores_once_trans | leaf_scores_once | intros _]).
  pose proof (for_each_scores_once (fetch_pass_body env) (enumerate1 tickers)
                (fetch_pass_body_scores_once env)) as H.
  unfold enumerate1 in H. rewrite map_snd_enumerate_from in H. exact H.
Qed.

Lemma main_score_pass_scores_once (env : Env) (tickers : list string) :
  preserves (scores_once (fun t => In t tickers))
    (main_score_pass env tickers).
Proof.
  unfold main_score_pass, say.
  repeat (apply preserves_bind;
          [apply scores_once_trans | leaf_scores_once | intros _]).
  pose proof (for_each_scores_once (score_pass_body env) (enumerate1 tickers)
                (score_pass_body_scores_once env)) as H.
  unfold enumerate1 in H. rewrite map_snd_enumerate_from in H. exact H.
Qed.

Lemma main_report_scores_once (P : string -> Prop) :
  preserves (scores_once P) main_report.
Proof.
  intros s s' r H.
  unfold main_report, bind, in_locals, in_world, zoom, modify, gets,
    print_report in H.
  cbn in H. inversion H; subst; clear H.
  exists []. cbn. rewrite !app_nil_r. repeat split; constructor.
Qed.

(** The tickers a run may score: those of the ticker file that the
    checkpoint on disk does not mark as processed, each at most once. *)
Lemma main_try_scores_once (env : Env) (w : World) (s : St)
    (r : result main_exit) :
  main_try env (initial w) = (s, r) ->
  exists added,
    w_sentiment_scores (world s) = w_sentiment_scores w ++ added
    /\ NoDup (map s_ticker added)
    /\ Forall
         (fun t =>
            str_in t (checkpointed_tickers w) = false
            /\ exists tickers, tickers_csv env = Ok tickers /\ In t tickers)
         (map s_ticker added).
Proof.
  unfold main_try. unfold bind at 1.
  destruct (main_setup env (initial w)) as [s0 r0] eqn:E0.
  destruct (main_setup_summary env w s0 r0 E0)
    as ((_ & _ & D3 & _) & _ & Hok & _).
  destruct r0 as [tickers | e].
  - destruct (Hok tickers eq_refl) as (Hp & Hcsv & _).
    intro H.
    assert (Hs : scores_once (fun t => In t tickers) s0 s).
    { revert H. destruct tickers as [| t rest].
      - apply preserves_bind;
          [apply scores_once_trans | unfold say; leaf_scores_once |].
        intros _. apply preserves_ret. apply scores_once_refl.
      - apply preserves_bind;
          [apply scores_once_trans | apply main_fetch_pass_scores_once |].
        intros _. apply preserves_bind;
          [apply scores_once_trans | apply main_score_pass_scores_once |].
        intros _. apply preserves_bind;
          [apply scores_once_trans | apply main_report_scores_once |].
        intros _. apply preserves_ret. apply scores_once_refl. }
    destruct Hs as (added & S1 & _ & N1 & F1). exists added.
    rewrite S1, D3. split; [reflexivity |]. split; [exact N1 |].
    eapply Forall_impl; [| exact F1]. cbn. intros t [Hin Hn].
    rewrite Hp in Hn. split; [exact Hn | exists tickers; split; assumption].
  - intro H. inversion H; subst; clear H. exists [].
    rewrite D3, app_nil_r. repeat split; constructor.
Qed.

(** X20. A run scores a ticker at most once, and only tickers of the
    ticker file that the checkpoint it started from does not mark as
    processed: the score rows it appends have pairwise distinct tickers,
    also when the ticker file lists a ticker more than once, and none of
    them is a checkpointed ticker. *)
Theorem main_scores_each_ticker_once (env : Env) (w : World) :
  exists added,
    w_sentiment_scores (fst (main env w)) = w_sentiment_scores w ++ added
    /\ NoDup (map s_ticker added)
    /\ Forall
         (fun t =>
            str_in t (checkpointed_tickers w) = false
            /\ exists tickers, tickers_csv env = Ok tickers /\ In t tickers)
         (map s_ticker added).
Proof.
  unfold main.
  destruct (main_try env {| world := w; locals := no_locals |})
    as [s r] eqn:E.
  destruct (main_try_scores_once env w s r E) as (added & S1 & N1 & F1).
  exists added.
  destruct r as [how | e]; [cbn; repeat split; assumption |].
  destruct (l_ticker (locals s)) as [ticker |]; cbn;
    repeat split; assumption.
Qed.

(** ** What an indicator request returns *)

(** X21. [get_rsi] and [get_macd] answer from the first attempt that
    does not fail, or from the seventh. A transport failure or a 4xx/5xx
    status is retried and, at the seventh attempt, raised; so the
    status-code message of the [else] branch is printed only for a
    status other than 200 outside 400..599, with [None] returned. A 200
    reply gives the first value, [None] when there is no value, and
    [KeyError] when the body has no value list. *)
Theorem get_indicator_outcomes (env : Env) (e : endpoint) (ticker : string)
    (log : Log) :
  exists n,
    (1 <= n <= 7)%nat
    /\ (forall k, (1 <= k < n)%nat ->
          exists ex, attempt_outcome env e ticker k = Raise ex)
    /\ (polygon env e ticker n = HttpFail ->
        n = 7%nat
        /\ get_indicator env e ticker log
           = (log ++ attempts_trace e ticker 1 6, Raise RequestException))
    /\ (forall r,
          polygon env e ticker n = HttpResponse r ->
          ((400 <= status_code r < 600)%Z ->
           n = 7%nat
           /\ get_indicator env e ticker log
              = (log ++ attempts_trace e ticker 1 6, Raise HTTPError))
          /\ (status_code r = 200%Z ->
              forall values,
                json r = JValues values ->
                get_indicator env e ticker log
                = (log ++ attempts_trace e ticker 1 (n - 1),
                   Ok (hd_error values)))
          /\ (status_code r = 200%Z ->
              (forall values, json r <> JValues values) ->
              get_indicator env e ticker log
              = (log ++ attempts_trace e ticker 1 (n - 1), Raise KeyError))
          /\ (status_code r <> 200%Z ->
              ~ (400 <= status_code r < 600)%Z ->
              get_indicator env e ticker log
              = ((log ++ attempts_trace e ticker 1 (n - 1))
                 ++ [Print (MsgIndicatorError e ticker (status_code r))],
                 Ok None))).
Proof.
  destruct (requests_get_with_retry_attempts env e ticker log)
    as (n & Hn & Heq & Hfail & Hok).
  exists n. split; [exact Hn |]. split; [exact Hfail |].
  rewrite attempt_outcome_cases in Heq.
  assert (Hlast : forall ex, attempt_outcome env e ticker n = Raise ex ->
                             n = 7%nat).
  { intros ex Hex. destruct (Nat.eq_dec n 7) as [-> | Hne]; [reflexivity |].
    destruct Hok as [r Hr]; [lia | congruence]. }
  rewrite attempt_outcome_cases in Hlast.
  unfold get_indicator, bind. rewrite Heq. split.
  - intro Hp. rewrite Hp in *.
    assert (n = 7%nat) by (eapply Hlast; reflexivity). subst n.
    split; reflexivity.
  - intros r Hp. rewrite Hp in *.
    destruct ((400 <=? status_code r) && (status_code r <? 600))%Z eqn:Eb.
    + assert (n = 7%nat) by (eapply Hlast; reflexivity). subst n.
      apply andb_true_iff in Eb. destruct Eb as [E1 E2].
      apply Z.leb_le in E1. apply Z.ltb_lt in E2.
      repeat split; try reflexivity; intros; lia.
    + assert (Hout : ~ (400 <= status_code r < 600)%Z).
      { intros [H1 H2]. apply Z.leb_le in H1. apply Z.ltb_lt in H2.
        rewrite H1, H2 in Eb. discriminate. }
      split; [intro; contradiction |].
      split; [intros Hs values Hj; rewrite Hs, Hj; reflexivity |].
      split.
      * intros Hs Hj. rewrite Hs. cbn [Z.eqb Pos.eqb].
        destruct (json r) as [st rs | values | c | closes];
          first [reflexivity | exfalso; eapply Hj; reflexivity].
      * intros Hs _. apply Z.eqb_neq in Hs. rewrite Hs. reflexivity.
Qed.

(** ** The bins of the lexicon strategy and the weights of the labels *)

Lemma vader_label_weight (compound : Q) (l : string) :
  vader_label compound = Ok l ->
  (compound < - (8 # 10) /\ sentiment_scores l = Ok (-1))
  \/ (- (8 # 10) <= compound < - (35 # 100)
      /\ sentiment_scores l = Ok (- (1 # 2)))
  \/ (- (35 # 100) <= compound < 35 # 100 /\ sentiment_scores l = Ok 0)
  \/ (35 # 100 <= compound < 8 # 10 /\ sentiment_scores l = Ok (1 # 2))
  \/ (8 # 10 <= compound /\ sentiment_scores l = Ok 1).
Proof.
  intro H.
  destruct (vader_label_bins compound) as (B1 & B2 & B3 & B4 & B5 & B6).
  destruct (Qlt_le_dec compound (-1)) as [C0 | C0];
    [rewrite B6 in H by (left; exact C0); discriminate |].
  destruct (Qlt_le_dec compound 1) as [D0 | D0];
    [| rewrite B6 in H by (right; exact D0); discriminate].
  destruct (Qlt_le_dec compound (- (8 # 10))) as [C1 | C1].
  { rewrite B1 in H by (split; assumption). inversion H; subst.
    left. split; [exact C1 | reflexivity]. }
  destruct (Qlt_le_dec compound (- (35 # 100))) as [C2 | C2].
  { rewrite B2 in H by (split; assumption). inversion H; subst.
    right; left. split; [split; assumption | reflexivity]. }
  destruct (Qlt_le_dec compound (35 # 100)) as [C3 | C3].
  { rewrite B3 in H by (split; assumption). inversion H; subst.
    right; right; left. split; [split; assumption | reflexivity]. }
  destruct (Qlt_le_dec compound (8 # 10)) as [C4 | C4].
  { rewrite B4 in H by (split; assumption). inversion H; subst.
    right; right; right; left. split; [split; assumption | reflexivity]. }
  rewrite B5 in H by (split; assumption). inversion H; subst.
  right; right; right; right. split; [exact C4 | reflexivity].
Qed.

(** X22. The lexicon labels are ordered as the compound scores are: of
    two articles that both get a label, the one with the higher compound
    score never gets the label with the lower weight in the sentiment
    total. *)
Theorem vader_label_monotone (a b : Q) (la lb : string) :
  vader_label a = Ok la -> vader_label b = Ok lb -> a <= b ->
  exists wa wb,
    sentiment_scores la = Ok wa /\ sentiment_scores lb = Ok wb /\ wa <= wb.
Proof.
  intros Ha Hb Hab.
  destruct (vader_label_weight a la Ha)
    as [[A Wa] | [[A Wa] | [[A Wa] | [[A Wa] | [A Wa]]]]];
    destruct (vader_label_weight b lb Hb)
      as [[B Wb] | [[B Wb] | [[B Wb] | [[B Wb] | [B Wb]]]]];
    first
      [ exfalso; lra
      | eexists; eexists; split; [exact Wa |]; split; [exact Wb |];
        discriminate ].
Qed.

Lemma vader_label_monotone_example :
  exists wa wb,
    sentiment_scores "Very bad" = Ok wa /\ sentiment_scores "Good" = Ok wb
    /\ wa <= wb.
Proof.
  apply (vader_label_monotone (- (9 # 10)) (1 # 2) "Very bad" "Good").
  - reflexivity.
  - reflexivity.
  - discriminate.
Defined.

(** ** Which tickers a run stores news for *)

Lemma news_for_refl (P : string -> Prop) (s : St) : news_for P s s.
Proof. exists []. rewrite app_nil_r. split; [reflexivity | constructor]. Qed.

Lemma news_for_trans (P : string -> Prop) (a b c : St) :
  news_for P a b -> news_for P b c -> news_for P a c.
Proof.
  intros (n1 & E1 & F1) (n2 & E2 & F2). exists (n1 ++ n2).
  rewrite E2, E1, app_assoc.
  split; [reflexivity | apply Forall_app; split; assumption].
Qed.

Lemma news_for_weaken (P Q : string -> Prop) (s s' : St) :
  (forall t, P t -> Q t) -> news_for P s s' -> news_for Q s s'.
Proof.
  intros HPQ (added & E & F). exists added. split; [exact E |].
  eapply Forall_impl; [| exact F]. cbn. auto.
Qed.

Lemma in_news_news_for (P : string -> Prop) (env : Env) (ticker : string) :
  P ticker -> preserves (news_for P) (in_news (get_stock_news env ticker)).
Proof.
  intros HP s s' r H. unfold in_news, in_world, zoom in H.
  destruct (get_stock_news env ticker
              (w_news_articles (world s), w_log (world s)))
    as [[db' log'] r'] eqn:E.
  inversion H; subst; clear H.
  destruct (get_stock_news_added _ _ _ _ _ _ _ E) as (rs & Hdb & _).
  exists (map (news_row_of env ticker) rs). cbn. split; [exact Hdb |].
  apply Forall_forall. intros row Hin. apply in_map_iff in Hin.
  destruct Hin as (a & <- & _). exact HP.
Qed.

Ltac news_for_block :=
  idtac;
  match goal with
  | |- preserves (news_for _) (in_news _) =>
      apply in_news_news_for; reflexivity
  end.

Ltac leaf_news_for :=
  let s := fresh "s" in let s' := fresh "s" in
  let r := fresh "r" in let H := fresh "H" in
  intros s s' r H; leaf_effect H; exists [];
  repeat match goal with
    | E : world _ = _ |- _ => rewrite E; clear E
    end;
  cbn; rewrite ?app_nil_r; split; [reflexivity | constructor].

Lemma fetch_pass_body_news_for (env : Env) (i : nat) (ticker : string) :
  preserves (news_for (fun t => t = ticker)) (fetch_pass_body env (i, ticker)).
Proof.
  unfold fetch_pass_body, say.
  walk (news_for_refl (fun t => t = ticker))
       (news_for_trans (fun t => t = ticker)) news_for_block leaf_news_for.
Qed.

Lemma score_pass_body_news_for (env : Env) (i : nat) (ticker : string) :
  preserves (news_for (fun t => t = ticker)) (score_pass_body env (i, ticker)).
Proof.
  unfold score_pass_body, say.
  walk (news_for_refl (fun t => t = ticker))
       (news_for_trans (fun t => t = ticker)) fail leaf_news_for.
Qed.

Lemma stores_news_of_refl (P : string -> Prop) (s : St) :
  stores_news_of P s s.
Proof. split; [auto | apply news_for_refl]. Qed.

Lemma stores_news_of_trans (P : string -> Prop) (a b c : St) :
  stores_news_of P a b -> stores_news_of P b c -> stores_news_of P a c.
Proof.
  intros [M1 C1] [M2 C2]. split; [auto |].
  eapply news_for_trans; [exact C1 |].
  eapply news_for_weaken; [| exact C2].
  cbn. intros t [HP Hb]. split; [exact HP |].
  destruct (str_in t (l_processed_tickers (locals a))) eqn:E;
    [| reflexivity].
  rewrite (M1 t E) in Hb. discriminate.
Qed.

Lemma stores_news_of_weaken (P Q : string -> Prop) (s s' : St) :
  (forall t, P t -> Q t) -> stores_news_of P s s' -> stores_news_of Q s s'.
Proof.
  intros HPQ [M1 C1]. split; [exact M1 |].
  eapply news_for_weaken; [| exact C1]. cbn. intros t [HP Hb]. auto.
Qed.

Lemma fetch_pass_body_stores_news_of (env : Env) (it : nat * string) :
  preserves (stores_news_of (fun t => t = snd it)) (fetch_pass_body env it).
Proof.
  destruct it as [i ticker]. cbn [snd]. intros s s' r H. split.
  - intro x. apply commits_keeps_processed.
    eapply fetch_pass_body_commits. exact H.
  - destruct (str_in ticker (l_processed_tickers (locals s))) eqn:E.
    + rewrite (fetch_pass_body_processed env i ticker s E) in H.
      inversion H; subst; clear H. exists []. cbn. rewrite app_nil_r.
      split; [reflexivity | constructor].
    + eapply news_for_weaken;
        [| eapply fetch_pass_body_news_for; exact H].
      cbn. intros t ->. split; [reflexivity | exact E].
Qed.

Lemma score_pass_body_stores_news_of (env : Env) (it : nat * string) :
  preserves (stores_news_of (fun t => t = snd it)) (score_pass_body env it).
Proof.
  destruct it as [i ticker]. cbn [snd]. intros s s' r H. split.
  - intro x. apply commits_keeps_processed.
    eapply score_pass_body_commits. exact H.
  - destruct (str_in ticker (l_processed_tickers (locals s))) eqn:E.
    + rewrite (score_pass_body_processed env i ticker s E) in H.
      inversion H; subst; clear H. exists []. cbn. rewrite app_nil_r.
      split; [reflexivity | constructor].
    + eapply news_for_weaken;
        [| eapply score_pass_body_news_for; exact H].
      cbn. intros t ->. split; [reflexivity | exact E].
Qed.

Lemma for_each_stores_news_of (body : nat * string -> M St unit)
    (its : list (nat * string)) :
  (forall it, preserves (stores_news_of (fun t => t = snd it)) (body it)) ->
  preserves (stores_news_of (fun t => In t (map snd its))) (for_each body its).
Proof.
  intro Hb. induction its as [| it rest IH]; cbn [for_each].
  - apply preserves_ret. apply stores_news_of_refl.
  - apply preserves_bind; [apply stores_news_of_trans | |].
    + intros s s' r H. eapply stores_news_of_weaken; [| eapply Hb; exact H].
      cbn. intros t ->. left. reflexivity.
    + intros _ s s' r H. eapply stores_news_of_weaken; [| eapply IH; exact H].
      cbn. intros t Ht. right. exact Ht.
Qed.

Ltac leaf_stores_news_of :=
  let s := fresh "s" in let s' := fresh "s" in
  let r := fresh "r" in let H := fresh "H" in
  intros s s' r H; leaf_effect H; unfold stores_news_of, news_for;
  repeat match goal with
    | E : world _ = _ |- _ => rewrite E; clear E
    | E : locals _ = _ |- _ => rewrite E; clear E
    end;
  split;
  [ cbn; auto
  | exists []; cbn; rewrite ?app_nil_r; split; [reflexivity | constructor] ].

Lemma main_fetch_pass_stores_news_of (env : Env) (tickers : list string) :
  preserves (stores_news_of (fun t => In t tickers))
    (main_fetch_pass env tickers).
Proof.
  unfold main_fetch_pass, say.
  repeat (apply preserves_bind;
          [apply stores_news_of_trans | leaf_stores_news_of | intros _]).
  pose proof (for_each_stores_news_of (fetch_pass_body env)
                (enumerate1 tickers) (fetch_pass_body_stores_news_of env))
    as H.
  unfold enumerate1 in H. rewrite map_snd_enumerate_from in H. exact H.
Qed.

Lemma main_score_pass_stores_news_of (env : Env) (tickers : list string) :
  preserves (stores_news_of (fun t => In t tickers))
    (main_score_pass env tickers).
Proof.
  unfold main_score_pass, say.
  repeat (apply preserves_bind;
          [apply stores_news_of_trans | leaf_stores_news_of | intros _]).
  pose proof (for_each_stores_news_of (score_pass_body env)
                (enumerate1 tickers) (score_pass_body_stores_news_of env))
    as H.
  unfold enumerate1 in H. rewrite map_snd_enumerate_from in H. exact H.
Qed.

Lemma main_report_stores_news_of (P : string -> Prop) :
  preserves (stores_news_of P) main_report.
Proof.
  intros s s' r H.
  unfold main_report, bind, in_locals, in_world, zoom, modify, gets,
    print_report in H.
  cbn in H. inversion H; subst; clear H. split; [cbn; auto |].
  exists []. cbn. rewrite app_nil_r. split; [reflexivity | constructor].
Qed.

Lemma main_try_stores_news_of (env : Env) (w : World) (s : St)
    (r : result main_exit) :
  main_try env (initial w) = (s, r) ->
  exists added,
    w_news_articles (world s) = w_news_articles w ++ added
    /\ Forall
         (fun row =>
            str_in (row_ticker row) (checkpointed_tickers w) = false
            /\ exists tickers,
                 tickers_csv env = Ok tickers /\ In (row_ticker row) tickers)
         added.
Proof.
  unfold main_try. unfold bind at 1.
  destruct (main_setup env (initial w)) as [s0 r0] eqn:E0.
  destruct (main_setup_summary env w s0 r0 E0)
    as ((_ & D2 & _ & _) & _ & Hok & _).
  destruct r0 as [tickers | e].
  - destruct (Hok tickers eq_refl) as (Hp & Hcsv & _).
    intro H.
    assert (Hs : stores_news_of (fun t => In t tickers) s0 s).
    { revert H. destruct tickers as [| t rest].
      - apply preserves_bind;
          [apply stores_news_of_trans | unfold say; leaf_stores_news_of |].
        intros _. apply preserves_ret. apply stores_news_of_refl.
      - apply preserves_bind;
          [apply stores_news_of_trans | apply main_fetch_pass_stores_news_of |].
        intros _. apply preserves_bind;
          [apply stores_news_of_trans | apply main_score_pass_stores_news_of |].
        intros _. apply preserves_bind;
          [apply stores_news_of_trans | apply main_report_stores_news_of |].
        intros _. apply preserves_ret. apply stores_news_of_refl. }
    destruct Hs as (_ & added & S1 & F1). exists added.
    rewrite S1, D2. split; [reflexivity |].
    eapply Forall_impl; [| exact F1]. cbn. intros row [Hin Hn].
    rewrite Hp in Hn. split; [exact Hn | exists tickers; split; assumption].
  - intro H. inversion H; subst; clear H. exists [].
    rewrite D2, app_nil_r. split; [reflexivity | constructor].
Qed.

(** X23. A run stores news only for tickers of the ticker file that the
    checkpoint it started from does not mark as processed: every row it
    appends to the news table carries such a ticker. *)
Theorem main_stores_news_of_unprocessed_tickers (env : Env) (w : World) :
  exists added,
    w_news_articles (fst (main env w)) = w_news_articles w ++ added
    /\ Forall
         (fun row =>
            str_in (row_ticker row) (checkpointed_tickers w) = false
            /\ exists tickers,
                 tickers_csv env = Ok tickers /\ In (row_ticker row) tickers)
         added.
Proof.
  unfold main.
  destruct (main_try env {| world := w; locals := no_locals |})
    as [s r] eqn:E.
  destruct (main_try_stores_news_of env w s r E) as (added & S1 & F1).
  exists added.
  destruct r as [how | e]; [cbn; split; assumption |].
  destruct (l_ticker (locals s)) as [ticker |]; cbn; split; assumption.
Qed.
